(** * TelBot: rotation, scheduling, aggregation and diagnostics

    A shallow embedding of [telbot/telbot.py] and the properties of its
    autoposting core: the round-robin rotation of [TelegramPoster], the
    first-delay computation of [start_posting], [post_and_delete], the
    album aggregator of [ContentUploader], the hint table of
    [_posting_tick], the low-content monitor, the unique-name generator
    and the persistence of the rotation state.

    Conventions.  Python [int] is [Z]; instants and durations are [Z]
    counts of microseconds ([datetime] resolution); a [dict] whose order
    matters is an association list, a [set] is a [gset]; text is a byte
    string and [str.lower] acts on its ASCII letters, which is all it
    does on ASCII text.  Code that mutates
    the bot runs in the monad [M], whose result is either a value or a
    Python exception, next to the state reached. *)

From Stdlib Require Import ZArith Lia Ascii String.
From stdpp Require Import gmap strings list fin_maps pretty sorting.

Open Scope Z_scope.

(** ** Python primitives *)

Module Py.

(** The exceptions the embedded code can meet.  [SystemExit] is what
    [sys.exit] raises: it is no [Exception], and [except Exception]
    does not catch it. *)
Inductive exn : Type :=
| IndexError
| KeyError (key : string)
| FileNotFoundError
| NotADirectoryError
| IsADirectoryError
| PermissionError
| FileExistsError
| OSError
| ValueError
| TelegramError (text : string)
| JSONDecodeError (msg : string)
| SystemExit (code : Z).

Inductive outcome (A : Type) : Type :=
| Ret (a : A)
| Exc (e : exn).
Arguments Ret {A} a.
Arguments Exc {A} e.

(** [l[i]], negative positions counted from the end. *)
Definition getitem {A} (l : list A) (i : Z) : outcome A :=
  let n := Z.of_nat (length l) in
  let pos := if 0 <=? i then Some i else if - n <=? i then Some (n + i) else None in
  match pos with
  | Some p => match l !! Z.to_nat p with Some x => Ret x | None => Exc IndexError end
  | None => Exc IndexError
  end.

(** [d.get(k)] and [d[k]] on an insertion-ordered dict. *)
Fixpoint dict_get {V} (d : list (string * V)) (k : string) : option V :=
  match d with
  | [] => None
  | (k', v) :: d' => if decide (k' = k) then Some v else dict_get d' k
  end.

Definition dict_item {V} (d : list (string * V)) (k : string) : outcome V :=
  match dict_get d k with Some v => Ret v | None => Exc (KeyError k) end.

Definition keys {V} (d : list (string * V)) : list string := d.*1.

End Py.
Import Py.

(** ** The state monad of the bot *)

Section Monad.
Context {St : Type}.

Definition M (A : Type) : Type := St → outcome A * St.

Definition ret {A} (a : A) : M A := λ s, (Ret a, s).
Definition raise {A} (e : exn) : M A := λ s, (Exc e, s).
Definition bind {A B} (m : M A) (k : A → M B) : M B :=
  λ s, match m s with
       | (Ret a, s') => k a s'
       | (Exc e, s') => (Exc e, s')
       end.
Definition get : M St := λ s, (Ret s, s).
Definition gets {A} (f : St → A) : M A := λ s, (Ret (f s), s).
Definition modify (f : St → St) : M unit := λ s, (Ret tt, f s).
Definition lift {A} (o : outcome A) : M A := λ s, (o, s).
(** [try: m except Exception: h e].  The handler is given whatever the
    body raises; where the body can end the process, the handler lets
    [SystemExit] pass. *)
Definition try_except {A} (m : M A) (h : exn → M A) : M A :=
  λ s, match m s with
       | (Ret a, s') => (Ret a, s')
       | (Exc e, s') => h e s'
       end.
End Monad.
Arguments M : clear implicits.

Notation "'do' x <- m ; k" := (bind m (λ x, k))
  (at level 10, x name, m at level 100, k at level 200,
   format "'[v' 'do'  x  <-  m ; '/' k ']'").
Notation "'do'' p <- m ; k" := (bind m (λ x, match x with p => k end))
  (at level 10, p strict pattern, m at level 100, k at level 200).

(** ** Text

    [str.lower], the [in] test on strings, [re.match(r"\d{4}-\d{2}", _)]
    and [pathlib]'s [stem] and [suffix] of a single path component. *)

Module Text.
Open Scope string_scope.

Definition ascii_lower (c : ascii) : ascii :=
  let n := nat_of_ascii c in
  if ((65 <=? n) && (n <=? 90))%nat then ascii_of_nat (n + 32) else c.

Fixpoint lower (s : string) : string :=
  match s with
  | EmptyString => EmptyString
  | String c s' => String (ascii_lower c) (lower s')
  end.

(** [p in s] *)
Fixpoint contains (p s : string) : bool :=
  if String.prefix p s then true
  else match s with
       | EmptyString => false
       | String _ s' => contains p s'
       end.

(** [s.isascii()]: on such a text [lower] is [str.lower]. *)
Fixpoint is_ascii (s : string) : bool :=
  match s with
  | EmptyString => true
  | String c s' => (nat_of_ascii c <? 128)%nat && is_ascii s'
  end.

Definition is_digit (c : ascii) : bool :=
  let n := nat_of_ascii c in ((48 <=? n) && (n <=? 57))%nat.

(** [re.match(r"\d{4}-\d{2}", name)]: the pattern is matched at the
    start of the name, whatever follows. *)
Definition is_month_name (s : string) : bool :=
  match s with
  | String a (String b (String c (String d (String e (String f (String g _)))))) =>
      is_digit a && is_digit b && is_digit c && is_digit d
      && bool_decide (e = "-"%char) && is_digit f && is_digit g
  | _ => false
  end.

(** [name.rfind(".")] *)
Fixpoint rfind_dot (s : string) : option nat :=
  match s with
  | EmptyString => None
  | String c s' =>
      match rfind_dot s' with
      | Some i => Some (S i)
      | None => if decide (c = "."%char) then Some 0%nat else None
      end
  end.

(** The position at which [PurePath] splits a name into stem and
    suffix: the last dot, unless it is the first or the last
    character. *)
Definition split_at (name : string) : option nat :=
  match rfind_dot name with
  | Some i => if ((0 <? i) && (i <? String.length name - 1))%nat then Some i else None
  | None => None
  end.

Definition stem (name : string) : string :=
  match split_at name with
  | Some i => String.substring 0 i name
  | None => name
  end.

Definition suffix (name : string) : string :=
  match split_at name with
  | Some i => String.substring i (String.length name - i) name
  | None => EmptyString
  end.

End Text.

(** ** Configuration

    [CONFIG] as the code reads it: the ordered [channels] dict and the
    optional settings with the defaults the code supplies at each use.
    [admin_ids] is the list [ADMIN_IDS], which the code fills from the
    [telegram] section of [CONFIG] at import and at each reload. *)

Record category_cfg : Type := {
  cat_folder_name : option string;
  cat_hashtags : list string }.

Record channel_cfg : Type := {
  ch_channel_id : string;
  ch_name : option string;
  ch_enabled : option bool;
  ch_categories : list (string * category_cfg) }.

Record config : Type := {
  channels : list (string * channel_cfg);
  supported_formats : option (list string);
  settings_supported_formats : option (list string);
  low_content_threshold : option Z;
  post_interval_minutes : option Z;
  first_post_hour : option Z;
  last_post_hour : option Z;
  admin_ids : list Z }.

(** What [load_config] finds on disk: no [config.json]; a file that
    [json.load] rejects, with the message of its error; or files that
    hold a configuration, which is [config.json] with, when it exists,
    [config_custom.json] merged into it by [_deep_update]. *)
Inductive config_files : Type :=
| ConfigMissing
| ConfigMalformed (msg : string)
| ConfigJson (cfg : config).

Definition SUPPORTED_FORMATS : list string :=
  [".jpg"; ".jpeg"; ".png"; ".gif"; ".webp"; ".mp4"; ".webm"; ".mov"]%string.

Definition DEFAULT_LOW_CONTENT_THRESHOLD : Z := 10.

(** [{k: v for k, v in CONFIG["channels"].items() if v.get("enabled", True)}] *)
Definition get_enabled_channels (cfg : config) : list (string * channel_cfg) :=
  List.filter (λ kv, default true (ch_enabled kv.2)) (channels cfg).

(** [CONFIG.get("supported_formats") or CONFIG.get("settings", {}).get(...)];
    an empty list is falsy. *)
Definition get_supported_formats (cfg : config) : list string :=
  match supported_formats cfg with
  | Some (f :: fs) => f :: fs
  | _ => default SUPPORTED_FORMATS (settings_supported_formats cfg)
  end.

(** ** The content tree

    The directory [PATHS["content"]], keyed by the path below it.  The
    root is a directory that always exists (it is created at import). *)

Inductive kind : Type :=
| KFile (size : Z)
| KDir.

Global Instance kind_eq_dec : EqDecision kind.
Proof. solve_decision. Defined.

Abbreviation path := (list string).
Abbreviation tree := (gmap (list string) kind).

Module Fs.

Definition exists_ (t : tree) (p : path) : bool :=
  match p with [] => true | _ => bool_decide (is_Some (t !! p)) end.

Definition is_dir (t : tree) (p : path) : bool :=
  match p with [] => true | _ => bool_decide (t !! p = Some KDir) end.

Fixpoint strip_prefix (d p : path) : option path :=
  match d with
  | [] => Some p
  | x :: d' =>
      match p with
      | y :: p' => if decide (x = y) then strip_prefix d' p' else None
      | [] => None
      end
  end.

(** The name of [p] when [p] is an entry of directory [d]. *)
Definition child_of (d p : path) : option string :=
  match strip_prefix d p with
  | Some [n] => Some n
  | _ => None
  end.

Definition listdir (t : tree) (d : path) : list string :=
  omap (λ pk, child_of d pk.1) (map_to_list t).

(** [d.iterdir()] *)
Definition iterdir (t : tree) (d : path) : outcome (list path) :=
  if is_dir t d then Ret ((λ n, d ++ [n]) <$> listdir t d)
  else if exists_ t d then Exc NotADirectoryError
  else Exc FileNotFoundError.

(** [sorted(d.iterdir())] *)
Definition sorted_iterdir (t : tree) (d : path) : outcome (list path) :=
  if is_dir t d then Ret ((λ n, d ++ [n]) <$> merge_sort String.le (listdir t d))
  else if exists_ t d then Exc NotADirectoryError
  else Exc FileNotFoundError.

(** [p.name] *)
Definition name (p : path) : string := default EmptyString (last p).

End Fs.

(** ** Telegram messages, jobs and what the bot sends *)

Record document : Type := {
  doc_file_id : string;
  doc_mime_type : option string;
  doc_file_name : option string }.

Record message : Type := {
  message_id : Z;
  media_group_id : option string;
  caption : option string;
  photo : list string;
  msg_document : option document;
  video : option string;
  animation : option string }.

(** A job of the [JobQueue]: [run_once] jobs have no interval. *)
Record job : Type := {
  job_id : nat;
  job_name : string;
  job_data : string;
  job_due : Z;
  job_interval : option Z }.

Inductive reason : Type := no_content | file_missing | send_failed.

Inductive hint : Type :=
| HintChatNotFound   (* the bot is not in the channel, or wrong channel_id *)
| HintKicked         (* the bot was removed from the channel *)
| HintForbidden      (* no right to publish *)
| HintBadFile        (* file damaged or of an unsupported format *)
| HintTooLarge       (* file over the Telegram size limit *)
| HintFlood.         (* request limit exceeded *)

Record diagnostic : Type := {
  diag_channel : string;
  diag_reason : reason;
  diag_hint : option hint;
  diag_details : string;
  diag_file_count : Z;
  diag_folders : list (string * string * Z) }.

Inductive admin_text : Type :=
| LowContentAlert (ch_key channel : string) (count threshold : Z)
| PostingDiagnostic (d : diagnostic).

Inductive reply : Type :=
| ReplySaved (saved errors : Z) (channel category : string)
| ReplyError (text : string)
| ReplyDenied
| ReplyReloaded (n_channels n_admins : nat) (added removed : gset string)
| ReplyReloadFailed (e : exn).

(** What leaves the bot.  [ToAdmins] is the loop over [ADMIN_IDS] in
    which a failed delivery to one admin is swallowed; a low-content
    alert carries the channel key of the warning logged with it. *)
Inductive send_method : Type := send_animation | send_video | send_photo.

Inductive sent : Type :=
| ToChannel (method : send_method) (chat_id : string) (file : path) (text : string)
| ToAdmins (recipients : list Z) (body : admin_text)
| ReplyTo (to : message) (body : reply).

(** ** The state of the bot *)

(** The [last_post_time] member of the state file, as [_load_state]
    tells its values apart: [TsNull] is a member that is missing, null
    or otherwise falsy, which is skipped; [TsIso t] a text
    [datetime.fromisoformat] reads as [t]; [TsMalformed] any other
    value, on which [fromisoformat] raises. *)
Inductive ts_field : Type :=
| TsNull
| TsIso (t : Z)
| TsMalformed.

(** The JSON object of the state file: [_save_state] writes its four
    members, [_load_state] reads two of them.  The index is [Some i]
    for the integer [i], and [None] when the object has no member
    [current_channel_index].  An object whose index is null or no
    integer is not described: loading it leaves the poster with an
    index that is no [int]. *)
Record state_record : Type := {
  rec_current_channel_index : option Z;
  rec_is_posting : bool;
  rec_last_update : Z;
  rec_last_post_time : ts_field }.

(** What [STATE_FILE] holds: nothing; a text [json.loads] rejects (an
    empty or truncated file among them) or reads as a value that is no
    object, on which [state.get] raises before anything is loaded; or a
    JSON object. *)
Inductive stored : Type :=
| NoFile
| Corrupt
| Json (r : state_record).

Record TelegramPoster : Type := {
  channels_list : list string;
  current_channel_index : Z;
  is_posting : bool;
  last_post_time : option Z;
  posting_job : option nat;
  _low_content_warned : gset string;
  _last_send_error : option string }.

Record ContentUploader : Type := {
  _album_buffer : gmap string (list message);
  _album_timers : gmap string nat }.

Record bot : Type := {
  CONFIG : config;
  config_on_disk : config_files;
  content : tree;
  STATE_FILE : stored;
  now : Z;
  poster : TelegramPoster;
  uploader : ContentUploader;
  job_queue : list job;
  next_job_id : nat;
  outbox : list sent }.

Definition set_CONFIG (c : config) (b : bot) : bot :=
  {| CONFIG := c; config_on_disk := config_on_disk b; content := content b;
     STATE_FILE := STATE_FILE b; now := now b; poster := poster b;
     uploader := uploader b; job_queue := job_queue b;
     next_job_id := next_job_id b; outbox := outbox b |}.
Definition set_config_on_disk (f : config_files) (b : bot) : bot :=
  {| CONFIG := CONFIG b; config_on_disk := f; content := content b;
     STATE_FILE := STATE_FILE b; now := now b; poster := poster b;
     uploader := uploader b; job_queue := job_queue b;
     next_job_id := next_job_id b; outbox := outbox b |}.
Definition set_content (t : tree) (b : bot) : bot :=
  {| CONFIG := CONFIG b; config_on_disk := config_on_disk b; content := t;
     STATE_FILE := STATE_FILE b; now := now b; poster := poster b;
     uploader := uploader b; job_queue := job_queue b;
     next_job_id := next_job_id b; outbox := outbox b |}.
Definition set_STATE_FILE (f : stored) (b : bot) : bot :=
  {| CONFIG := CONFIG b; config_on_disk := config_on_disk b; content := content b;
     STATE_FILE := f; now := now b; poster := poster b;
     uploader := uploader b; job_queue := job_queue b;
     next_job_id := next_job_id b; outbox := outbox b |}.
Definition set_now (t : Z) (b : bot) : bot :=
  {| CONFIG := CONFIG b; config_on_disk := config_on_disk b; content := content b;
     STATE_FILE := STATE_FILE b; now := t; poster := poster b;
     uploader := uploader b; job_queue := job_queue b;
     next_job_id := next_job_id b; outbox := outbox b |}.
Definition set_poster (p : TelegramPoster) (b : bot) : bot :=
  {| CONFIG := CONFIG b; config_on_disk := config_on_disk b; content := content b;
     STATE_FILE := STATE_FILE b; now := now b; poster := p;
     uploader := uploader b; job_queue := job_queue b;
     next_job_id := next_job_id b; outbox := outbox b |}.
Definition set_uploader (u : ContentUploader) (b : bot) : bot :=
  {| CONFIG := CONFIG b; config_on_disk := config_on_disk b; content := content b;
     STATE_FILE := STATE_FILE b; now := now b; poster := poster b;
     uploader := u; job_queue := job_queue b;
     next_job_id := next_job_id b; outbox := outbox b |}.
Definition set_job_queue (q : list job) (n : nat) (b : bot) : bot :=
  {| CONFIG := CONFIG b; config_on_disk := config_on_disk b; content := content b;
     STATE_FILE := STATE_FILE b; now := now b; poster := poster b;
     uploader := uploader b; job_queue := q;
     next_job_id := n; outbox := outbox b |}.
Definition send (x : sent) (b : bot) : bot :=
  {| CONFIG := CONFIG b; config_on_disk := config_on_disk b; content := content b;
     STATE_FILE := STATE_FILE b; now := now b; poster := poster b;
     uploader := uploader b; job_queue := job_queue b;
     next_job_id := next_job_id b; outbox := outbox b ++ [x] |}.

(** Assignments to the attributes of [self]. *)
Definition set_channels_list (l : list string) (p : TelegramPoster) : TelegramPoster :=
  {| channels_list := l; current_channel_index := current_channel_index p;
     is_posting := is_posting p; last_post_time := last_post_time p;
     posting_job := posting_job p; _low_content_warned := _low_content_warned p;
     _last_send_error := _last_send_error p |}.
Definition set_current_channel_index (i : Z) (p : TelegramPoster) : TelegramPoster :=
  {| channels_list := channels_list p; current_channel_index := i;
     is_posting := is_posting p; last_post_time := last_post_time p;
     posting_job := posting_job p; _low_content_warned := _low_content_warned p;
     _last_send_error := _last_send_error p |}.
Definition set_is_posting (v : bool) (p : TelegramPoster) : TelegramPoster :=
  {| channels_list := channels_list p; current_channel_index := current_channel_index p;
     is_posting := v; last_post_time := last_post_time p;
     posting_job := posting_job p; _low_content_warned := _low_content_warned p;
     _last_send_error := _last_send_error p |}.
Definition set_last_post_time (t : option Z) (p : TelegramPoster) : TelegramPoster :=
  {| channels_list := channels_list p; current_channel_index := current_channel_index p;
     is_posting := is_posting p; last_post_time := t;
     posting_job := posting_job p; _low_content_warned := _low_content_warned p;
     _last_send_error := _last_send_error p |}.
Definition set_posting_job (j : option nat) (p : TelegramPoster) : TelegramPoster :=
  {| channels_list := channels_list p; current_channel_index := current_channel_index p;
     is_posting := is_posting p; last_post_time := last_post_time p;
     posting_job := j; _low_content_warned := _low_content_warned p;
     _last_send_error := _last_send_error p |}.
Definition set_low_content_warned (w : gset string) (p : TelegramPoster) : TelegramPoster :=
  {| channels_list := channels_list p; current_channel_index := current_channel_index p;
     is_posting := is_posting p; last_post_time := last_post_time p;
     posting_job := posting_job p; _low_content_warned := w;
     _last_send_error := _last_send_error p |}.
Definition set_last_send_error (e : option string) (p : TelegramPoster) : TelegramPoster :=
  {| channels_list := channels_list p; current_channel_index := current_channel_index p;
     is_posting := is_posting p; last_post_time := last_post_time p;
     posting_job := posting_job p; _low_content_warned := _low_content_warned p;
     _last_send_error := e |}.

(** [self.x = v] inside a method of the poster. *)
Definition self_set (f : TelegramPoster → TelegramPoster) : M bot unit :=
  modify (λ b, set_poster (f (poster b)) b).
Definition self_get {A} (f : TelegramPoster → A) : M bot A :=
  gets (λ b, f (poster b)).

(** ** Rotation state: [_load_state] and [_save_state] *)

(** The object [_save_state] serialises. *)
Definition state_of (b : bot) : state_record :=
  {| rec_current_channel_index := Some (current_channel_index (poster b));
     rec_is_posting := is_posting (poster b);
     rec_last_update := now b;
     rec_last_post_time :=
       match last_post_time (poster b) with Some t => TsIso t | None => TsNull end |}.

(** [STATE_FILE.write_text(data)] opens the file itself with mode "w",
    which empties it, and then writes [data] into it: the successive
    contents of the state file during the call. *)
Definition write_text_contents (data : state_record) : list stored :=
  [Corrupt; Json data].

Definition write_text (data : state_record) : M bot unit :=
  modify (λ b, foldl (λ b c, set_STATE_FILE c b) b (write_text_contents data)).

Definition _save_state : M bot unit :=
  do b <- get;
  write_text (state_of b).

(** The state file as a crash after [k] steps of [_save_state] leaves it. *)
Definition crash_in_save (k : nat) (b : bot) : stored :=
  STATE_FILE (foldl (λ b c, set_STATE_FILE c b) b (take k (write_text_contents (state_of b)))).

Definition _load_state : M bot unit :=
  do f <- gets STATE_FILE;
  match f with
  | NoFile => ret tt
  | _ =>
      try_except
        (do state <- match f with Json r => ret r | _ => raise ValueError end;
         do _ <- self_set (set_current_channel_index
                             (default 0 (rec_current_channel_index state)));
         do i <- self_get current_channel_index;
         do l <- self_get channels_list;
         do _ <- (if Z.of_nat (length l) <=? i
                  then self_set (set_current_channel_index 0) else ret tt);
         match rec_last_post_time state with
         | TsNull => ret tt
         | TsIso t => self_set (set_last_post_time (Some t))
         | TsMalformed => raise ValueError
         end)
        (λ _, ret tt)
  end.

(** [TelegramPoster.__init__] *)
Definition TelegramPoster_init : M bot unit :=
  do cfg <- gets CONFIG;
  do _ <- modify (set_poster
            {| channels_list := keys (get_enabled_channels cfg);
               current_channel_index := 0;
               is_posting := false;
               last_post_time := None;
               posting_job := None;
               _low_content_warned := ∅;
               _last_send_error := None |});
  _load_state.

(** ** Channel rotation *)

Definition get_next_channel : M bot (option string) :=
  do l <- self_get channels_list;
  match l with
  | [] => ret None
  | _ =>
      do i <- self_get current_channel_index;
      do ch <- lift (getitem l i);
      do _ <- self_set (set_current_channel_index ((i + 1) mod Z.of_nat (length l)));
      do _ <- _save_state;
      ret (Some ch)
  end.

(** [k] consecutive calls, with what each returned. *)
Fixpoint get_next_channel_times (k : nat) : M bot (list (option string)) :=
  match k with
  | O => ret []
  | S k' =>
      do ch <- get_next_channel;
      do rest <- get_next_channel_times k';
      ret (ch :: rest)
  end.

(** ** [/reload] *)

(** [CONFIG.clear()]: no member is left.  [ADMIN_IDS] is a list of its
    own: clearing [CONFIG] leaves it as it is.  The record has no way
    to say that [channels] itself is gone, which makes
    [CONFIG["channels"]] raise [KeyError]: what is stated of a cleared
    [CONFIG] below is that it is cleared, and the rotation, which does
    not read it. *)
Definition clear_CONFIG (cfg : config) : config :=
  {| channels := [];
     supported_formats := None;
     settings_supported_formats := None;
     low_content_threshold := None;
     post_interval_minutes := None;
     first_post_hour := None;
     last_post_hour := None;
     admin_ids := admin_ids cfg |}.

(** [load_config]: without [config.json] it ends the process with
    [sys.exit(1)]; on a file that does not parse, [json.load] raises. *)
Definition load_config : M bot config :=
  do files <- gets config_on_disk;
  match files with
  | ConfigMissing => raise (SystemExit 1)
  | ConfigMalformed msg => raise (JSONDecodeError msg)
  | ConfigJson cfg => ret cfg
  end.

(** [reload_config]: [CONFIG] is emptied before the files are read, and
    stays empty when reading them fails; [ADMIN_IDS] is refreshed once
    [CONFIG] is filled again. *)
Definition reload_config : M bot unit :=
  do _ <- modify (λ b, set_CONFIG (clear_CONFIG (CONFIG b)) b);
  do cfg <- load_config;
  modify (set_CONFIG cfg).

(** [isinstance(e, Exception)] *)
Definition is_Exception (e : exn) : bool :=
  match e with
  | SystemExit _ => false
  | _ => true
  end.

Definition admin_only (uid : Z) (update : message) (handler : M bot unit) : M bot unit :=
  do admins <- gets (λ b, admin_ids (CONFIG b));
  if bool_decide (uid ∈ admins) then handler
  else modify (send (ReplyTo update ReplyDenied)).

Definition cmd_reload (uid : Z) (update : message) : M bot unit :=
  admin_only uid update
    (try_except
       (do _ <- reload_config;
        do old_channels <- self_get channels_list;
        do cfg <- gets CONFIG;
        do _ <- self_set (set_channels_list (keys (get_enabled_channels cfg)));
        do l <- self_get channels_list;
        do i <- self_get current_channel_index;
        do _ <- (if Z.of_nat (length l) <=? i
                 then self_set (set_current_channel_index 0) else ret tt);
        let added := list_to_set l ∖ list_to_set old_channels in
        let removed := list_to_set old_channels ∖ list_to_set l in
        modify (send (ReplyTo update
                 (ReplyReloaded (length l) (length (admin_ids cfg)) added removed))))
       (λ e, if is_Exception e
             then modify (send (ReplyTo update (ReplyReloadFailed e)))
             else raise e)).

(** ** Reading the content tree *)

Global Instance outcome_ret : MRet outcome := @Ret.
Global Instance outcome_bind : MBind outcome := λ A B f m,
  match m with
  | Ret a => f a
  | Exc e => Exc e
  end.

(** A [for] loop that updates an accumulator and stops at the first
    exception. *)
Fixpoint for_acc {A B} (body : B → A → outcome B) (acc : B) (l : list A) : outcome B :=
  match l with
  | [] => Ret acc
  | x :: l' => acc' ← body acc x; for_acc body acc' l'
  end.

(** [d[k] = v] on an ordered dict. *)
Fixpoint dict_set {V} (d : list (string * V)) (k : string) (v : V) : list (string * V) :=
  match d with
  | [] => [(k, v)]
  | (k', v') :: d' => if decide (k' = k) then (k, v) :: d' else (k', v') :: dict_set d' k v
  end.

(** [[d for d in content.iterdir() if d.is_dir() and re.match(r"\d{4}-\d{2}", d.name)]] *)
Definition month_dirs (t : tree) : outcome (list path) :=
  ds ← Fs.iterdir t [];
  mret (List.filter (λ d, Fs.is_dir t d && Text.is_month_name (Fs.name d)) ds).

(** [[f for f in cat_dir.iterdir() if f.suffix.lower() in fmt]] *)
Definition supported_files (fmt : list string) (t : tree) (cat_dir : path)
  : outcome (list path) :=
  fs ← Fs.iterdir t cat_dir;
  mret (List.filter (λ f, bool_decide (Text.lower (Text.suffix (Fs.name f)) ∈ fmt)) fs).

Record channel_stats : Type := {
  cs_total : Z;
  cs_categories : list (string * Z) }.

Record content_stats : Type := {
  stats_total : Z;
  stats_channels : list (string * channel_stats) }.

Definition get_content_stats (cfg : config) (t : tree) : outcome content_stats :=
  months ← month_dirs t;
  let fmt := get_supported_formats cfg in
  for_acc
    (λ stats ch,
       let ch_key := ch.1 in
       ch_stats ←
         for_acc
           (λ ch_stats month,
              let ch_path := month ++ [ch_key] in
              if negb (Fs.exists_ t ch_path) then mret ch_stats
              else
                cat_dirs ← Fs.iterdir t ch_path;
                for_acc
                  (λ ch_stats cat_dir,
                     if negb (Fs.is_dir t cat_dir) then mret ch_stats
                     else
                       fs ← supported_files fmt t cat_dir;
                       let count := Z.of_nat (length fs) in
                       let cats := cs_categories ch_stats in
                       mret {| cs_total := cs_total ch_stats + count;
                               cs_categories :=
                                 dict_set cats (Fs.name cat_dir)
                                   (default 0 (dict_get cats (Fs.name cat_dir)) + count) |})
                  ch_stats cat_dirs)
           {| cs_total := 0; cs_categories := [] |} months;
       mret {| stats_total := stats_total stats + cs_total ch_stats;
               stats_channels := dict_set (stats_channels stats) ch_key ch_stats |})
    {| stats_total := 0; stats_channels := [] |}
    (get_enabled_channels cfg).

(** The channels that hold fewer than [threshold] files, with their
    counts, in the order of the enabled channels. *)
Definition get_low_content_channels (cfg : config) (t : tree) (threshold : option Z)
  : outcome (list (string * Z)) :=
  let threshold :=
    match threshold with
    | Some th => th
    | None => default DEFAULT_LOW_CONTENT_THRESHOLD (low_content_threshold cfg)
    end in
  stats ← get_content_stats cfg t;
  mret (foldl (λ low ch,
                 if cs_total ch.2 <? threshold then dict_set low ch.1 (cs_total ch.2)
                 else low)
              [] (stats_channels stats)).

Record image : Type := {
  img_path : path;
  img_category : string;
  img_hashtags : list string }.

(** The first hashtag of the category configured with this folder name. *)
Definition folder_hashtags (ch_cfg : channel_cfg) (folder : string) : list string :=
  match List.find (λ kv, bool_decide (cat_folder_name kv.2 = Some folder))
                  (ch_categories ch_cfg) with
  | Some kv => take 1 (cat_hashtags kv.2)
  | None => []
  end.

(** [random.choice(images) if images else None]; [pick] is the draw. *)
Definition random_choice {A} (pick : nat) (l : list A) : option A :=
  match l with
  | [] => None
  | _ => l !! (pick mod length l)%nat
  end.

(** Every file [get_random_image] chooses from. *)
Definition candidate_images (cfg : config) (t : tree) (ch_cfg : channel_cfg)
    (channel_key : string) (months : list path) : outcome (list image) :=
  let fmt := get_supported_formats cfg in
  for_acc
    (λ images month,
       let ch_path := month ++ [channel_key] in
       if negb (Fs.exists_ t ch_path) then mret images
       else
         cat_dirs ← Fs.iterdir t ch_path;
         for_acc
           (λ images cat_dir,
              if negb (Fs.is_dir t cat_dir) then mret images
              else
                let hashtags := folder_hashtags ch_cfg (Fs.name cat_dir) in
                fs ← supported_files fmt t cat_dir;
                mret (images ++
                      ((λ f, {| img_path := f; img_category := Fs.name cat_dir;
                                img_hashtags := hashtags |}) <$> fs)))
           images cat_dirs)
    [] months.

Definition get_random_image (cfg : config) (t : tree) (pick : nat) (channel_key : string)
  : outcome (option image) :=
  months ← month_dirs t;
  match months with
  | [] => mret None
  | _ =>
      ch_cfg ← dict_item (channels cfg) channel_key;
      images ← candidate_images cfg t ch_cfg channel_key months;
      mret (random_choice pick images)
  end.

(** ** Writing to the content tree *)

Fixpoint for_each {St A} (body : A → M St unit) (l : list A) : M St unit :=
  match l with
  | [] => ret tt
  | x :: l' => do _ <- body x; for_each body l'
  end.

Fixpoint for_accM {St A B} (body : B → A → M St B) (acc : B) (l : list A) : M St B :=
  match l with
  | [] => ret acc
  | x :: l' => do acc' <- body acc x; for_accM body acc' l'
  end.

Definition fs_iterdir (p : path) : M bot (list path) :=
  do t <- gets content; lift (Fs.iterdir t p).

Definition fs_is_dir (p : path) : M bot bool :=
  gets (λ b, Fs.is_dir (content b) p).

Definition fs_rmdir (p : path) : M bot unit :=
  do t <- gets content;
  match t !! p with
  | Some KDir =>
      if bool_decide (Fs.listdir t p = []) then modify (set_content (delete p t))
      else raise OSError
  | Some (KFile _) => raise NotADirectoryError
  | None => raise FileNotFoundError
  end.

Definition fs_unlink (p : path) : M bot unit :=
  do t <- gets content;
  match t !! p with
  | Some (KFile _) => modify (set_content (delete p t))
  | Some KDir => raise IsADirectoryError
  | None => raise FileNotFoundError
  end.

(** [open(p, "rb")] *)
Definition fs_open (p : path) : M bot unit :=
  do t <- gets content;
  match t !! p with
  | Some (KFile _) => ret tt
  | Some KDir => raise IsADirectoryError
  | None => raise FileNotFoundError
  end.

(** [p.stat().st_size]; a directory reports one block. *)
Definition fs_st_size (p : path) : M bot Z :=
  do t <- gets content;
  match t !! p with
  | Some (KFile size) => ret size
  | Some KDir => ret 4096
  | None => raise FileNotFoundError
  end.

Definition cleanup_empty_dirs : M bot Z :=
  do months <- (do t <- gets content; lift (Fs.sorted_iterdir t []));
  for_accM
    (λ removed month_dir,
       do month_is_dir <- fs_is_dir month_dir;
       if negb month_is_dir || negb (Text.is_month_name (Fs.name month_dir))
       then ret removed
       else
         do ch_dirs <- fs_iterdir month_dir;
         do removed <-
           for_accM
             (λ removed ch_dir,
                do ch_is_dir <- fs_is_dir ch_dir;
                if negb ch_is_dir then ret removed
                else
                  do cat_dirs <- fs_iterdir ch_dir;
                  do removed <-
                    for_accM
                      (λ removed cat_dir,
                         do cat_is_dir <- fs_is_dir cat_dir;
                         if negb cat_is_dir then ret removed
                         else
                           do entries <- fs_iterdir cat_dir;
                           match entries with
                           | [] => do _ <- fs_rmdir cat_dir; ret (removed + 1)
                           | _ => ret removed
                           end)
                      removed cat_dirs;
                  do ch_is_dir <- fs_is_dir ch_dir;
                  if negb ch_is_dir then ret removed
                  else
                    do entries <- fs_iterdir ch_dir;
                    match entries with
                    | [] => do _ <- fs_rmdir ch_dir; ret (removed + 1)
                    | _ => ret removed
                    end)
             removed ch_dirs;
         do remaining <- fs_iterdir month_dir;
         if bool_decide (remaining = [])
            || bool_decide (Fs.name <$> remaining = ["package_info.json"%string])
         then
           do _ <- for_each fs_unlink remaining;
           do _ <- fs_rmdir month_dir;
           ret (removed + 1)
         else ret removed)
    0 months.

(** ** Publishing *)

(** What the environment decides during one tick: the draw of
    [random.choice], the answer of the Bot API to the send ([None]: the
    post is accepted, [Some text]: the call raises with that text) and
    whether deleting the published file is refused. *)
Record tick_env : Type := {
  pick : nat;
  api_error : option string;
  unlink_refused : bool }.

Definition nl : string := String "010"%char EmptyString.

(** [str(e)] *)
Definition exn_str (e : exn) : string :=
  match e with
  | IndexError => "list index out of range"
  | KeyError k => "'" +:+ k +:+ "'"
  | FileNotFoundError => "[Errno 2] No such file or directory"
  | NotADirectoryError => "[Errno 20] Not a directory"
  | IsADirectoryError => "[Errno 21] Is a directory"
  | PermissionError => "[Errno 13] Permission denied"
  | FileExistsError => "[Errno 17] File exists"
  | OSError => "[Errno 39] Directory not empty"
  | ValueError => "Invalid isoformat string"
  | TelegramError text => text
  | JSONDecodeError msg => msg
  | SystemExit code => pretty code
  end%string.

Definition send_file (api : option string) (channel_id : string) (file_path : path)
    (text : string) : M bot bool :=
  try_except
    (let ext := Text.lower (Text.suffix (Fs.name file_path)) in
     do _ <- fs_open file_path;
     let method :=
       if decide (ext = ".gif"%string) then send_animation
       else if bool_decide (ext ∈ [".mp4"; ".mov"; ".avi"; ".mkv"; ".webm"]%string)
            then send_video
            else send_photo in
     do _ <- match api with
             | None => modify (send (ToChannel method channel_id file_path text))
             | Some e => raise (TelegramError e)
             end;
     do _ <- self_set (set_last_send_error None);
     ret true)
    (λ e,
       do _ <- self_set (set_last_send_error (Some (exn_str e)));
       ret false).

Inductive publish_result : Type :=
| Published
| Failed (r : reason) (details : string).

(** [" ".join(l)] *)
Fixpoint join_space (l : list string) : string :=
  match l with
  | [] => EmptyString
  | [x] => x
  | x :: l' => x +:+ " " +:+ join_space l'
  end.

(** The details of a failed send: the file, its size and category, and
    after them the text of the API error. *)
Definition send_failed_details (file_name : string) (size : Z) (category api_err : string)
  : string :=
  "Файл: " +:+ file_name +:+ " (" +:+ pretty size +:+ " байт), категория: "
  +:+ category +:+ nl +:+ "API ошибка: " +:+ api_err.

Definition post_and_delete (env : tick_env) (channel_key : string) : M bot publish_result :=
  do cfg <- gets CONFIG;
  do ch_cfg <- lift (dict_item (channels cfg) channel_key);
  do t <- gets content;
  do img <- lift (get_random_image cfg t (pick env) channel_key);
  match img with
  | None =>
      ret (Failed no_content "Нет файлов поддерживаемых форматов в папках контента")
  | Some img =>
      let text := join_space (img_hashtags img) in
      let file_path := img_path img in
      do t <- gets content;
      if negb (Fs.exists_ t file_path)
      then ret (Failed file_missing ("Файл исчез: " +:+ Fs.name file_path))
      else
        do ok <- send_file (api_error env) (ch_channel_id ch_cfg) file_path text;
        if ok then
          do _ <- try_except
                    (if unlink_refused env then raise PermissionError
                     else fs_unlink file_path)
                    (λ _, ret tt);
          do _ <- cleanup_empty_dirs;
          do t <- gets now;
          do _ <- self_set (set_last_post_time (Some t));
          do _ <- _save_state;
          ret Published
        else
          do err <- self_get _last_send_error;
          let api_err :=
            match err with
            | Some e => if decide (e = EmptyString) then "неизвестная ошибка"%string else e
            | None => "неизвестная ошибка"%string
            end in
          do size <- fs_st_size file_path;
          ret (Failed send_failed
                 (send_failed_details (Fs.name file_path) size (img_category img) api_err))
  end.

(** ** The low-content monitor *)

Definition _check_low_content : M bot unit :=
  do cfg <- gets CONFIG;
  let threshold := default DEFAULT_LOW_CONTENT_THRESHOLD (low_content_threshold cfg) in
  do t <- gets content;
  do low <- lift (get_low_content_channels cfg t (Some threshold));
  do _ <- for_each
            (λ item : string * Z,
               let (ch_key, count) := item in
               do warned <- self_get _low_content_warned;
               if bool_decide (ch_key ∈ warned) then ret tt
               else
                 do cfg <- gets CONFIG;
                 do ch_cfg <- lift (dict_item (channels cfg) ch_key);
                 let ch_name := default ch_key (ch_name ch_cfg) in
                 do _ <- modify (send (ToAdmins (admin_ids cfg)
                                         (LowContentAlert ch_key ch_name count threshold)));
                 self_set (λ p, set_low_content_warned ({[ch_key]} ∪ _low_content_warned p) p))
            low;
  do warned <- self_get _low_content_warned;
  for_each
    (λ ch_key,
       if bool_decide (ch_key ∈ keys low) then ret tt
       else self_set (λ p, set_low_content_warned (_low_content_warned p ∖ {[ch_key]}) p))
    (elements warned).

(** ** The job queue *)

Definition seconds (n : Z) : Z := n * 1000000.
Definition minutes (n : Z) : Z := seconds (n * 60).

(** [job_queue.run_repeating] and [job_queue.run_once]: the new job is
    due [first] after the present instant. *)
Definition run_job (name data : string) (first : Z) (interval : option Z) : M bot nat :=
  do b <- get;
  let j := {| job_id := next_job_id b; job_name := name; job_data := data;
              job_due := now b + first; job_interval := interval |} in
  do _ <- modify (set_job_queue (job_queue b ++ [j]) (S (next_job_id b)));
  ret (job_id j).

(** [job.schedule_removal()] *)
Definition schedule_removal (id : nat) : M bot unit :=
  modify (λ b, set_job_queue
                 (List.filter (λ j, negb (job_id j =? id)%nat) (job_queue b))
                 (next_job_id b) b).

(** ** Starting and stopping the schedule *)

(** The delay before the first tick: what is left of the interval since
    the last post, ten seconds otherwise. *)
Definition first_delay (interval_min : Z) (last_post_time : option Z) (now : Z) : Z :=
  match last_post_time with
  | Some last =>
      let elapsed := now - last in
      let remaining := seconds (interval_min * 60) - elapsed in
      if 0 <? remaining then remaining else seconds 10
  | None => seconds 10
  end.

Definition start_posting : M bot bool :=
  do posting <- self_get is_posting;
  if posting then ret false
  else
    do cfg <- gets CONFIG;
    let interval_min := default 30 (post_interval_minutes cfg) in
    do last <- self_get last_post_time;
    do t <- gets now;
    do j <- run_job "posting_job" EmptyString (first_delay interval_min last t)
              (Some (minutes interval_min));
    do _ <- self_set (set_posting_job (Some j));
    do _ <- self_set (set_is_posting true);
    do _ <- _save_state;
    ret true.

Definition stop_posting : M bot bool :=
  do posting <- self_get is_posting;
  if negb posting then ret false
  else
    do j <- self_get posting_job;
    do _ <- match j with
            | Some id =>
                do _ <- schedule_removal id;
                self_set (set_posting_job None)
            | None => ret tt
            end;
    do _ <- self_set (set_is_posting false);
    do _ <- _save_state;
    ret true.

(** ** One tick of the schedule *)

(** The hint of the diagnostic, chosen from the lower-cased details of
    a failed send. *)
Definition api_hint (r : reason) (details : string) : option hint :=
  match r with
  | send_failed =>
      let err_lower := Text.lower details in
      if Text.contains "chat not found" err_lower then Some HintChatNotFound
      else if Text.contains "bot was kicked" err_lower
              || Text.contains "bot is not a member" err_lower then Some HintKicked
      else if Text.contains "forbidden" err_lower then Some HintForbidden
      else if Text.contains "wrong file identifier" err_lower
              || Text.contains "invalid" err_lower then Some HintBadFile
      else if Text.contains "too large" err_lower
              || Text.contains "file is too big" err_lower then Some HintTooLarge
      else if Text.contains "flood" err_lower
              || Text.contains "too many requests" err_lower then Some HintFlood
      else None
  | _ => None
  end.

(** [now.hour] *)
Definition hour (t : Z) : Z := (t / seconds 3600) mod 24.

(** The files of the channel, folder by folder, for the diagnostic. *)
Definition count_channel_files (cfg : config) (t : tree) (channel_key : string)
  : outcome (Z * list (string * string * Z)) :=
  month_dirs ← Fs.iterdir t [];
  for_acc
    (λ acc month_dir,
       if Fs.is_dir t month_dir && Text.is_month_name (Fs.name month_dir) then
         let ch_path := month_dir ++ [channel_key] in
         if Fs.exists_ t ch_path then
           cat_dirs ← Fs.iterdir t ch_path;
           for_acc
             (λ acc cat_dir,
                if Fs.is_dir t cat_dir then
                  fs ← supported_files (get_supported_formats cfg) t cat_dir;
                  let cnt := Z.of_nat (length fs) in
                  mret (acc.1 + cnt,
                        if 0 <? cnt
                        then acc.2 ++ [(Fs.name month_dir, Fs.name cat_dir, cnt)]
                        else acc.2)
                else mret acc)
             acc cat_dirs
         else mret acc
       else mret acc)
    (0, []) month_dirs.

Definition _posting_tick (env : tick_env) : M bot unit :=
  do cfg <- gets CONFIG;
  let first_h := default 0 (first_post_hour cfg) in
  let last_h := default 24 (last_post_hour cfg) in
  do t <- gets now;
  if negb ((first_h <=? hour t) && (hour t <? last_h)) then ret tt
  else
    do channel_key <- get_next_channel;
    match channel_key with
    | None => ret tt
    | Some EmptyString => ret tt
    | Some channel_key =>
        do result <- post_and_delete env channel_key;
        do _ <- match result with
                | Published => ret tt
                | Failed reason details =>
                    do cfg <- gets CONFIG;
                    do ch_cfg <- lift (dict_item (channels cfg) channel_key);
                    do t <- gets content;
                    do counted <- lift (count_channel_files cfg t channel_key);
                    modify (send (ToAdmins (admin_ids cfg)
                              (PostingDiagnostic
                                 {| diag_channel := channel_key;
                                    diag_reason := reason;
                                    diag_hint := api_hint reason details;
                                    diag_details := details;
                                    diag_file_count := counted.1;
                                    diag_folders := take 15 counted.2 |})))
                end;
        _check_low_content
    end.

(** ** Unique file names *)

(** [f"{stem}_{c}{suffix}"] *)
Definition numbered (stem suffix : string) (c : nat) : string :=
  stem +:+ "_" +:+ pretty c +:+ suffix.

(** The [while] loop of [generate_unique_filename], run for at most
    [fuel] rounds from the counter [c]. *)
Fixpoint first_free (t : tree) (directory : path) (stem suffix : string)
    (fuel c : nat) : option string :=
  match fuel with
  | O => None
  | S fuel' =>
      let candidate := numbered stem suffix c in
      if Fs.exists_ t (directory ++ [candidate])
      then first_free t directory stem suffix fuel' (S c)
      else Some candidate
  end.

(** [filename] is a single path component.  The loop is given one
    round more than the tree has entries; [None] would mean that it
    needs more. *)
Definition generate_unique_filename (t : tree) (directory : path) (filename : string)
  : option string :=
  if negb (Fs.exists_ t (directory ++ [filename])) then Some filename
  else first_free t directory (Text.stem filename) (Text.suffix filename)
         (S (size t)) 1.

(** ** Receiving content: [ContentUploader] *)

Record category_info : Type := {
  ci_channel_key : string;
  ci_category : string;
  ci_hashtags : list string }.

Definition find_category_by_hashtag (cfg : config) (hashtag : string)
  : option category_info :=
  let h := Text.lower hashtag in
  List.find (λ _, true)
    (flat_map
       (λ ch : string * channel_cfg,
          omap (λ cat : string * category_cfg,
                  if existsb (λ t, bool_decide (Text.lower t = h)) (cat_hashtags cat.2)
                  then Some {| ci_channel_key := ch.1;
                               ci_category := default cat.1 (cat_folder_name cat.2);
                               ci_hashtags := cat_hashtags cat.2 |}
                  else None)
               (ch_categories ch.2))
       (channels cfg)).

(** Every hashtag of the configuration is ASCII text. *)
Definition ascii_hashtags (cfg : config) : bool :=
  forallb (λ ch : string * channel_cfg,
             forallb (λ cat : string * category_cfg,
                        forallb Text.is_ascii (cat_hashtags cat.2))
                     (ch_categories ch.2))
          (channels cfg).

(** What the environment decides while one file is saved: the answer
    to [bot.get_file] (the [file_path] Telegram reports), the rendering
    of the clock in the name, the random number in the name, and the
    size [download_to_drive] writes, unless it raises. *)
Record save_env : Type := {
  tg_file_path : outcome (option string);
  stamp : string;
  rid : Z;
  download : outcome Z }.

Inductive save_result : Type :=
| Saved (channel category : string)
| SaveError (text : string).

(** [target.mkdir(parents=True, exist_ok=True)] *)
Definition fs_mkdir_parents (target : path) : M bot unit :=
  for_each
    (λ n,
       let d := take n target in
       do t <- gets content;
       match t !! d with
       | Some KDir => ret tt
       | Some (KFile _) =>
           raise (if decide (d = target) then FileExistsError else NotADirectoryError)
       | None => modify (set_content (<[d := KDir]> t))
       end)
    (seq 1 (length target)).

(** The last component of a [/]-separated path. *)
Fixpoint basename_go (acc s : string) : string :=
  match s with
  | EmptyString => acc
  | String c s' =>
      if decide (c = "/"%char) then basename_go EmptyString s'
      else basename_go (acc +:+ String c EmptyString)%string s'
  end.
Definition basename : string → string := basename_go EmptyString.

Definition save_file (env : save_env) (file_id text ext_hint : string) : M bot save_result :=
  match List.find (String.prefix "#") (String.words text) with
  | None => ret (SaveError "Нет хештега в подписи. Пример: #Sakura")
  | Some hashtag =>
      do cfg <- gets CONFIG;
      match find_category_by_hashtag cfg hashtag with
      | None => ret (SaveError ("Хештег " +:+ hashtag +:+ " не найден в конфигурации."))
      | Some cat_info =>
          let target := [ci_channel_key cat_info; ci_category cat_info] in
          do _ <- fs_mkdir_parents target;
          try_except
            (do tg_path <- lift (tg_file_path env);
             let ext_hint :=
               match tg_path with
               | Some p =>
                   let tg_ext := Text.lower (Text.suffix (basename p)) in
                   if decide (tg_ext = EmptyString) then ext_hint else tg_ext
               | None => ext_hint
               end in
             do t <- gets content;
             do fname <-
               match generate_unique_filename t target
                       (ci_category cat_info +:+ "_" +:+ stamp env +:+ "_"
                        +:+ pretty (rid env) +:+ ext_hint) with
               | Some fname => ret fname
               | None => raise OSError
               end;
             do size <- lift (download env);
             do _ <- modify (λ b, set_content (<[target ++ [fname] := KFile size]> (content b)) b);
             ret (Saved (ci_channel_key cat_info) (ci_category cat_info)))
            (λ e, ret (SaveError (exn_str e)))
      end
  end.

(** The file id and the extension hint of a message. *)
Definition _extract_file_info (msg : message) : option (string * string) :=
  match last (photo msg), msg_document msg, video msg, animation msg with
  | Some file_id, _, _, _ => Some (file_id, ".jpg"%string)
  | None, Some doc, _, _ =>
      let mime := Text.lower (default EmptyString (doc_mime_type doc)) in
      let ext :=
        match doc_file_name doc with
        | Some (String c fn) =>
            let e := Text.lower (Text.suffix (basename (String c fn))) in
            if decide (e = EmptyString) then ".jpg"%string else e
        | _ =>
            if Text.contains "video" mime || Text.contains "mp4" mime then ".mp4"
            else if Text.contains "gif" mime then ".gif"
            else if Text.contains "png" mime then ".png"
            else if Text.contains "webp" mime then ".webp"
            else ".jpg"
        end%string in
      Some (doc_file_id doc, ext)
  | None, None, Some file_id, _ => Some (file_id, ".mp4"%string)
  | None, None, None, Some file_id => Some (file_id, ".gif"%string)
  | None, None, None, None => None
  end.

(** Called for a message that carries a [media_group_id]. *)
Definition handle_album_message (msg : message) : M bot unit :=
  let group_id := default EmptyString (media_group_id msg) in
  do u <- gets uploader;
  let buffered := default [] (_album_buffer u !! group_id) ++ [msg] in
  do _ <- modify (set_uploader
                    {| _album_buffer := <[group_id := buffered]> (_album_buffer u);
                       _album_timers := _album_timers u |});
  do _ <- match _album_timers u !! group_id with
          | Some j => schedule_removal j
          | None => ret tt
          end;
  do j <- run_job ("album_" +:+ group_id) group_id (seconds 2) None;
  modify (λ b, set_uploader
                 {| _album_buffer := _album_buffer (uploader b);
                    _album_timers := <[group_id := j]> (_album_timers (uploader b)) |} b).

(** The callback of the album job.  It returns the batch it took from
    the buffer, which the source does not return, to name the flush. *)
Definition _process_album (env : message → save_env) (group_id : string)
  : M bot (list message) :=
  do u <- gets uploader;
  let messages := default [] (_album_buffer u !! group_id) in
  do _ <- modify (set_uploader
                    {| _album_buffer := delete group_id (_album_buffer u);
                       _album_timers := delete group_id (_album_timers u) |});
  match messages with
  | [] => ret []
  | first_msg :: _ =>
      let text :=
        default EmptyString
          (List.find (λ c, negb (bool_decide (c = EmptyString)))
                     (omap caption messages)) in
      do acc <-
        for_accM
          (λ (acc : Z * Z * option save_result) m,
             match _extract_file_info m with
             | None | Some (EmptyString, _) => ret acc
             | Some (file_id, ext) =>
                 do result <- save_file (env m) file_id text ext;
                 match result with
                 | SaveError _ => ret (acc.1.1, acc.1.2 + 1, Some result)
                 | Saved _ _ => ret (acc.1.1 + 1, acc.1.2, Some result)
                 end
             end)
          (0, 0, None) messages;
      let '(saved, errors, last_result) := acc in
      do _ <-
        (if 0 <? saved then
           do cfg <- gets CONFIG;
           let '(ch_name, category) :=
             match last_result with
             | Some (Saved ch cat) =>
                 (match dict_get (channels cfg) ch with
                  | Some ch_cfg => default ch (ch_name ch_cfg)
                  | None => ch
                  end, cat)
             | _ => ("?"%string, "?"%string)
             end in
           modify (send (ReplyTo first_msg (ReplySaved saved errors ch_name category)))
         else
           let err_text :=
             match last_result with
             | Some (SaveError e) => e
             | _ => "Неизвестная ошибка"%string
             end in
           modify (send (ReplyTo first_msg (ReplyError err_text))));
      ret messages
  end.

(** The job queue, for the album jobs: the [run_once] jobs due by [t]
    run in the order of their due times, each at its due time. *)
Definition due_le (j1 j2 : job) : Prop := job_due j1 ≤ job_due j2.

Global Instance due_le_dec : RelDecision due_le.
Proof. intros j1 j2. unfold due_le. apply _. Defined.

Definition due_once (t : Z) (q : list job) : list job :=
  merge_sort due_le
    (List.filter (λ j, bool_decide (job_interval j = None) && (job_due j <=? t)) q).

Definition run_due_albums (env : message → save_env) (t : Z) : M bot (list (list message)) :=
  do q <- gets job_queue;
  for_accM
    (λ flushed j,
       do _ <- schedule_removal (job_id j);
       do _ <- modify (set_now (job_due j));
       do batch <- _process_album env (job_data j);
       ret (flushed ++ [batch]))
    [] (due_once t q).

(** Album messages arriving at the given instants, the jobs due by each
    arrival run first, and then the time passing up to [horizon]: the
    batches flushed, in order. *)
Definition album_session (env : message → save_env) (arrivals : list (Z * message))
    (horizon : Z) : M bot (list (list message)) :=
  do flushed <-
    for_accM
      (λ flushed (arrival : Z * message),
         do fired <- run_due_albums env arrival.1;
         do _ <- modify (set_now arrival.1);
         do _ <- handle_album_message arrival.2;
         ret (flushed ++ fired))
      [] arrivals;
  do fired <- run_due_albums env horizon;
  ret (flushed ++ fired).
(** What lines 1176-1180 of [cmd_reload] make of the poster once
    [reload_config] has put [cfg] in force. *)
Definition reloaded_poster (cfg : config) (p : TelegramPoster) : TelegramPoster :=
  let new := keys (get_enabled_channels cfg) in
  let p' := set_channels_list new p in
  if Z.of_nat (length new) <=? current_channel_index p
  then set_current_channel_index 0 p' else p'.

(** ** Operations on the rotation state *)

(** The operations that load, advance or reconfigure the rotation, and
    the edits of the configuration files between them. *)
Inductive rotation_op : Type :=
| OpLoadState
| OpNextChannel
| OpReload (uid : Z) (update : message)
| OpEditConfig (files : config_files).

Definition run_op (op : rotation_op) : M bot unit :=
  match op with
  | OpLoadState => _load_state
  | OpNextChannel => do _ <- get_next_channel; ret tt
  | OpReload uid update => cmd_reload uid update
  | OpEditConfig files => modify (set_config_on_disk files)
  end.

Definition run_ops (ops : list rotation_op) (b : bot) : bot :=
  foldl (λ b op, (run_op op b).2) b ops.

(** The index is a position of the list, or any natural number while
    the list is empty. *)
Definition index_valid (p : TelegramPoster) : Prop :=
  0 ≤ current_channel_index p
  ∧ (channels_list p ≠ [] → current_channel_index p < Z.of_nat (length (channels_list p))).

(** A state file that holds an object holds a natural number as its
    index: every index [_save_state] writes is one. *)
Definition record_valid (f : stored) : Prop :=
  ∀ r i, f = Json r → rec_current_channel_index r = Some i → 0 ≤ i.

Definition rotation_inv (b : bot) : Prop :=
  index_valid (poster b) ∧ record_valid (STATE_FILE b).

(** The state one successful call of [get_next_channel] leaves. *)
Definition after_next (b : bot) : bot :=
  let l := channels_list (poster b) in
  let i := current_channel_index (poster b) in
  let b1 :=
    set_poster (set_current_channel_index ((i + 1) mod Z.of_nat (length l)) (poster b)) b in
  set_STATE_FILE (Json (state_of b1)) b1.

(** The channel at cyclic distance [j] from position [i]. *)
Definition cyclic (l : list string) (i : Z) (j : nat) : option string :=
  l !! Z.to_nat ((i + Z.of_nat j) mod Z.of_nat (length l)).

(** The channels [k] calls return, from the list [l] and the index [i]. *)
Definition rotation (l : list string) (i : Z) (k : nat) : list string :=
  (λ j, default EmptyString (cyclic l i j)) <$> seq 0 k.

(** ** The hint table *)

(** The hints by what they tell the operator to look at. *)
Inductive hint_kind : Type :=
| ConfigurationHint
| PermissionHint
| CorruptFileHint
| SizeLimitHint
| RateLimitHint.

Definition kind_of_hint (h : hint) : hint_kind :=
  match h with
  | HintChatNotFound => ConfigurationHint
  | HintKicked => PermissionHint
  | HintForbidden => PermissionHint
  | HintBadFile => CorruptFileHint
  | HintTooLarge => SizeLimitHint
  | HintFlood => RateLimitHint
  end.

(** The first entry of an ordered table one of whose patterns occurs in
    the text. *)
Fixpoint first_match {H} (table : list (list string * H)) (text : string) : option H :=
  match table with
  | [] => None
  | (patterns, h) :: table' =>
      if existsb (λ p, Text.contains p text) patterns then Some h
      else first_match table' text
  end.

(** The table [_posting_tick] walks through. *)
Definition hint_table : list (list string * hint) :=
  [ (["chat not found"], HintChatNotFound);
    (["bot was kicked"; "bot is not a member"], HintKicked);
    (["forbidden"], HintForbidden);
    (["wrong file identifier"; "invalid"], HintBadFile);
    (["too large"; "file is too big"], HintTooLarge);
    (["flood"; "too many requests"], HintFlood) ]%string.

(** The table as the specification words it, with the shorter patterns
    "kicked" and "not a member", applied to the text of the transport
    error. *)
Definition specified_hint_table : list (list string * hint_kind) :=
  [ (["chat not found"], ConfigurationHint);
    (["kicked"; "not a member"], PermissionHint);
    (["forbidden"], PermissionHint);
    (["wrong file identifier"; "invalid"], CorruptFileHint);
    (["too large"; "file is too big"], SizeLimitHint);
    (["flood"; "too many requests"], RateLimitHint) ]%string.

Definition specified_hint (transport_error : string) : option hint_kind :=
  first_match specified_hint_table (Text.lower transport_error).

(** ** A small installation

    Two channels [A] and [B]; one picture waits for [A], none for [B]. *)

Module Demo.
Open Scope string_scope.

Definition channel (id title tag : string) : channel_cfg :=
  {| ch_channel_id := id;
     ch_name := Some title;
     ch_enabled := None;
     ch_categories :=
       [("art", {| cat_folder_name := Some "art"; cat_hashtags := [tag] |})] |}.

(** The configuration below once channel B is taken out of it. *)
Definition only_A : config :=
  {| channels := [("A", channel "@a" "Alpha" "#alpha")];
     supported_formats := None;
     settings_supported_formats := None;
     low_content_threshold := None;
     post_interval_minutes := None;
     first_post_hour := None;
     last_post_hour := None;
     admin_ids := [1001] |}.

Definition config : config :=
  {| channels := [("A", channel "@a" "Alpha" "#alpha"); ("B", channel "@b" "Beta" "#beta")];
     supported_formats := None;
     settings_supported_formats := None;
     low_content_threshold := None;
     post_interval_minutes := None;
     first_post_hour := None;
     last_post_hour := None;
     admin_ids := [1001] |}.

Definition tree : tree :=
  list_to_map
    [ (["2024-05"], KDir);
      (["2024-05"; "A"], KDir);
      (["2024-05"; "A"; "art"], KDir);
      (["2024-05"; "A"; "art"; "pic.jpg"], KFile 2048) ].

Definition blank : bot :=
  {| CONFIG := config;
     config_on_disk := ConfigJson config;
     content := tree;
     STATE_FILE := NoFile;
     now := 0;
     poster := {| channels_list := []; current_channel_index := 0; is_posting := false;
                  last_post_time := None; posting_job := None;
                  _low_content_warned := ∅; _last_send_error := None |};
     uploader := {| _album_buffer := ∅; _album_timers := ∅ |};
     job_queue := [];
     next_job_id := 0;
     outbox := [] |}.

(** The bot once the poster is constructed. *)
Definition bot : bot := (TelegramPoster_init blank).2.

(** A tick in which the Bot API accepts the post and the file can be
    deleted. *)
Definition fine : tick_env := {| pick := 0; api_error := None; unlink_refused := false |}.

Definition album_message (id : Z) (text : option string) : message :=
  {| message_id := id; media_group_id := Some "g1"; caption := text;
     photo := ["small"; "large"]; msg_document := None; video := None;
     animation := None |}.

Definition saving (m : message) : save_env :=
  {| tg_file_path := Ret (Some "photos/file_7.jpg"); stamp := "20240501120000";
     rid := 4242; download := Ret 512 |}.

End Demo.

(** ** Predicates on the content tree *)

(** No regular file sits where [save_file] makes the directory of a
    configured category, or the directory of its channel. *)
Definition targets_free (cfg : config) (t : tree) : Prop :=
  ∀ hashtag ci size,
    find_category_by_hashtag cfg hashtag = Some ci →
    t !! [ci_channel_key ci] ≠ Some (KFile size)
    ∧ t !! [ci_channel_key ci; ci_category ci] ≠ Some (KFile size).

(** [t'] holds everything [t] holds, and above that only directories
    and files three levels down. *)
Definition grown (t t' : tree) : Prop :=
  t ⊆ t'
  ∧ ∀ p size, t' !! p = Some (KFile size) →
              t !! p = Some (KFile size) ∨ length p = 3%nat.

(** * The loops of the code, named

    The bodies of the loops of [cleanup_empty_dirs], [_check_low_content]
    and [album_session], and two constants of [send_file] and
    [post_and_delete], as definitions of their own. *)

(** The bodies of the three nested loops of [cleanup_empty_dirs]; each
    takes and returns the count [removed]. *)
Definition cleanup_category (removed : Z) (cat_dir : path) : M bot Z :=
  do cat_is_dir <- fs_is_dir cat_dir;
  if negb cat_is_dir then ret removed
  else
    do entries <- fs_iterdir cat_dir;
    match entries with
    | [] => do _ <- fs_rmdir cat_dir; ret (removed + 1)
    | _ => ret removed
    end.

Definition cleanup_channel (removed : Z) (ch_dir : path) : M bot Z :=
  do ch_is_dir <- fs_is_dir ch_dir;
  if negb ch_is_dir then ret removed
  else
    do cat_dirs <- fs_iterdir ch_dir;
    do removed <- for_accM cleanup_category removed cat_dirs;
    do ch_is_dir <- fs_is_dir ch_dir;
    if negb ch_is_dir then ret removed
    else
      do entries <- fs_iterdir ch_dir;
      match entries with
      | [] => do _ <- fs_rmdir ch_dir; ret (removed + 1)
      | _ => ret removed
      end.

Definition cleanup_month (removed : Z) (month_dir : path) : M bot Z :=
  do month_is_dir <- fs_is_dir month_dir;
  if negb month_is_dir || negb (Text.is_month_name (Fs.name month_dir))
  then ret removed
  else
    do ch_dirs <- fs_iterdir month_dir;
    do removed <- for_accM cleanup_channel removed ch_dirs;
    do remaining <- fs_iterdir month_dir;
    if bool_decide (remaining = [])
       || bool_decide (Fs.name <$> remaining = ["package_info.json"%string])
    then
      do _ <- for_each fs_unlink remaining;
      do _ <- fs_rmdir month_dir;
      ret (removed + 1)
    else ret removed.

(** The call of the Bot API [send_file] makes for a file, by its
    extension. *)
Definition method_for (file_path : path) : send_method :=
  let ext := Text.lower (Text.suffix (Fs.name file_path)) in
  if decide (ext = ".gif"%string) then send_animation
  else if bool_decide (ext ∈ [".mp4"; ".mov"; ".avi"; ".mkv"; ".webm"]%string)
       then send_video
       else send_photo.

(** The details of a tick that found no file. *)
Definition no_content_details : string :=
  "Нет файлов поддерживаемых форматов в папках контента".

(** The body of the first loop of [_check_low_content]: a channel that
    is low and not yet warned about is reported to the admins and
    remembered. *)
Definition warn_if_new (threshold : Z) (item : string * Z) : M bot unit :=
  let (ch_key, count) := item in
  do warned <- self_get _low_content_warned;
  if bool_decide (ch_key ∈ warned) then ret tt
  else
    do cfg <- gets CONFIG;
    do ch_cfg <- lift (dict_item (channels cfg) ch_key);
    let ch_name := default ch_key (ch_name ch_cfg) in
    do _ <- modify (send (ToAdmins (admin_ids cfg)
                            (LowContentAlert ch_key ch_name count threshold)));
    self_set (λ p, set_low_content_warned ({[ch_key]} ∪ _low_content_warned p) p).

(** The body of the second loop: a warned channel that is no longer low
    is forgotten. *)
Definition forget_if_refilled (low : list (string * Z)) (ch_key : string) : M bot unit :=
  if bool_decide (ch_key ∈ keys low) then ret tt
  else self_set (λ p, set_low_content_warned (_low_content_warned p ∖ {[ch_key]}) p).

(** The body of the loop of [album_session]: the timers that are due
    fire, the clock moves to the time of the arrival, and the message is
    handed to [handle_album_message]. *)
Definition on_arrival (env : message → save_env) (flushed : list (list message))
    (arrival : Z * message) : M bot (list (list message)) :=
  do fired <- run_due_albums env arrival.1;
  do _ <- modify (set_now arrival.1);
  do _ <- handle_album_message arrival.2;
  ret (flushed ++ fired).

(** The same bot, alerted as soon as a channel has no file left. *)
Definition watchful : bot :=
  set_CONFIG
    {| channels := channels Demo.config;
       supported_formats := None;
       settings_supported_formats := None;
       low_content_threshold := Some 1;
       post_interval_minutes := None;
       first_post_hour := None;
       last_post_hour := None;
       admin_ids := [1001] |} Demo.bot.

(** ** Watching the low-content monitor *)

(** The number of files [get_content_stats] counts for a channel. *)
Definition channel_count (cfg : config) (t : tree) (ch : string) : option Z :=
  match get_content_stats cfg t with
  | Ret stats => cs_total <$> dict_get (stats_channels stats) ch
  | Exc _ => None
  end.

Definition is_alert_for (ch : string) (x : sent) : Prop :=
  match x with
  | ToAdmins _ (LowContentAlert k _ _ _) => k = ch
  | _ => False
  end.

Global Instance is_alert_for_dec ch x : Decision (is_alert_for ch x).
Proof. destruct x as [| ? [] |]; simpl; apply _. Defined.

(** The alerts about a channel among what was sent. *)
Definition alerts_for (ch : string) (out : list sent) : nat :=
  length (filter (is_alert_for ch) out).

(** The checks at which a count is below the threshold and the count
    before was not; [below] tells whether the channel is known to be
    below at the start. *)
Fixpoint falling_edges (threshold : Z) (below : bool) (counts : list Z) : nat :=
  match counts with
  | [] => 0
  | c :: counts' =>
      ((if (c <? threshold)%Z && negb below then 1 else 0)
       + falling_edges threshold (c <? threshold)%Z counts')%nat
  end.

(** One check of the monitor on each of the successive states of the
    content tree. *)
Definition monitor (trees : list tree) : M bot unit :=
  for_each (λ t, do _ <- modify (set_content t); _check_low_content) trees.

(** [t'] is what is left of [t] once directories, and files called
    [package_info.json] in a directory of the root, were removed: it
    holds nothing else, and every other file. *)
Definition shrunk (t t' : tree) : Prop :=
  t' ⊆ t
  ∧ ∀ p size, t !! p = Some (KFile size) →
              (∀ month, p ≠ [month; "package_info.json"%string]) →
              t' !! p = Some (KFile size).

(** No directory of the tree is called [package_info.json]. *)
Definition package_info_is_file (t : tree) : Prop :=
  ∀ month, t !! [month; "package_info.json"%string] ≠ Some KDir.

(** The state of a cleanup under way from [b0]: only the tree differs,
    it is what is left of the tree of [b0], and the directory [keep]
    is still there. *)
Definition cleaning (b0 : bot) (keep : option path) (b : bot) : Prop :=
  ∃ t', b = set_content t' b0
        ∧ shrunk (content b0) t'
        ∧ ∀ q, keep = Some q → t' !! q = Some KDir.


(** ** The assets of a channel *)

(** [p] is a file [get_random_image] can choose for the channel: an
    entry with a supported suffix of a category directory of the
    channel, in a month directory. *)
Definition asset_of (cfg : config) (t : tree) (ch : string) (p : path) : Prop :=
  ∃ month cat file,
    p = [month; ch; cat; file]
    ∧ Text.is_month_name month = true
    ∧ t !! [month] = Some KDir
    ∧ t !! [month; ch] = Some KDir
    ∧ t !! [month; ch; cat] = Some KDir
    ∧ is_Some (t !! p)
    ∧ Text.lower (Text.suffix file) ∈ get_supported_formats cfg.

(** No regular file has the name of the channel in a month directory. *)
Definition channel_dirs_ok (t : tree) (ch : string) : Prop :=
  ∀ month size, t !! [month; ch] ≠ Some (KFile size).

(** [b'] differs from [b] in nothing the rotation or the content is
    made of, and what [b] has sent is the beginning of what [b'] has. *)
Definition same_rotation (b b' : bot) : Prop :=
  content b' = content b
  ∧ STATE_FILE b' = STATE_FILE b
  ∧ CONFIG b' = CONFIG b
  ∧ channels_list (poster b') = channels_list (poster b)
  ∧ current_channel_index (poster b') = current_channel_index (poster b)
  ∧ last_post_time (poster b') = last_post_time (poster b)
  ∧ outbox b `prefix_of` outbox b'.

(** ** The states of the aggregator *)

Definition once_jobs (q : list job) : list job :=
  List.filter (λ j, bool_decide (job_interval j = None)) q.

(** Nothing is buffered for the group and no album job is pending. *)
Definition album_idle (g : string) (b : bot) : Prop :=
  _album_buffer (uploader b) !! g = None
  ∧ _album_timers (uploader b) !! g = None
  ∧ once_jobs (job_queue b) = [].

(** The messages [msgs] are buffered for the group, and the one pending
    album job is the job of the group, due at [due]. *)
Definition album_pending (g : string) (msgs : list message) (due : Z) (b : bot) : Prop :=
  _album_buffer (uploader b) !! g = Some msgs
  ∧ ∃ j, _album_timers (uploader b) !! g = Some (job_id j)
         ∧ once_jobs (job_queue b) = [j]
         ∧ job_data j = g
         ∧ job_due j = due.

(** Each arrival comes before the flush that the arrival before it
    scheduled: the gap between the two is less than the quiet period. *)
Fixpoint quiet_chain (due : Z) (arrivals : list (Z * message)) : Prop :=
  match arrivals with
  | [] => True
  | arrival :: rest => arrival.1 < due ∧ quiet_chain (arrival.1 + seconds 2) rest
  end.

(** When the flush is due after the arrivals. *)
Fixpoint last_due (due : Z) (arrivals : list (Z * message)) : Z :=
  match arrivals with
  | [] => due
  | arrival :: rest => last_due (arrival.1 + seconds 2) rest
  end.

(** A flush under way from [b0]: only the tree differs, and it has
    grown. *)
Definition saving_from (b0 b : bot) : Prop :=
  ∃ t', b = set_content t' b0 ∧ grown (content b0) t'.

(** [img] is what [get_random_image] makes of an asset of the channel:
    its path, the name of its category directory, and the first hashtag
    of the category configured with that folder name. *)
Definition image_of (cfg : config) (t : tree) (ch : string) (ch_cfg : channel_cfg)
    (img : image) : Prop :=
  asset_of cfg t ch (img_path img)
  ∧ ∃ month cat file,
      img_path img = [month; ch; cat; file]
      ∧ img_category img = cat
      ∧ img_hashtags img = folder_hashtags ch_cfg cat.

(** ** Counting the assets of a channel *)

Definition sum_Z (l : list Z) : Z := foldr Z.add 0 l.

(** The entries with a supported suffix of a category directory. *)
Definition category_count (fmt : list string) (t : tree) (cat_dir : path) : Z :=
  if Fs.is_dir t cat_dir
  then Z.of_nat (length (List.filter
                           (λ f, bool_decide (Text.lower (Text.suffix (Fs.name f)) ∈ fmt))
                           ((λ n, cat_dir ++ [n]) <$> Fs.listdir t cat_dir)))
  else 0.

(** Those of all the category directories of a channel in one month
    directory. *)
Definition month_count (fmt : list string) (t : tree) (ch : string) (month : path) : Z :=
  if Fs.exists_ t (month ++ [ch])
  then sum_Z (category_count fmt t
                <$> ((λ n, (month ++ [ch]) ++ [n]) <$> Fs.listdir t (month ++ [ch])))
  else 0.

(** Those of a channel in all the month directories. *)
Definition asset_count (cfg : config) (t : tree) (ch : string) : Z :=
  sum_Z (month_count (get_supported_formats cfg) t ch
           <$> List.filter (λ d, Fs.is_dir t d && Text.is_month_name (Fs.name d))
                 ((λ n, [n]) <$> Fs.listdir t [])).

(** ** What a tick leaves alone *)

(** A post to a channel, among what the bot sends. *)
Definition is_post (x : sent) : bool :=
  match x with
  | ToChannel _ _ _ _ => true
  | _ => false
  end.

(** From [b] to [b'] the configuration, the clock, the uploader, the
    job queue, the channel list and the posting flag and job are what
    they were; the content tree has lost entries at most; and what was
    sent in between has [posts] as its posts to channels. *)
Definition tick_frame (posts : list sent) (b b' : bot) : Prop :=
  CONFIG b' = CONFIG b
  ∧ config_on_disk b' = config_on_disk b
  ∧ now b' = now b
  ∧ uploader b' = uploader b
  ∧ job_queue b' = job_queue b
  ∧ next_job_id b' = next_job_id b
  ∧ channels_list (poster b') = channels_list (poster b)
  ∧ is_posting (poster b') = is_posting (poster b)
  ∧ posting_job (poster b') = posting_job (poster b)
  ∧ content b' ⊆ content b
  ∧ ∃ added, outbox b' = outbox b ++ added ∧ List.filter is_post added = posts.

(** A computation that sends no post and keeps the frame, whether it
    returns or raises. *)
Definition quiet {A} (m : M bot A) : Prop := ∀ s, tick_frame [] s (m s).2.

(** No post, or one post to the chat. *)
Definition at_most_one_post (chat : string) (posts : list sent) : Prop :=
  posts = [] ∨ ∃ method file text, posts = [ToChannel method chat file text].

(** ** Where uploads go *)

(** Every entry below the first level lies in a directory of the tree. *)
Definition parents_exist (t : tree) : Prop :=
  ∀ d n, d ≠ [] → is_Some (t !! (d ++ [n])) → t !! d = Some KDir.

(** [t'] holds everything [t] holds, and above that only directories
    one or two levels down and regular files three levels down. *)
Definition uploaded (t t' : tree) : Prop :=
  t ⊆ t'
  ∧ ∀ p k, t' !! p = Some k →
           t !! p = Some k
           ∨ (k = KDir ∧ (length p ≤ 2)%nat)
           ∨ (∃ size, k = KFile size ∧ length p = 3%nat).

(** ** The files of an album *)

(** The message carries a file [_process_album] saves. *)
Definition has_file (m : message) : bool :=
  match _extract_file_info m with
  | Some (String _ _, _) => true
  | _ => false
  end.

(** ** Merging configurations: [_deep_update]

    A JSON value; an object is an insertion-ordered dict. *)
Inductive json : Type :=
| JNull
| JBool (b : bool)
| JNum (z : Z)
| JStr (s : string)
| JArr (l : list json)
| JObj (d : list (string * json)).

(** What [base[key]] becomes when the update holds [value] for the
    key: with a dict on both sides the dict of [base] is updated in
    turn, by the loop of [_deep_update]; otherwise [value] is
    stored. *)
Fixpoint merge_value (old : option json) (value : json) {struct value} : json :=
  match value with
  | JObj update =>
      match old with
      | Some (JObj base) =>
          JObj ((fix loop (base update : list (string * json)) {struct update} :=
                   match update with
                   | [] => base
                   | (key, value) :: update' =>
                       loop (dict_set base key (merge_value (dict_get base key) value))
                            update'
                   end) base update)
      | _ => value
      end
  | _ => value
  end.

(** [_deep_update(base, update)]: the [for] loop over the items of
    [update], and the dict it returns. *)
Definition _deep_update (base update : list (string * json)) : list (string * json) :=
  foldl (λ base item, dict_set base item.1 (merge_value (dict_get base item.1) item.2))
        base update.

(** ** [escape_md] *)

(** [text.replace(ch, r)] for a one-character [ch]. *)
Fixpoint replace_char (ch : ascii) (r : string) (text : string) : string :=
  match text with
  | EmptyString => EmptyString
  | String a text' =>
      if decide (a = ch) then (r +:+ replace_char ch r text')%string
      else String a (replace_char ch r text')
  end.

Definition md_specials : list ascii := ["_"; "*"; "["; "`"]%char.

(** [for ch in r"_*[`": text = text.replace(ch, f"\\{ch}")] *)
Definition escape_md (text : string) : string :=
  foldl (λ text ch, replace_char ch (String "\"%char (String ch EmptyString)) text)
        text md_specials.

(** The text with a backslash before each of the four characters, made
    in one pass. *)
Fixpoint escaped (text : string) : string :=
  match text with
  | EmptyString => EmptyString
  | String a text' =>
      if bool_decide (a ∈ md_specials) then String "\"%char (String a (escaped text'))
      else String a (escaped text')
  end.

(** ** The channel list and the configuration *)

(** The channel list of the poster is the list of the enabled channels
    of the configuration in force. *)
Definition in_step (b : bot) : Prop :=
  channels_list (poster b) = keys (get_enabled_channels (CONFIG b)).

(** ** The statistics *)

(** The counts of a channel: its total is the sum of its category
    counts, and no count is negative. *)
Definition counts_add_up (cs : channel_stats) : Prop :=
  cs_total cs = sum_Z (cs_categories cs).*2
  ∧ Forall (λ c, 0 ≤ c) (cs_categories cs).*2.

(** ** What a cleanup leaves *)

(** The number of directories of the tree. *)
Definition dir_count (t : tree) : Z :=
  Z.of_nat (size (filter (λ pk : path * kind, pk.2 = KDir) t)).

(** If [d] is a directory of the tree, it has an entry. *)
Definition not_empty_dir (t : tree) (d : path) : Prop :=
  t !! d = Some KDir → ∃ n, is_Some (t !! (d ++ [n])).

(** A channel directory that is left has an entry, and so has each of
    its category directories. *)
Definition tidy_channel (t : tree) (ch_dir : path) : Prop :=
  not_empty_dir t ch_dir
  ∧ (t !! ch_dir = Some KDir → ∀ cat, not_empty_dir t (ch_dir ++ [cat])).

(** A month directory that is left has an entry other than
    [package_info.json], and its channel directories are tidy. *)
Definition tidy_month (t : tree) (month : string) : Prop :=
  Text.is_month_name month = true →
  t !! [month] = Some KDir →
  (∃ n, n ≠ "package_info.json"%string ∧ is_Some (t !! [month; n]))
  ∧ ∀ ch, tidy_channel t [month; ch].

(** From [b] with [removed] directories counted to [b'] with
    [removed'], only the tree has changed, it has only lost entries [p]
    with [D p], and the count has grown by the number of directories
    lost. *)
Definition pruning (D : path → Prop) (b : bot) (removed : Z) (b' : bot) (removed' : Z)
  : Prop :=
  ∃ t', b' = set_content t' b
        ∧ t' ⊆ content b
        ∧ (∀ p, ¬ D p → t' !! p = content b !! p)
        ∧ dir_count (content b) + removed = dir_count t' + removed'.

(** * Properties *)

(** ** Text *)

Example lower_ex : Text.lower "Chat NOT found!" = "chat not found!"%string.
Proof. reflexivity. Qed.
Example suffix_ex :
  (Text.stem "a.tar.gz", Text.suffix "a.tar.gz", Text.suffix ".bashrc", Text.suffix "x.")
  = ("a.tar", ".gz", EmptyString, EmptyString)%string.
Proof. reflexivity. Qed.
Example month_ex :
  (Text.is_month_name "2024-05", Text.is_month_name "2024-05-old", Text.is_month_name "misc")
  = (true, true, false).
Proof. reflexivity. Qed.


Lemma string_app_cons (c : ascii) (s1 s2 : string) :
  String c s1 +:+ s2 = String c (s1 +:+ s2).
Proof. reflexivity. Qed.

Lemma string_app_assoc (s1 s2 s3 : string) : (s1 +:+ s2) +:+ s3 = s1 +:+ (s2 +:+ s3).
Proof. induction s1 as [|c s1 IH]; [done|]. by rewrite !string_app_cons, IH. Qed.

Lemma string_app_length (s1 s2 : string) :
  String.length (s1 +:+ s2) = (String.length s1 + String.length s2)%nat.
Proof. induction s1 as [|c s1 IH]; [done|]. rewrite string_app_cons. simpl. by rewrite IH. Qed.

Lemma string_app_empty_r (s : string) : s +:+ EmptyString = s.
Proof. induction s as [|c s IH]; [done|]. by rewrite string_app_cons, IH. Qed.

(** A common ending can be cancelled. *)
Lemma string_app_inv_tail (s1 s2 s : string) : s1 +:+ s = s2 +:+ s → s1 = s2.
Proof.
  revert s2. induction s1 as [|c1 s1 IH]; intros [|c2 s2] H; try done.
  - apply (f_equal String.length) in H. rewrite !string_app_length in H. simpl in H. lia.
  - apply (f_equal String.length) in H. rewrite !string_app_length in H. simpl in H. lia.
  - rewrite !string_app_cons in H. injection H as -> H. f_equal. by apply IH.
Qed.

(** ** Rotation *)



Lemma get_next_channel_in_range b ch :
  0 ≤ current_channel_index (poster b) →
  channels_list (poster b) !! Z.to_nat (current_channel_index (poster b)) = Some ch →
  get_next_channel b = (Ret (Some ch), after_next b).
Proof.
  intros Hi Hch. unfold get_next_channel, bind, self_get, gets. simpl.
  destruct (channels_list (poster b)) as [|c l] eqn:Hl; [done|].
  unfold lift, getitem.
  destruct (Z.leb_spec 0 (current_channel_index (poster b))); [|lia].
  rewrite Hch. unfold after_next. rewrite Hl. reflexivity.
Qed.


Lemma get_next_channel_times_cyclic k : ∀ b,
  channels_list (poster b) ≠ [] →
  0 ≤ current_channel_index (poster b) < Z.of_nat (length (channels_list (poster b))) →
  (get_next_channel_times k b).1
  = Ret (cyclic (channels_list (poster b)) (current_channel_index (poster b)) <$> seq 0 k).
Proof.
  induction k as [|k IH]; intros b Hne Hi; [done|].
  set (l := channels_list (poster b)) in *.
  set (i := current_channel_index (poster b)) in *.
  assert (HN : 0 < Z.of_nat (length l)) by lia.
  destruct (lookup_lt_is_Some_2 l (Z.to_nat i)) as [ch Hch]; [lia|].
  cbn [get_next_channel_times]. unfold bind at 1.
  rewrite (get_next_channel_in_range b ch) by (done || lia).
  unfold bind at 1.
  specialize (IH (after_next b)).
  assert (Hl' : channels_list (poster (after_next b)) = l) by done.
  assert (Hi' : current_channel_index (poster (after_next b)) = (i + 1) mod Z.of_nat (length l))
    by done.
  rewrite Hl', Hi' in IH.
  destruct (get_next_channel_times k (after_next b)) as [r b'].
  simpl in IH. rewrite IH.
  - simpl. f_equal. f_equal.
    + unfold cyclic. fold l. rewrite Z.add_0_r, Z.mod_small by lia. done.
    + rewrite <- fmap_S_seq, <- list_fmap_compose. apply list_fmap_ext.
      intros _ j _. unfold cyclic, compose. fold l. f_equal. f_equal.
      rewrite Nat2Z.inj_succ, Zplus_mod_idemp_l. f_equal. lia.
  - done.
  - apply Z.mod_pos_bound. lia.
Qed.

Lemma residue_step (n i p k : Z) :
  0 < n → 0 ≤ p < n →
  (k + 1 + n - 1 - (p - i) mod n) / n
  = (k + n - 1 - (p - i) mod n) / n + (if decide ((i + k) mod n = p) then 1 else 0).
Proof.
  intros Hn Hp.
  pose proof (Z.mod_pos_bound (p - i) n Hn) as Hd.
  pose proof (Z.div_mod (p - i) n ltac:(lia)) as Hpi.
  set (d := (p - i) mod n) in *. set (q1 := (p - i) / n) in *.
  destruct (decide ((i + k) mod n = p)) as [Heq|Hne].
  - pose proof (Z.div_mod (i + k) n ltac:(lia)) as Hik. rewrite Heq in Hik.
    set (q2 := (i + k) / n) in *.
    assert (Hk : k = n * (q1 + q2) + d) by lia.
    rewrite <- (Z.div_unique (k + 1 + n - 1 - d) n (q1 + q2 + 1) 0) by lia.
    rewrite <- (Z.div_unique (k + n - 1 - d) n (q1 + q2) (n - 1)) by lia. lia.
  - pose proof (Z.div_mod (k + n - 1 - d) n ltac:(lia)) as Hm.
    pose proof (Z.mod_pos_bound (k + n - 1 - d) n Hn) as Hr.
    set (q := (k + n - 1 - d) / n) in *. set (r := (k + n - 1 - d) mod n) in *.
    assert (r ≠ n - 1).
    { intros Hrn. apply Hne.
      symmetry. apply (Z.mod_unique _ _ (q - q1)); [lia|]. lia. }
    rewrite <- (Z.div_unique (k + 1 + n - 1 - d) n q (r + 1)) by lia. lia.
Qed.


Lemma cyclic_is_Some l i j :
  l ≠ [] → is_Some (cyclic l i j).
Proof.
  intros Hne. apply lookup_lt_is_Some_2.
  assert (0 < Z.of_nat (length l)) by (destruct l; simpl; [done|lia]).
  pose proof (Z.mod_pos_bound (i + Z.of_nat j) (Z.of_nat (length l))). lia.
Qed.

Lemma rotation_count l i c p k :
  NoDup l → l !! p = Some c →
  Z.of_nat (length (filter (λ x, x = c) (rotation l i k)))
  = (Z.of_nat k + Z.of_nat (length l) - 1 - (Z.of_nat p - i) mod Z.of_nat (length l))
    / Z.of_nat (length l).
Proof.
  intros Hnd Hp.
  assert (Hlt : (p < length l)%nat) by (by eapply lookup_lt_Some).
  assert (Hne : l ≠ []) by (intros ->; simpl in Hlt; lia).
  set (n := Z.of_nat (length l)) in *.
  assert (Hn : 0 < n) by lia.
  pose proof (Z.mod_pos_bound (Z.of_nat p - i) n Hn) as Hd.
  induction k as [|k IH].
  - simpl. symmetry. apply Z.div_small. lia.
  - unfold rotation in *. rewrite seq_S, fmap_app, filter_app, length_app, Nat2Z.inj_add, IH.
    rewrite Nat2Z.inj_succ.
    replace (Z.succ (Z.of_nat k) + n - 1) with (Z.of_nat k + 1 + n - 1) by lia.
    rewrite (residue_step n i (Z.of_nat p) (Z.of_nat k)) by lia.
    f_equal. simpl. rewrite filter_cons, filter_nil.
    destruct (cyclic_is_Some l i k Hne) as [x Hx]. rewrite Hx. simpl.
    unfold cyclic in Hx. fold n in Hx.
    pose proof (Z.mod_pos_bound (i + Z.of_nat k) n Hn) as Hb.
    destruct (decide (x = c)) as [->|Hxc];
      destruct (decide ((i + Z.of_nat k) mod n = Z.of_nat p)) as [He|He]; try done.
    + exfalso. apply He.
      pose proof (NoDup_lookup l _ _ _ Hnd Hx Hp). lia.
    + exfalso. apply Hxc. rewrite He, Nat2Z.id in Hx. congruence.
Qed.

Lemma near_quotient (k n e : Z) :
  0 < n → 0 ≤ k → 0 ≤ e < n →
  (k + e) / n = k / n ∨ (k + e) / n = k / n + 1.
Proof.
  intros Hn Hk He.
  pose proof (Z.div_mod k n ltac:(lia)) as Hdm.
  pose proof (Z.mod_pos_bound k n Hn) as Hr.
  destruct (decide (k mod n + e < n)).
  - left. symmetry. apply (Z.div_unique _ _ _ (k mod n + e)); lia.
  - right. symmetry. apply (Z.div_unique _ _ _ (k mod n + e - n)); lia.
Qed.

(** C1.  From a list of [n] distinct channels and a valid index [i],
    [k] consecutive calls of [get_next_channel] return the channels in
    cyclic list order from position [i], and each channel [k / n] or
    [k / n + 1] times. *)
Theorem round_robin_fair (b : bot) (k : nat) :
  let l := channels_list (poster b) in
  let i := current_channel_index (poster b) in
  let n := Z.of_nat (length l) in
  NoDup l → 0 ≤ i < n →
  ∃ outs : list string,
    (get_next_channel_times k b).1 = Ret (Some <$> outs)
    ∧ length outs = k
    ∧ (∀ j, (j < k)%nat → outs !! j = l !! Z.to_nat ((i + Z.of_nat j) mod n))
    ∧ ∀ c, c ∈ l →
        let times := Z.of_nat (length (filter (λ x, x = c) outs)) in
        times = Z.of_nat k / n ∨ times = Z.of_nat k / n + 1.
Proof.
  intros l i n Hnd Hi.
  assert (Hne : l ≠ []) by (intros E; subst n; rewrite E in Hi; simpl in Hi; lia).
  exists (rotation l i k). repeat split.
  - rewrite get_next_channel_times_cyclic by done. f_equal.
    unfold rotation. rewrite <- list_fmap_compose. apply list_fmap_ext.
    intros _ j _. simpl. fold l i.
    by destruct (cyclic_is_Some l i j Hne) as [x ->].
  - unfold rotation. by rewrite length_fmap, length_seq.
  - intros j Hj. unfold rotation. rewrite list_lookup_fmap, lookup_seq_lt by done.
    simpl. change (l !! Z.to_nat ((i + Z.of_nat j) mod n)) with (cyclic l i j).
    by destruct (cyclic_is_Some l i j Hne) as [x ->].
  - intros c Hc times. subst times.
    apply list_elem_of_lookup in Hc as [p Hp].
    rewrite (rotation_count l i c p k Hnd Hp). fold n.
    pose proof (Z.mod_pos_bound (Z.of_nat p - i) n ltac:(lia)).
    replace (Z.of_nat k + n - 1 - (Z.of_nat p - i) mod n)
      with (Z.of_nat k + (n - 1 - (Z.of_nat p - i) mod n)) by lia.
    apply near_quotient; lia.
Qed.

Lemma _load_state_inv b : rotation_inv b → rotation_inv (_load_state b).2.
Proof.
  intros [[Hi Hlt] Hrec]. unfold _load_state, bind, gets. simpl.
  destruct (STATE_FILE b) as [| |r] eqn:Hf; simpl.
  - by rewrite <- Hf in Hrec.
  - split; [done|]. by rewrite Hf.
  - unfold try_except, bind, self_set, self_get, modify, gets, ret, raise. simpl.
    pose proof (Hrec r) as Hr.
    assert (Hv : 0 ≤ default 0 (rec_current_channel_index r)).
    { destruct (rec_current_channel_index r) as [v|] eqn:E; simpl; [by eapply Hr|lia]. }
    set (v := default 0 (rec_current_channel_index r)) in *.
    destruct (Z.leb_spec (Z.of_nat (length (channels_list (poster b)))) v) as [Hle|Hgt];
      destruct (rec_last_post_time r); simpl;
      unfold rotation_inv, index_valid; simpl; rewrite Hf;
      (split; [split; [lia|]|done]); intros Hne; try lia;
      destruct (channels_list (poster b)); simpl in *; (done || lia).
Qed.

Lemma get_next_channel_inv b : rotation_inv b → rotation_inv (get_next_channel b).2.
Proof.
  intros [[Hi Hlt] Hrec].
  destruct (channels_list (poster b)) as [|c l] eqn:Hl.
  - unfold get_next_channel, bind, self_get, gets. simpl. rewrite Hl. simpl.
    split; [split|]; try done.
  - specialize (Hlt ltac:(done)).
    destruct (lookup_lt_is_Some_2 (channels_list (poster b))
                (Z.to_nat (current_channel_index (poster b)))) as [ch Hch].
    { rewrite Hl in *. lia. }
    rewrite (get_next_channel_in_range b ch) by done.
    unfold rotation_inv, index_valid, after_next, record_valid. simpl.
    pose proof (Z.mod_pos_bound (current_channel_index (poster b) + 1)
                  (Z.of_nat (length (channels_list (poster b))))) as Hm.
    rewrite Hl in *. simpl in *.
    split; [split; [lia|intros _; lia]|].
    intros r i [= <-]. simpl. intros [= <-]. lia.
Qed.

Lemma cmd_reload_denied uid update b :
  uid ∉ admin_ids (CONFIG b) →
  cmd_reload uid update b = (Ret tt, send (ReplyTo update ReplyDenied) b).
Proof.
  intros Hout. unfold cmd_reload, admin_only, bind at 1, gets at 1. cbn beta iota.
  by rewrite bool_decide_eq_false_2.
Qed.

(** An administrator reloads files that hold a configuration. *)
Lemma cmd_reload_loaded uid update b cfg :
  uid ∈ admin_ids (CONFIG b) →
  config_on_disk b = ConfigJson cfg →
  let new := keys (get_enabled_channels cfg) in
  let old := channels_list (poster b) in
  let p := set_channels_list new (poster b) in
  cmd_reload uid update b
  = (Ret tt,
     send (ReplyTo update
             (ReplyReloaded (length new) (length (admin_ids cfg))
                (list_to_set new ∖ list_to_set old) (list_to_set old ∖ list_to_set new)))
       (set_poster
          (if Z.of_nat (length new) <=? current_channel_index (poster b)
           then set_current_channel_index 0 p else p)
          (set_CONFIG cfg b))).
Proof.
  intros Hin Hfiles new old p. unfold cmd_reload, admin_only, bind at 1, gets at 1.
  cbn beta iota. rewrite bool_decide_eq_true_2 by done.
  cbv beta iota zeta delta
    [try_except bind reload_config load_config gets self_get self_set modify ret fst snd].
  cbn -[Z.leb Z.of_nat length list_to_set difference]. rewrite Hfiles.
  cbn -[Z.leb Z.of_nat length list_to_set difference]. fold new.
  by destruct (Z.of_nat (length new) <=? current_channel_index (poster b)).
Qed.

(** An administrator reloads a file that does not parse: the handler
    answers with the error, [CONFIG] is left empty. *)
Lemma cmd_reload_malformed uid update b msg :
  uid ∈ admin_ids (CONFIG b) →
  config_on_disk b = ConfigMalformed msg →
  cmd_reload uid update b
  = (Ret tt,
     send (ReplyTo update (ReplyReloadFailed (JSONDecodeError msg)))
       (set_CONFIG (clear_CONFIG (CONFIG b)) b)).
Proof.
  intros Hin Hfiles. unfold cmd_reload, admin_only, bind at 1, gets at 1.
  cbn beta iota. rewrite bool_decide_eq_true_2 by done.
  cbv beta iota zeta delta
    [try_except bind reload_config load_config gets self_get self_set modify ret raise
     fst snd].
  cbn. rewrite Hfiles. done.
Qed.

(** An administrator reloads when [config.json] is gone: [sys.exit]
    passes the handler, [CONFIG] is left empty. *)
Lemma cmd_reload_missing uid update b :
  uid ∈ admin_ids (CONFIG b) →
  config_on_disk b = ConfigMissing →
  cmd_reload uid update b
  = (Exc (SystemExit 1), set_CONFIG (clear_CONFIG (CONFIG b)) b).
Proof.
  intros Hin Hfiles. unfold cmd_reload, admin_only, bind at 1, gets at 1.
  cbn beta iota. rewrite bool_decide_eq_true_2 by done.
  cbv beta iota zeta delta
    [try_except bind reload_config load_config gets self_get self_set modify ret raise
     fst snd].
  cbn. rewrite Hfiles. done.
Qed.

Lemma cmd_reload_poster uid update b :
  poster (cmd_reload uid update b).2
  = match config_on_disk b with
    | ConfigJson cfg =>
        if bool_decide (uid ∈ admin_ids (CONFIG b))
        then reloaded_poster cfg (poster b) else poster b
    | _ => poster b
    end.
Proof.
  destruct (decide (uid ∈ admin_ids (CONFIG b))) as [Hin|Hout].
  - rewrite bool_decide_eq_true_2 by done.
    destruct (config_on_disk b) as [|msg|cfg] eqn:Hfiles.
    + by rewrite cmd_reload_missing.
    + by rewrite (cmd_reload_malformed _ _ _ msg).
    + by rewrite (cmd_reload_loaded _ _ _ cfg).
  - rewrite bool_decide_eq_false_2, cmd_reload_denied by done.
    by destruct (config_on_disk b).
Qed.

Lemma cmd_reload_state_file uid update b :
  STATE_FILE (cmd_reload uid update b).2 = STATE_FILE b.
Proof.
  destruct (decide (uid ∈ admin_ids (CONFIG b))) as [Hin|Hout].
  - destruct (config_on_disk b) as [|msg|cfg] eqn:Hfiles.
    + by rewrite cmd_reload_missing.
    + by rewrite (cmd_reload_malformed _ _ _ msg).
    + by rewrite (cmd_reload_loaded _ _ _ cfg).
  - by rewrite cmd_reload_denied.
Qed.

Lemma reloaded_poster_valid cfg p : 0 ≤ current_channel_index p → index_valid (reloaded_poster cfg p).
Proof.
  intros Hi. unfold reloaded_poster, index_valid.
  destruct (Z.leb_spec (Z.of_nat (length (keys (get_enabled_channels cfg))))
              (current_channel_index p)); simpl; (split; [lia|]).
  - intros Hne. destruct (keys _); simpl; [done|lia].
  - intros _. lia.
Qed.

Lemma cmd_reload_inv uid update b : rotation_inv b → rotation_inv (cmd_reload uid update b).2.
Proof.
  intros [[Hi Hlt] Hrec]. unfold rotation_inv.
  rewrite cmd_reload_poster, cmd_reload_state_file. split; [|done].
  destruct (config_on_disk b) as [|msg|cfg]; [done|done|].
  destruct (bool_decide (uid ∈ admin_ids (CONFIG b))); [|done].
  by apply reloaded_poster_valid.
Qed.

Lemma run_op_inv op b : rotation_inv b → rotation_inv (run_op op b).2.
Proof.
  destruct op as [| |uid update|files]; simpl.
  - apply _load_state_inv.
  - intros H. apply get_next_channel_inv in H.
    unfold bind, ret. by destruct (get_next_channel b) as [[?|?] ?].
  - apply cmd_reload_inv.
  - done.
Qed.

Lemma run_ops_inv ops : ∀ b, rotation_inv b → rotation_inv (run_ops ops b).
Proof.
  induction ops as [|op ops IH]; intros b Hb; [done|].
  apply IH. by apply run_op_inv.
Qed.

Lemma TelegramPoster_init_inv b :
  record_valid (STATE_FILE b) → rotation_inv (TelegramPoster_init b).2.
Proof.
  intros Hrec. unfold TelegramPoster_init, bind, gets, modify. simpl.
  apply _load_state_inv. split; [|done]. split; simpl; [lia|].
  intros Hne. destruct (keys _); simpl; [done|lia].
Qed.

(** C8, as the code has it.  The state file holds no object, or an
    object whose index is missing or a natural number.  Then, from the
    construction of the poster on, whatever sequence of state loads,
    channel selections, reloads and edits of the configuration files
    runs, the index is a position of the channel list when that list
    is not empty.  A reload by an administrator of files that hold a
    configuration makes the channel list the enabled channels of that
    configuration, sets the index to 0 when it is no position of the
    new list and keeps it otherwise; any other reload (by someone
    else, of a file that does not parse, or with [config.json] gone)
    leaves the channel list and the index as they are. *)
Theorem rotation_index_valid (b : bot) (ops : list rotation_op) :
  record_valid (STATE_FILE b) →
  let b' := run_ops ops (TelegramPoster_init b).2 in
  (channels_list (poster b') ≠ [] →
   0 ≤ current_channel_index (poster b') < Z.of_nat (length (channels_list (poster b'))))
  ∧ (∀ uid update cfg,
       uid ∈ admin_ids (CONFIG b') →
       config_on_disk b' = ConfigJson cfg →
       let b'' := (cmd_reload uid update b').2 in
       let new := keys (get_enabled_channels cfg) in
       channels_list (poster b'') = new
       ∧ current_channel_index (poster b'')
         = (if Z.of_nat (length new) <=? current_channel_index (poster b')
            then 0 else current_channel_index (poster b'))
       ∧ (new ≠ [] → 0 ≤ current_channel_index (poster b'') < Z.of_nat (length new)))
  ∧ (∀ uid update,
       uid ∉ admin_ids (CONFIG b') ∨ (∀ cfg, config_on_disk b' ≠ ConfigJson cfg) →
       poster (cmd_reload uid update b').2 = poster b').
Proof.
  intros Hrec b'.
  pose proof (run_ops_inv ops _ (TelegramPoster_init_inv b Hrec)) as Hinv.
  fold b' in Hinv. destruct (Hinv) as [[Hi Hlt] _].
  split; [intros Hne; split; [done|by apply Hlt]|]. split.
  - intros uid update cfg Hadm Hfiles b'' new.
    pose proof (cmd_reload_inv uid update b' Hinv) as [[Hi' Hlt'] _]. fold b'' in Hi', Hlt'.
    assert (Hp : poster b'' = reloaded_poster cfg (poster b')).
    { subst b''. by rewrite cmd_reload_poster, Hfiles, bool_decide_eq_true_2. }
    assert (Hl : channels_list (poster b'') = new).
    { rewrite Hp. unfold reloaded_poster. by destruct (_ <=? _). }
    split; [done|]. split.
    + rewrite Hp. unfold reloaded_poster. fold new. by destruct (_ <=? _).
    + intros Hne. rewrite <- Hl. split; [done|]. apply Hlt'. by rewrite Hl.
  - intros uid update Hcase. rewrite cmd_reload_poster.
    destruct (config_on_disk b') as [| |cfg] eqn:Hfiles; [done|done|].
    destruct Hcase as [Hout|Hno]; [by rewrite bool_decide_eq_false_2|].
    by destruct (Hno cfg).
Qed.

Lemma round_robin_fair_witness :
  ∃ outs : list string,
    (get_next_channel_times 5 Demo.bot).1 = Ret (Some <$> outs)
    ∧ length outs = 5%nat
    ∧ outs !! 3%nat = Some "B"%string
    ∧ (Z.of_nat (length (filter (λ x, x = "A"%string) outs)) = 5 / 2
       ∨ Z.of_nat (length (filter (λ x, x = "A"%string) outs)) = 5 / 2 + 1).
Proof.
  destruct (round_robin_fair Demo.bot 5) as (outs & Hrun & Hlen & Hord & Hcount).
  - apply (bool_decide_unpack _). by vm_compute.
  - by vm_compute.
  - exists outs. split; [exact Hrun|]. split; [exact Hlen|]. split.
    + rewrite (Hord 3%nat) by lia. reflexivity.
    + apply Hcount. apply (bool_decide_unpack _). by vm_compute.
Defined.

Lemma rotation_index_valid_witness :
  let b' := run_ops [OpNextChannel; OpLoadState; OpEditConfig (ConfigJson Demo.only_A)]
              (TelegramPoster_init Demo.blank).2 in
  let b'' := (cmd_reload 1001 (Demo.album_message 1 None) b').2 in
  current_channel_index (poster b') = 1
  ∧ channels_list (poster b'') = ["A"%string]
  ∧ current_channel_index (poster b'') = 0.
Proof.
  intros b' b''.
  destruct (rotation_index_valid Demo.blank
              [OpNextChannel; OpLoadState; OpEditConfig (ConfigJson Demo.only_A)])
    as (_ & Hreload & _).
  - intros r i Hfile. discriminate Hfile.
  - destruct (Hreload 1001 (Demo.album_message 1 None) Demo.only_A)
      as (Hl & Hi & _).
    + apply (bool_decide_unpack _). by vm_compute.
    + reflexivity.
    + split; [by vm_compute|]. split; [exact Hl|]. subst b' b''. rewrite Hi. by vm_compute.
Defined.

(** C8, as the claim has it, fails: the state load at startup does not
    make the index a position of the list.  A state file that holds
    the index -1 leaves the poster constructed from it, over two
    channels, with the index -1. *)
Lemma startup_load_keeps_negative_index :
  let b := set_STATE_FILE
             (Json {| rec_current_channel_index := Some (-1);
                      rec_is_posting := false;
                      rec_last_update := 0;
                      rec_last_post_time := TsNull |}) Demo.blank in
  let b' := (TelegramPoster_init b).2 in
  channels_list (poster b') = ["A"; "B"]%string
  ∧ current_channel_index (poster b') = -1
  ∧ ¬ (0 ≤ current_channel_index (poster b')
         < Z.of_nat (length (channels_list (poster b')))).
Proof.
  intros b b'. split; [reflexivity|]. split; [reflexivity|].
  change (current_channel_index (poster b')) with (-1). lia.
Qed.

(** ** The first tick after a start *)

Lemma first_delay_mid_cycle interval_min T d :
  0 < d < seconds (interval_min * 60) →
  first_delay interval_min (Some T) (T + d) = seconds (interval_min * 60) - d.
Proof.
  intros Hd. unfold first_delay. replace (T + d - T) with d by lia.
  destruct (Z.ltb_spec 0 (seconds (interval_min * 60) - d)); [done|lia].
Qed.

Lemma first_delay_overdue interval_min T d :
  seconds (interval_min * 60) ≤ d →
  first_delay interval_min (Some T) (T + d) = seconds 10.
Proof.
  intros Hd. unfold first_delay. replace (T + d - T) with d by lia.
  destruct (Z.ltb_spec 0 (seconds (interval_min * 60) - d)); [lia|done].
Qed.

(** The state [start_posting] leaves when the poster was idle. *)
Lemma start_posting_idle b :
  is_posting (poster b) = false →
  ∃ j b',
    start_posting b = (Ret true, b')
    ∧ job_queue b' = job_queue b ++ [j]
    ∧ posting_job (poster b') = Some (job_id j)
    ∧ is_posting (poster b') = true
    ∧ job_interval j = Some (minutes (default 30 (post_interval_minutes (CONFIG b))))
    ∧ job_due j = now b + first_delay (default 30 (post_interval_minutes (CONFIG b)))
                            (last_post_time (poster b)) (now b).
Proof.
  intros Hidle. unfold start_posting, bind, self_get, gets. simpl. rewrite Hidle. simpl.
  eexists _, _. split; [reflexivity|]. simpl. done.
Qed.

(** C2, as the code has it.  Started at [T + d] with [0 < d < I], where
    [T] is the recorded last post and [I] the interval, the poster
    schedules the first tick [I - d] later, at [T + I]; started with
    [d >= I], or with no last post recorded, it schedules the first tick
    ten seconds later. *)
Theorem first_tick_after_start (b : bot) :
  is_posting (poster b) = false →
  let I := seconds (default 30 (post_interval_minutes (CONFIG b)) * 60) in
  ∃ j b',
    start_posting b = (Ret true, b')
    ∧ job_queue b' = job_queue b ++ [j]
    ∧ posting_job (poster b') = Some (job_id j)
    ∧ (∀ T d, last_post_time (poster b) = Some T → now b = T + d → 0 < d < I →
         job_due j = now b + (I - d) ∧ job_due j = T + I)
    ∧ (∀ T d, last_post_time (poster b) = Some T → now b = T + d → I ≤ d →
         job_due j = now b + seconds 10)
    ∧ (last_post_time (poster b) = None → job_due j = now b + seconds 10).
Proof.
  intros Hidle I.
  destruct (start_posting_idle b Hidle) as (j & b' & Hrun & Hq & Hj & _ & _ & Hdue).
  exists j, b'. repeat split; try done.
  - rewrite Hdue, H, H0, first_delay_mid_cycle by done. done.
  - rewrite Hdue, H, H0, first_delay_mid_cycle by done. fold I. lia.
  - intros T d HT Hnow Hd. rewrite Hdue, HT, Hnow, first_delay_overdue by done. done.
  - intros Hnone. by rewrite Hdue, Hnone.
Qed.

Lemma first_tick_after_start_witness :
  ∃ j b',
    start_posting Demo.bot = (Ret true, b')
    ∧ job_queue b' = job_queue Demo.bot ++ [j]
    ∧ job_due j = seconds 10.
Proof.
  destruct (first_tick_after_start Demo.bot) as (j & b' & Hrun & Hq & _ & _ & _ & Hnone);
    [reflexivity|].
  exists j, b'. repeat split; [exact Hrun|exact Hq|].
  rewrite Hnone; reflexivity.
Defined.

(** C2, as the claim has it, fails: a poster with no last post recorded
    that starts at instant 0 schedules its first tick at 10 seconds, not
    at once. *)
Lemma first_tick_not_immediate :
  last_post_time (poster Demo.bot) = None
  ∧ ∃ j, job_queue (start_posting Demo.bot).2 = [j]
         ∧ job_due j - now Demo.bot = seconds 10
         ∧ job_due j - now Demo.bot ≠ 0.
Proof.
  split; [reflexivity|]. eexists. split; [reflexivity|]. split; [reflexivity|]. done.
Qed.

(** ** Saving the rotation state *)

Lemma _save_state_result b :
  _save_state b = (Ret tt, set_STATE_FILE (Json (state_of b)) b).
Proof. reflexivity. Qed.

Lemma _load_state_corrupt b :
  STATE_FILE b = Corrupt → _load_state b = (Ret tt, b).
Proof. intros H. unfold _load_state, bind, gets. simpl. by rewrite H. Qed.

(** C9, as the code has it.  [_save_state] overwrites the state file in
    place, with no temporary file and no rename: the file is emptied
    and then written.  A save that completes leaves exactly the record
    of the present state and changes nothing else; before its first step
    the old file is there, after the first step an empty file, that
    [json.loads] rejects, and a later [_load_state] that finds such a
    file leaves the poster as it was constructed. *)
Theorem save_state_in_place (b : bot) :
  _save_state b = (Ret tt, set_STATE_FILE (Json (state_of b)) b)
  ∧ crash_in_save 0 b = STATE_FILE b
  ∧ crash_in_save 1 b = Corrupt
  ∧ (∀ k, (2 ≤ k)%nat → crash_in_save k b = Json (state_of b))
  ∧ (∀ b0, STATE_FILE b0 = crash_in_save 1 b →
       TelegramPoster_init b0
       = (Ret tt, (set_poster
                    {| channels_list := keys (get_enabled_channels (CONFIG b0));
                       current_channel_index := 0; is_posting := false;
                       last_post_time := None; posting_job := None;
                       _low_content_warned := ∅; _last_send_error := None |} b0))).
Proof.
  repeat split; try done.
  - intros k Hk. do 2 (destruct k as [|k]; [lia|]).
    unfold crash_in_save, write_text_contents. simpl. by rewrite take_nil.
  - intros b0 Hf. unfold TelegramPoster_init, bind, gets, modify. simpl.
    rewrite _load_state_corrupt; done.
Qed.

(** C9, as the claim has it, fails: the state file holds a record, the
    poster saves again, and a crash after the first step of the save
    leaves neither the old record nor the new one. *)
Lemma save_state_not_atomic :
  let b := (get_next_channel Demo.bot).2 in
  ∃ old, STATE_FILE b = Json old
         ∧ crash_in_save 1 b ≠ Json old
         ∧ crash_in_save 1 b ≠ Json (state_of b).
Proof. eexists. split; [reflexivity|]. split; discriminate. Qed.

Lemma save_state_in_place_witness :
  crash_in_save 2 Demo.bot = Json (state_of Demo.bot)
  ∧ current_channel_index
      (poster (TelegramPoster_init (set_STATE_FILE Corrupt Demo.bot)).2) = 0.
Proof.
  destruct (save_state_in_place Demo.bot) as (_ & _ & _ & Hdone & Hload).
  split.
  - apply Hdone. lia.
  - rewrite (Hload (set_STATE_FILE Corrupt Demo.bot)) by reflexivity. reflexivity.
Defined.

(** ** The hint of a failed send *)

Lemma lower_app s1 s2 : Text.lower (s1 +:+ s2) = Text.lower s1 +:+ Text.lower s2.
Proof.
  induction s1 as [|c s1 IH]; [done|]. rewrite string_app_cons. simpl.
  by rewrite IH, string_app_cons.
Qed.

Lemma contains_app_r p s1 s2 :
  Text.contains p s2 = true → Text.contains p (s1 +:+ s2) = true.
Proof.
  intros H. induction s1 as [|c s1 IH]; [done|].
  change (String c s1 +:+ s2) with (String c (s1 +:+ s2)).
  cbn [Text.contains]. rewrite IH. by destruct (String.prefix _ _).
Qed.

Lemma details_end_with_error file_name size category api_err :
  ∃ before, send_failed_details file_name size category api_err = before +:+ api_err.
Proof.
  unfold send_failed_details.
  exists ("Файл: " +:+ file_name +:+ " (" +:+ pretty size +:+ " байт), категория: "
          +:+ category +:+ nl +:+ "API ошибка: ")%string.
  by rewrite !string_app_assoc.
Qed.

Lemma api_hint_first_match details :
  api_hint send_failed details = first_match hint_table (Text.lower details).
Proof.
  unfold api_hint, hint_table. cbn [first_match existsb].
  by rewrite !orb_false_r.
Qed.

(** C5, as the code has it.  Only a failed send gets a hint.  The hint
    is the first entry of the table, in its order, one of whose
    patterns occurs in the lower-cased details of the outcome; the
    patterns of the second entry are "bot was kicked" and "bot is not a
    member"; with no entry matching there is no hint.  The details end
    with the text of the transport error, so that a pattern which occurs
    in that text, in whatever case, occurs in the details. *)
Theorem hint_from_details (r : reason) (details : string) :
  api_hint r details
  = match r with
    | send_failed => first_match hint_table (Text.lower details)
    | _ => None
    end
  ∧ (first_match hint_table (Text.lower details) = None → api_hint r details = None)
  ∧ ∀ file_name size category api_err p,
      Text.contains p (Text.lower api_err) = true →
      Text.contains p (Text.lower (send_failed_details file_name size category api_err))
      = true.
Proof.
  split; [|split].
  - destruct r; try done. apply api_hint_first_match.
  - intros Hnone. destruct r; try done. by rewrite api_hint_first_match.
  - intros file_name size category api_err p Hp.
    destruct (details_end_with_error file_name size category api_err) as [before ->].
    rewrite lower_app. by apply contains_app_r.
Qed.

Lemma hint_from_details_witness :
  api_hint send_failed "Read timed out" = None
  ∧ Text.contains "forbidden"
      (Text.lower (send_failed_details "pic.jpg" 2048 "art" "Forbidden: bot is blocked"))
    = true.
Proof.
  destruct (hint_from_details send_failed "Read timed out") as (_ & Hnone & _).
  destruct (hint_from_details send_failed EmptyString) as (_ & _ & Hin).
  split.
  - apply Hnone. reflexivity.
  - apply Hin. reflexivity.
Defined.

(** C5, as the claim has it, fails: the send to channel [A] is refused
    with a text that has "kicked" in it but not "bot was kicked"; the
    table of the specification gives the permission hint, the tick
    gives none. *)
Lemma kicked_gets_no_hint :
  let env := {| pick := 0; api_error := Some "Kicked: user was kicked"%string;
                unlink_refused := false |} in
  ∃ details,
    (post_and_delete env "A" Demo.bot).1 = Ret (Failed send_failed details)
    ∧ api_hint send_failed details = None
    ∧ specified_hint "Kicked: user was kicked" = Some PermissionHint.
Proof. eexists. split; [vm_compute; reflexivity|]. split; vm_compute; reflexivity. Qed.

(** ** Unique file names *)

Lemma exists_child (t : tree) (d : path) (n : string) :
  Fs.exists_ t (d ++ [n]) = bool_decide (is_Some (t !! (d ++ [n]))).
Proof. unfold Fs.exists_. by destruct d. Qed.

Lemma exists_child_true (t : tree) (d : path) (n : string) :
  Fs.exists_ t (d ++ [n]) = true ↔ is_Some (t !! (d ++ [n])).
Proof. rewrite exists_child. apply bool_decide_eq_true. Qed.

Lemma exists_child_false (t : tree) (d : path) (n : string) :
  Fs.exists_ t (d ++ [n]) = false ↔ t !! (d ++ [n]) = None.
Proof.
  rewrite exists_child, bool_decide_eq_false, <- eq_None_not_Some. done.
Qed.

Lemma numbered_inj stem suffix c1 c2 :
  numbered stem suffix c1 = numbered stem suffix c2 → c1 = c2.
Proof.
  unfold numbered. intros H.
  apply String.app_inj in H. apply String.app_inj in H.
  apply string_app_inv_tail in H. by apply (inj pretty).
Qed.

Lemma substring_split (s : string) (i : nat) :
  (i ≤ String.length s)%nat →
  String.substring 0 i s +:+ String.substring i (String.length s - i) s = s.
Proof.
  revert i. induction s as [|c s IH]; intros [|i] Hi; simpl in *; try lia.
  - done.
  - clear IH. change (String c (String.substring 0 (String.length s) s) = String c s).
    f_equal. clear. induction s as [|c s IH]; simpl; [done|by rewrite IH].
  - rewrite string_app_cons. f_equal. apply IH. lia.
Qed.

(** The stem and the suffix make up the name. *)
Lemma stem_suffix name : Text.stem name +:+ Text.suffix name = name.
Proof.
  unfold Text.stem, Text.suffix, Text.split_at.
  destruct (Text.rfind_dot name) as [i|]; [|apply string_app_empty_r].
  destruct (Nat.ltb_spec 0 i); simpl; [|apply string_app_empty_r].
  destruct (Nat.ltb_spec i (String.length name - 1)); simpl; [|apply string_app_empty_r].
  apply substring_split. lia.
Qed.

(** What the loop returns is the first free numbered name from [c] on. *)
Lemma first_free_Some t directory stem suffix fuel : ∀ c name,
  first_free t directory stem suffix fuel c = Some name →
  ∃ c', (c ≤ c')%nat
        ∧ name = numbered stem suffix c'
        ∧ t !! (directory ++ [name]) = None
        ∧ ∀ k, (c ≤ k < c')%nat → is_Some (t !! (directory ++ [numbered stem suffix k])).
Proof.
  induction fuel as [|fuel IH]; intros c name H; [done|].
  cbn [first_free] in H.
  destruct (Fs.exists_ t (directory ++ [numbered stem suffix c])) eqn:Hex.
  - apply IH in H as (c' & Hle & -> & Hfree & Hbusy).
    exists c'. repeat split; [lia|done|].
    intros k Hk. destruct (decide (k = c)) as [->|]; [|apply Hbusy; lia].
    by apply exists_child_true.
  - injection H as <-. exists c. repeat split; [lia|by apply exists_child_false|].
    intros k Hk. lia.
Qed.

(** The loop ends: a tree has room for fewer rounds than it has entries. *)
Lemma first_free_total t directory stem suffix fuel : ∀ c (t' : tree),
  (∀ k, (c ≤ k)%nat → is_Some (t !! (directory ++ [numbered stem suffix k])) →
        is_Some (t' !! (directory ++ [numbered stem suffix k]))) →
  (size t' < fuel)%nat →
  is_Some (first_free t directory stem suffix fuel c).
Proof.
  induction fuel as [|fuel IH]; intros c t' Hin Hsize; [lia|].
  cbn [first_free].
  destruct (Fs.exists_ t (directory ++ [numbered stem suffix c])) eqn:Hex; [|done].
  apply exists_child_true in Hex.
  destruct (Hin c ltac:(lia) Hex) as [x Hx].
  apply (IH (S c) (delete (directory ++ [numbered stem suffix c]) t')).
  - intros k Hk Hk'. rewrite lookup_delete_ne; [apply Hin; [lia|done]|].
    intros Heq. apply app_inj_tail in Heq as [_ Heq]. apply numbered_inj in Heq. lia.
  - rewrite map_size_delete_Some by eauto.
    assert (size t' ≠ 0)%nat by (intros E; apply map_size_empty_inv in E; by subst).
    lia.
Qed.

Lemma generate_unique_filename_total t directory filename :
  is_Some (generate_unique_filename t directory filename).
Proof.
  unfold generate_unique_filename.
  destruct (Fs.exists_ t (directory ++ [filename])); cbn [negb]; [|done].
  apply (first_free_total _ _ _ _ _ _ t); [done|lia].
Qed.

Lemma generate_unique_filename_fresh t directory filename name :
  generate_unique_filename t directory filename = Some name →
  t !! (directory ++ [name]) = None.
Proof.
  unfold generate_unique_filename.
  destruct (Fs.exists_ t (directory ++ [filename])) eqn:Hex; cbn [negb].
  - intros H. by apply first_free_Some in H as (c & _ & _ & H & _).
  - intros [= <-]. by apply exists_child_false.
Qed.

(** *** Saving a file *)

Lemma set_content_id b : set_content (content b) b = b.
Proof. by destruct b. Qed.

Lemma set_content_twice t t' b : set_content t (set_content t' b) = set_content t b.
Proof. done. Qed.

Lemma grown_refl t : grown t t.
Proof. split; [done|]. intros; by left. Qed.

Lemma grown_trans t1 t2 t3 : grown t1 t2 → grown t2 t3 → grown t1 t3.
Proof.
  intros [Hs1 Hf1] [Hs2 Hf2]. split; [by etrans|].
  intros p size H3. destruct (Hf2 p size H3) as [H2|]; [|by right]. by apply Hf1.
Qed.

Lemma grown_insert_dir t p : t !! p = None → grown t (<[p := KDir]> t).
Proof.
  intros Hp. split; [by apply insert_subseteq|].
  intros q size Hq. left. destruct (decide (p = q)) as [->|Hne].
  - by rewrite lookup_insert_eq in Hq.
  - by rewrite lookup_insert_ne in Hq.
Qed.

Lemma grown_insert_file t (d : path) n size :
  length d = 2%nat → t !! (d ++ [n]) = None → grown t (<[d ++ [n] := KFile size]> t).
Proof.
  intros Hd Hp. split; [by apply insert_subseteq|].
  intros q size' Hq. destruct (decide (d ++ [n] = q)) as [<-|Hne].
  - right. rewrite length_app. simpl. lia.
  - left. by rewrite lookup_insert_ne in Hq.
Qed.

Lemma targets_free_grown cfg t t' : targets_free cfg t → grown t t' → targets_free cfg t'.
Proof.
  intros Hfree [_ Hf] hashtag ci size Hci.
  destruct (Hfree hashtag ci size Hci) as [H1 H2].
  split; intros H; apply Hf in H as [H|H]; done.
Qed.

(** [mkdir(parents=True, exist_ok=True)] on a category directory. *)
Lemma fs_mkdir_parents_two ch cat b :
  (∀ size, content b !! [ch] ≠ Some (KFile size)) →
  (∀ size, content b !! [ch; cat] ≠ Some (KFile size)) →
  ∃ t1, fs_mkdir_parents [ch; cat] b = (Ret tt, set_content t1 b)
        ∧ grown (content b) t1
        ∧ t1 !! [ch] = Some KDir
        ∧ t1 !! [ch; cat] = Some KDir.
Proof.
  intros H1 H2. unfold fs_mkdir_parents. simpl. unfold bind, gets, modify. simpl.
  destruct (content b !! [ch]) as [[s|]|] eqn:E1; [by destruct (H1 s)| |]; simpl.
  - destruct (content b !! [ch; cat]) as [[s|]|] eqn:E2; [by destruct (H2 s)| |]; simpl.
    + exists (content b). rewrite set_content_id. eauto using grown_refl.
    + eexists. split; [reflexivity|]. split; [by apply grown_insert_dir|].
      split; [by rewrite lookup_insert_ne|by rewrite lookup_insert_eq].
  - rewrite lookup_insert_ne by done.
    destruct (content b !! [ch; cat]) as [[s|]|] eqn:E2; [by destruct (H2 s)| |]; simpl.
    + eexists. split; [reflexivity|]. split; [by apply grown_insert_dir|].
      split; [by rewrite lookup_insert_eq|by rewrite lookup_insert_ne].
    + eexists. split; [reflexivity|].
      split; [|split; [by rewrite lookup_insert_ne, lookup_insert_eq
                      |by rewrite lookup_insert_eq]].
      apply (grown_trans _ (<[[ch] := KDir]> (content b))); [by apply grown_insert_dir|].
      apply grown_insert_dir. by rewrite lookup_insert_ne.
Qed.

(** [save_file] does not raise, and the tree only grows. *)
Lemma save_file_safe env file_id text ext b :
  targets_free (CONFIG b) (content b) →
  ∃ r t', save_file env file_id text ext b = (Ret r, set_content t' b)
          ∧ grown (content b) t'.
Proof.
  intros Hfree. unfold save_file.
  destruct (List.find _ _) as [hashtag|];
    [|exists (SaveError "Нет хештега в подписи. Пример: #Sakura"), (content b);
      rewrite set_content_id; split; [done|apply grown_refl]].
  unfold bind at 1, gets at 1. simpl.
  destruct (find_category_by_hashtag (CONFIG b) hashtag) as [ci|] eqn:Hci;
    [|eexists _, (content b); rewrite set_content_id; split; [done|apply grown_refl]].
  destruct (fs_mkdir_parents_two (ci_channel_key ci) (ci_category ci) b)
    as (t1 & Hmk & Hgrown & Hch & Hcat).
  { intros size. by destruct (Hfree hashtag ci size Hci). }
  { intros size. by destruct (Hfree hashtag ci size Hci). }
  unfold bind at 1. rewrite Hmk.
  unfold try_except, bind, lift, gets, raise, ret, modify. simpl.
  destruct (tg_file_path env) as [tg_path|e]; [|by eexists _, t1].
  match goal with
  | |- context [generate_unique_filename t1 ?d ?n] =>
      destruct (generate_unique_filename_total t1 d n) as [fname Hname];
      rewrite Hname;
      apply (generate_unique_filename_fresh t1 [_; _]) in Hname
  end.
  destruct (download env) as [size|e]; [|by eexists _, t1].
  eexists _, _. split; [reflexivity|].
  eapply grown_trans; [done|]. by apply (grown_insert_file t1 [_; _]).
Qed.

(** [save_file] when the hashtag names a category and neither Telegram
    nor the download fails: a new file of the category, under a name
    that was free. *)
Lemma save_file_saved env file_id text ext b hashtag ci tg_path size :
  targets_free (CONFIG b) (content b) →
  List.find (String.prefix "#") (String.words text) = Some hashtag →
  find_category_by_hashtag (CONFIG b) hashtag = Some ci →
  tg_file_path env = Ret tg_path →
  download env = Ret size →
  ∃ t1 fname,
    save_file env file_id text ext b
    = (Ret (Saved (ci_channel_key ci) (ci_category ci)),
       set_content (<[[ci_channel_key ci; ci_category ci; fname] := KFile size]> t1) b)
    ∧ grown (content b) t1
    ∧ t1 !! [ci_channel_key ci; ci_category ci; fname] = None.
Proof.
  intros Hfree Hfind Hci Htg Hdl. unfold save_file. rewrite Hfind.
  unfold bind at 1, gets at 1. simpl. rewrite Hci.
  destruct (fs_mkdir_parents_two (ci_channel_key ci) (ci_category ci) b)
    as (t1 & Hmk & Hgrown & Hch & Hcat).
  { intros s. by destruct (Hfree hashtag ci s Hci). }
  { intros s. by destruct (Hfree hashtag ci s Hci). }
  unfold bind at 1. rewrite Hmk.
  unfold try_except, bind, lift, gets, raise, ret, modify. simpl.
  rewrite Htg, Hdl.
  match goal with
  | |- context [generate_unique_filename t1 ?d ?n] =>
      destruct (generate_unique_filename_total t1 d n) as [fname Hname];
      rewrite Hname;
      apply (generate_unique_filename_fresh t1 [_; _]) in Hname
  end.
  exists t1, fname. done.
Qed.

(** C7.  [generate_unique_filename] returns a name, and never the name
    of an entry of the directory: the suggested name itself when it is
    free, and otherwise the stem, an underscore, the first number from 1
    on that makes a free name, and the suffix, each smaller number
    making a name that is taken.  So two files saved one after the other
    into the same category are stored under two different names, and
    each entry that was there before the first is there after the
    second. *)
Theorem unique_filename_never_collides (t : tree) (directory : path) (filename : string) :
  ∃ name,
    generate_unique_filename t directory filename = Some name
    ∧ t !! (directory ++ [name]) = None
    ∧ (t !! (directory ++ [filename]) = None → name = filename)
    ∧ (is_Some (t !! (directory ++ [filename])) →
       ∃ c, (1 ≤ c)%nat
            ∧ name = Text.stem filename +:+ "_" +:+ pretty c +:+ Text.suffix filename
            ∧ Text.stem filename +:+ Text.suffix filename = filename
            ∧ ∀ k, (1 ≤ k < c)%nat →
                   is_Some (t !! (directory
                                  ++ [Text.stem filename +:+ "_" +:+ pretty k
                                      +:+ Text.suffix filename])))
    ∧ ∀ b env1 env2 id1 id2 text ext1 ext2 hashtag ci p1 p2 size1 size2,
        content b = t →
        targets_free (CONFIG b) t →
        List.find (String.prefix "#") (String.words text) = Some hashtag →
        find_category_by_hashtag (CONFIG b) hashtag = Some ci →
        tg_file_path env1 = Ret p1 → download env1 = Ret size1 →
        tg_file_path env2 = Ret p2 → download env2 = Ret size2 →
        let first := save_file env1 id1 text ext1 b in
        let second := save_file env2 id2 text ext2 first.2 in
        ∃ name1 name2,
          first.1 = Ret (Saved (ci_channel_key ci) (ci_category ci))
          ∧ second.1 = Ret (Saved (ci_channel_key ci) (ci_category ci))
          ∧ name1 ≠ name2
          ∧ t !! [ci_channel_key ci; ci_category ci; name1] = None
          ∧ t !! [ci_channel_key ci; ci_category ci; name2] = None
          ∧ content second.2 !! [ci_channel_key ci; ci_category ci; name1]
            = Some (KFile size1)
          ∧ content second.2 !! [ci_channel_key ci; ci_category ci; name2]
            = Some (KFile size2)
          ∧ t ⊆ content second.2.
Proof.
  destruct (generate_unique_filename_total t directory filename) as [name Hname].
  exists name. split; [done|]. split; [by eapply generate_unique_filename_fresh|].
  split; [|split].
  - intros Hfree. apply exists_child_false in Hfree.
    unfold generate_unique_filename in Hname. rewrite Hfree in Hname. by injection Hname.
  - intros Htaken. apply exists_child_true in Htaken.
    unfold generate_unique_filename in Hname. rewrite Htaken in Hname. cbn [negb] in Hname.
    apply first_free_Some in Hname as (c & Hc & -> & _ & Hbusy).
    exists c. split; [done|]. split; [done|]. split; [apply stem_suffix|].
    intros k Hk. by apply Hbusy.
  - intros b env1 env2 id1 id2 text ext1 ext2 hashtag ci p1 p2 size1 size2
      Ht Hfree Hfind Hci Htg1 Hdl1 Htg2 Hdl2 first second.
    rewrite <- Ht in Hfree.
    destruct (save_file_saved env1 id1 text ext1 b hashtag ci p1 size1)
      as (t1 & name1 & Hrun1 & Hgrown1 & Hfresh1); try done.
    set (t1' := <[[ci_channel_key ci; ci_category ci; name1] := KFile size1]> t1) in *.
    assert (Hgrown1' : grown (content b) t1').
    { eapply grown_trans; [done|]. by apply (grown_insert_file t1 [_; _]). }
    destruct (save_file_saved env2 id2 text ext2 (set_content t1' b) hashtag ci p2 size2)
      as (t2 & name2 & Hrun2 & Hgrown2 & Hfresh2); try done.
    { by eapply targets_free_grown. }
    subst first second. rewrite Hrun1. simpl. rewrite Hrun2. simpl.
    simpl in Hgrown2. destruct Hgrown2 as [Hsub2 _]. destruct Hgrown1 as [Hsub1 _].
    assert (Hin1 : t2 !! [ci_channel_key ci; ci_category ci; name1] = Some (KFile size1)).
    { eapply lookup_weaken; [|done]. unfold t1'. by rewrite lookup_insert_eq. }
    assert (Hne : name1 ≠ name2) by (intros ->; congruence).
    exists name1, name2. repeat split; try done.
    + eapply lookup_weaken_None; [exact Hfresh1|]. by rewrite <- Ht.
    + eapply lookup_weaken_None; [exact Hfresh2|]. rewrite <- Ht.
      etrans; [exact Hsub1|]. etrans; [|exact Hsub2]. by apply insert_subseteq.
    + rewrite lookup_insert_ne by congruence. done.
    + by rewrite lookup_insert_eq.
    + rewrite <- Ht. etrans; [exact Hsub1|]. etrans; [|by apply insert_subseteq].
      etrans; [|exact Hsub2]. by apply insert_subseteq.
Qed.

Lemma demo_targets_free : targets_free Demo.config Demo.tree.
Proof.
  intros hashtag ci size. unfold find_category_by_hashtag. simpl.
  repeat case_bool_decide; simpl; intros [= <-]; simpl; split; by vm_compute.
Qed.

Lemma unique_filename_never_collides_witness :
  ∃ name1 name2,
    generate_unique_filename Demo.tree ["2024-05"; "A"; "art"]%string "pic.jpg" = Some name1
    ∧ (∃ c, (1 ≤ c)%nat ∧ name1 = ("pic" +:+ "_" +:+ pretty c +:+ ".jpg")%string)
    ∧ generate_unique_filename Demo.tree ["2024-05"; "A"; "art"]%string "new.jpg" = Some name2
    ∧ name2 = "new.jpg"%string
    ∧ ∃ stored1 stored2,
        stored1 ≠ stored2
        ∧ content (save_file (Demo.saving (Demo.album_message 2 None)) "id2" "#alpha" ".jpg"
                     (save_file (Demo.saving (Demo.album_message 1 None)) "id1" "#alpha" ".jpg"
                        Demo.bot).2).2
            !! ["A"; "art"; stored1]%string = Some (KFile 512).
Proof.
  destruct (unique_filename_never_collides Demo.tree ["2024-05"; "A"; "art"]%string "pic.jpg")
    as (name1 & Hrun1 & _ & _ & Htaken & Hsaves).
  destruct (unique_filename_never_collides Demo.tree ["2024-05"; "A"; "art"]%string "new.jpg")
    as (name2 & Hrun2 & _ & Hfree & _ & _).
  exists name1, name2. split; [exact Hrun1|]. split.
  { destruct Htaken as (c & Hc & Hname & _); [by vm_compute; eauto|]. exists c. by split. }
  split; [exact Hrun2|]. split; [apply Hfree; by vm_compute|].
  destruct (Hsaves Demo.bot (Demo.saving (Demo.album_message 1 None))
              (Demo.saving (Demo.album_message 2 None)) "id1" "id2" "#alpha" ".jpg" ".jpg"
              "#alpha" {| ci_channel_key := "A"; ci_category := "art";
                          ci_hashtags := ["#alpha"] |}
              (Some "photos/file_7.jpg") (Some "photos/file_7.jpg") 512 512)%string
    as (stored1 & stored2 & _ & _ & Hne & _ & _ & Hin1 & _);
    try reflexivity; [apply demo_targets_free|].
  exists stored1, stored2. split; [exact Hne|exact Hin1].
Defined.

(** * Further properties *)

(** ** The loops, by their named bodies *)

Lemma cleanup_empty_dirs_loops :
  cleanup_empty_dirs
  = (do months <- (do t <- gets content; lift (Fs.sorted_iterdir t []));
     for_accM cleanup_month 0 months).
Proof. reflexivity. Qed.

Lemma _check_low_content_loops :
  _check_low_content
  = (do cfg <- gets CONFIG;
     let threshold := default DEFAULT_LOW_CONTENT_THRESHOLD (low_content_threshold cfg) in
     do t <- gets content;
     do low <- lift (get_low_content_channels cfg t (Some threshold));
     do _ <- for_each (warn_if_new threshold) low;
     do warned <- self_get _low_content_warned;
     for_each (forget_if_refilled low) (elements warned)).
Proof. reflexivity. Qed.

Lemma album_session_loops env arrivals horizon :
  album_session env arrivals horizon
  = (do flushed <- for_accM (on_arrival env) [] arrivals;
     do fired <- run_due_albums env horizon;
     ret (flushed ++ fired)).
Proof. reflexivity. Qed.

Lemma send_file_method api channel_id file_path text :
  send_file api channel_id file_path text
  = try_except
      (do _ <- fs_open file_path;
       do _ <- match api with
               | None =>
                   modify (send (ToChannel (method_for file_path) channel_id file_path text))
               | Some e => raise (TelegramError e)
               end;
       do _ <- self_set (set_last_send_error None);
       ret true)
      (λ e,
         do _ <- self_set (set_last_send_error (Some (exn_str e)));
         ret false).
Proof. reflexivity. Qed.

(** ** Ordered dicts *)

Lemma dict_get_set {V} (d : list (string * V)) k v k' :
  dict_get (dict_set d k v) k' = if decide (k = k') then Some v else dict_get d k'.
Proof.
  induction d as [|[k0 v0] d IH]; simpl.
  - by destruct (decide (k = k')).
  - destruct (decide (k0 = k)) as [->|Hne]; simpl.
    + by destruct (decide (k = k')).
    + destruct (decide (k0 = k')) as [->|]; [by destruct (decide (k = k')); [subst|]|].
      apply IH.
Qed.

Lemma elem_of_keys_get {V} (d : list (string * V)) k :
  k ∈ keys d ↔ is_Some (dict_get d k).
Proof.
  unfold keys. induction d as [|[k0 v0] d IH]; simpl.
  - split; [by intros ?%elem_of_nil|by intros [? ?]].
  - rewrite elem_of_cons, IH. destruct (decide (k0 = k)) as [->|]; [by split; eauto|].
    split; [intros [?|?]; by subst|by right].
Qed.

Lemma elem_of_keys_set {V} (d : list (string * V)) k v k' :
  k' ∈ keys (dict_set d k v) ↔ k' = k ∨ k' ∈ keys d.
Proof.
  rewrite !elem_of_keys_get, dict_get_set.
  destruct (decide (k = k')) as [->|]; [by split; eauto|].
  split; [by right|]. by intros [->|?].
Qed.

Lemma dict_item_get {V} (d : list (string * V)) k v :
  dict_get d k = Some v → dict_item d k = Ret v.
Proof. unfold dict_item. by intros ->. Qed.

(** ** Loops *)

Lemma for_acc_invariant {A B} (I : B → Prop) (body : B → A → outcome B) l : ∀ acc r,
  I acc →
  (∀ acc x acc', I acc → x ∈ l → body acc x = Ret acc' → I acc') →
  for_acc body acc l = Ret r → I r.
Proof.
  induction l as [|x l IH]; intros acc r Hacc Hstep; simpl.
  - by intros [= <-].
  - destruct (body acc x) as [acc'|e] eqn:Hb; simpl; [|done].
    apply IH; [eapply Hstep; [done|by left|done]|].
    intros ? ? ? ? ?. apply Hstep; [done|by right].
Qed.

Lemma for_each_app {St A} (body : A → M St unit) l1 l2 s :
  for_each body (l1 ++ l2) s
  = match for_each body l1 s with
    | (Ret _, s') => for_each body l2 s'
    | (Exc e, s') => (Exc e, s')
    end.
Proof.
  revert s. induction l1 as [|x l1 IH]; intros s; simpl; [done|].
  unfold bind. destruct (body x s) as [[[]|e] s']; [apply IH|done].
Qed.

(** ** The low-content monitor *)

Lemma stats_channels_configured cfg t stats :
  get_content_stats cfg t = Ret stats →
  ∀ k, k ∈ keys (stats_channels stats) → k ∈ keys (channels cfg).
Proof.
  unfold get_content_stats. destruct (month_dirs t) as [months|]; simpl; [|done].
  apply (for_acc_invariant (λ stats, ∀ k, k ∈ keys (stats_channels stats)
                                           → k ∈ keys (channels cfg))).
  - simpl. by intros k ?%elem_of_nil.
  - intros acc [ch_key ch_cfg] acc' Hacc Hin. simpl.
    destruct (for_acc _ _ months) as [ch_stats|]; simpl; [|done].
    intros [= <-] k. simpl. rewrite elem_of_keys_set. intros [->|]; [|by apply Hacc].
    unfold get_enabled_channels in Hin. apply list_elem_of_In, filter_In in Hin as [Hin _].
    apply list_elem_of_In in Hin. unfold keys. apply list_elem_of_fmap. by exists (ch_key, ch_cfg).
Qed.

(** The value the low dict holds for a key: the total of the channel
    when it is below the threshold. *)
Lemma low_fold_get threshold (chans : list (string * channel_stats)) k : ∀ low,
  NoDup (keys chans) →
  dict_get
    (foldl (λ low ch, if cs_total ch.2 <? threshold
                      then dict_set low ch.1 (cs_total ch.2) else low) low chans) k
  = match dict_get chans k with
    | Some cs => if cs_total cs <? threshold then Some (cs_total cs) else dict_get low k
    | None => dict_get low k
    end.
Proof.
  unfold keys.
  induction chans as [|[k0 cs0] chans IH]; intros low Hnd; simpl; [done|].
  apply NoDup_cons in Hnd as [Hk0 Hnd]. rewrite IH by done.
  destruct (decide (k0 = k)) as [->|Hne].
  - assert (dict_get chans k = None) as ->.
    { apply eq_None_not_Some. by rewrite <- elem_of_keys_get. }
    destruct (cs_total cs0 <? threshold); [|done].
    rewrite dict_get_set. by destruct (decide (k = k)).
  - destruct (dict_get chans k) as [cs|]; [destruct (cs_total cs <? threshold); [done|]|];
      (destruct (cs_total cs0 <? threshold); [|done]);
      rewrite dict_get_set; by destruct (decide (k0 = k)).
Qed.

Lemma keys_dict_set_NoDup {V} (d : list (string * V)) k v :
  NoDup (keys d) → NoDup (keys (dict_set d k v)).
Proof.
  induction d as [|[k0 v0] d IH]; simpl.
  - intros _. apply NoDup_singleton.
  - change (keys ((k0, v0) :: d)) with (k0 :: keys d).
    rewrite NoDup_cons. intros [Hk0 Hnd].
    destruct (decide (k0 = k)) as [->|Hne].
    + change (keys ((k, v) :: d)) with (k :: keys d). by rewrite NoDup_cons.
    + change (keys ((k0, v0) :: dict_set d k v)) with (k0 :: keys (dict_set d k v)).
      rewrite NoDup_cons. split; [|by apply IH].
      rewrite elem_of_keys_set. intros [?|?]; by subst.
Qed.

Lemma stats_channels_NoDup cfg t stats :
  get_content_stats cfg t = Ret stats → NoDup (keys (stats_channels stats)).
Proof.
  unfold get_content_stats. destruct (month_dirs t) as [months|]; simpl; [|done].
  apply (for_acc_invariant (λ stats, NoDup (keys (stats_channels stats)))).
  - apply NoDup_nil_2.
  - intros acc [ch_key ch_cfg] acc' Hacc _. simpl.
    destruct (for_acc _ _ months) as [ch_stats|]; simpl; [|done].
    intros [= <-]. simpl. by apply keys_dict_set_NoDup.
Qed.

(** The first loop of a check: every low channel becomes warned, and
    an alert goes out for those that were not. *)
Lemma warn_loop threshold ch low : ∀ b,
  (∀ k, k ∈ keys low → k ∈ keys (channels (CONFIG b))) →
  ∃ b',
    for_each (warn_if_new threshold) low b = (Ret tt, b')
    ∧ CONFIG b' = CONFIG b
    ∧ content b' = content b
    ∧ _low_content_warned (poster b') = list_to_set (keys low) ∪ _low_content_warned (poster b)
    ∧ alerts_for ch (outbox b')
      = (alerts_for ch (outbox b)
         + if bool_decide (ch ∈ keys low ∧ ch ∉ _low_content_warned (poster b))
           then 1 else 0)%nat.
Proof.
  induction low as [|[k v] low IH]; intros b Hcfg.
  - exists b. split; [done|]. split; [done|]. split; [done|]. split.
    + simpl. set_solver.
    + rewrite bool_decide_eq_false_2; [lia|]. intros [?%elem_of_nil _]. done.
  - change (keys ((k, v) :: low)) with (k :: keys low) in *.
    cbn [for_each]. unfold bind at 1. unfold warn_if_new at 1.
    unfold bind at 1, self_get at 1, gets at 1. cbn beta iota.
    destruct (decide (k ∈ _low_content_warned (poster b))) as [Hin|Hnotin].
    + rewrite bool_decide_eq_true_2 by done. unfold ret at 1.
      destruct (IH b) as (b' & Hrun & Hc & Ht & Hw & Ha).
      { intros k' Hk'. apply Hcfg. by right. }
      exists b'. split; [done|]. split; [done|]. split; [done|]. split.
      * rewrite Hw. set_solver.
      * rewrite Ha. f_equal. erewrite bool_decide_ext; [done|]. set_solver.
    + rewrite bool_decide_eq_false_2 by done.
      destruct (proj1 (elem_of_keys_get (channels (CONFIG b)) k)) as [ch_cfg Hch].
      { apply Hcfg. by left. }
      unfold bind at 1, gets at 1. cbn beta iota.
      unfold bind at 1, lift at 1. rewrite (dict_item_get _ _ _ Hch).
      unfold bind at 1, modify at 1, self_set, modify.
      match goal with
      | |- context [for_each _ low ?b1] => destruct (IH b1) as (b' & Hrun & Hc & Ht & Hw & Ha)
      end.
      { simpl. intros k' Hk'. apply Hcfg. by right. }
      exists b'. split; [done|]. split; [done|]. split; [done|]. split.
      * rewrite Hw. simpl. set_solver.
      * rewrite Ha. simpl. unfold alerts_for. rewrite filter_app, length_app.
        rewrite filter_cons, filter_nil. simpl.
        destruct (decide (k = ch)) as [->|Hne].
        -- simpl. rewrite bool_decide_eq_false_2 by set_solver.
           rewrite bool_decide_eq_true_2 by set_solver. lia.
        -- simpl. rewrite Nat.add_0_r. f_equal. erewrite bool_decide_ext; [done|]. set_solver.
Qed.

(** The second loop of a check: the warned channels that are not low
    are forgotten. *)
Lemma forget_loop low l : ∀ b,
  ∃ b',
    for_each (forget_if_refilled low) l b = (Ret tt, b')
    ∧ CONFIG b' = CONFIG b
    ∧ content b' = content b
    ∧ outbox b' = outbox b
    ∧ ∀ k, k ∈ _low_content_warned (poster b')
           ↔ k ∈ _low_content_warned (poster b) ∧ (k ∈ l → k ∈ keys low).
Proof.
  induction l as [|x l IH]; intros b.
  - exists b. split; [done|]. split; [done|]. split; [done|]. split; [done|].
    intros k. split; [intros ?; split; [done|by intros ?%elem_of_nil]|by intros [? _]].
  - cbn [for_each]. unfold bind at 1. unfold forget_if_refilled at 1.
    destruct (decide (x ∈ keys low)) as [Hin|Hnotin].
    + rewrite bool_decide_eq_true_2 by done. unfold ret at 1.
      destruct (IH b) as (b' & Hrun & Hc & Ht & Ho & Hw).
      exists b'. split; [done|]. split; [done|]. split; [done|]. split; [done|].
      intros k. rewrite Hw, elem_of_cons. split.
      * intros [Hk Hl]. split; [done|]. intros [->|?]; [done|by apply Hl].
      * intros [Hk Hl]. split; [done|]. intros ?. apply Hl. by right.
    + rewrite bool_decide_eq_false_2 by done. unfold self_set, modify.
      match goal with
      | |- context [for_each _ l ?b1] => destruct (IH b1) as (b' & Hrun & Hc & Ht & Ho & Hw)
      end.
      exists b'. split; [done|]. split; [done|]. split; [done|]. split; [done|].
      intros k. rewrite Hw. simpl. rewrite elem_of_difference, elem_of_singleton, elem_of_cons.
      split.
      * intros [[Hk Hne] Hl]. split; [done|]. intros [?|?]; [done|by apply Hl].
      * intros [Hk Hl]. split; [split; [done|]|by intros ?; apply Hl; right].
        intros ->. apply Hnotin, Hl. by left.
Qed.

(** One check, seen from one channel whose files are counted. *)
Lemma _check_low_content_step b ch c :
  channel_count (CONFIG b) (content b) ch = Some c →
  let threshold := default DEFAULT_LOW_CONTENT_THRESHOLD (low_content_threshold (CONFIG b)) in
  ∃ b',
    _check_low_content b = (Ret tt, b')
    ∧ CONFIG b' = CONFIG b
    ∧ alerts_for ch (outbox b')
      = (alerts_for ch (outbox b)
         + falling_edges threshold (bool_decide (ch ∈ _low_content_warned (poster b))) [c])%nat
    ∧ (ch ∈ _low_content_warned (poster b') ↔ c < threshold).
Proof.
  intros Hcount threshold. unfold channel_count in Hcount.
  destruct (get_content_stats (CONFIG b) (content b)) as [stats|] eqn:Hstats; [|done].
  destruct (dict_get (stats_channels stats) ch) as [cs|] eqn:Hcs; [|done].
  injection Hcount as Hc.
  pose proof (stats_channels_NoDup _ _ _ Hstats) as Hnd.
  pose proof (stats_channels_configured _ _ _ Hstats) as Hconf.
  rewrite _check_low_content_loops.
  unfold bind at 1, gets at 1. cbn beta iota. fold threshold.
  unfold bind at 1, gets at 1. cbn beta iota.
  unfold bind at 1, lift at 1, get_low_content_channels. rewrite Hstats. cbn beta iota.
  change (Ret stats ≫= ?f) with (f stats). cbn beta. unfold mret, outcome_ret.
  set (low := foldl _ [] (stats_channels stats)).
  assert (Hlow : ∀ k, dict_get low k
                      = match dict_get (stats_channels stats) k with
                        | Some cs => if cs_total cs <? threshold then Some (cs_total cs) else None
                        | None => None
                        end).
  { intros k. unfold low. by rewrite low_fold_get. }
  assert (Hkeys : ∀ k, k ∈ keys low → k ∈ keys (channels (CONFIG b))).
  { intros k Hk. apply Hconf. apply elem_of_keys_get. apply elem_of_keys_get in Hk.
    rewrite Hlow in Hk. destruct (dict_get (stats_channels stats) k); [done|by destruct Hk]. }
  assert (Hch : ch ∈ keys low ↔ c < threshold).
  { rewrite elem_of_keys_get, Hlow, Hcs, Hc.
    destruct (Z.ltb_spec c threshold); split; intros Hx;
      first [done | lia | by eauto | by destruct Hx]. }
  destruct (warn_loop threshold ch low b Hkeys) as (b1 & Hrun1 & Hc1 & Ht1 & Hw1 & Ha1).
  unfold bind at 1. rewrite Hrun1.
  unfold bind at 1, self_get at 1, gets at 1. cbn beta iota.
  destruct (forget_loop low (elements (_low_content_warned (poster b1))) b1)
    as (b2 & Hrun2 & Hc2 & Ht2 & Ho2 & Hw2).
  exists b2. split; [done|]. split; [congruence|]. split.
  - rewrite Ho2, Ha1. f_equal. cbn [falling_edges]. rewrite Nat.add_0_r.
    destruct (Z.ltb_spec c threshold) as [Hlt|Hge]; simpl.
    + destruct (decide (ch ∈ _low_content_warned (poster b))).
      * rewrite bool_decide_eq_false_2 by tauto. by rewrite bool_decide_eq_true_2.
      * rewrite bool_decide_eq_true_2 by tauto. by rewrite bool_decide_eq_false_2.
    + rewrite bool_decide_eq_false_2; [done|]. intros [Hin _]. apply Hch in Hin. lia.
  - rewrite Hw2, Hw1, elem_of_elements, <- Hch.
    rewrite elem_of_union, elem_of_list_to_set. tauto.
Qed.

Lemma monitor_counts ch cfg trees counts :
  Forall2 (λ t c, channel_count cfg t ch = Some c) trees counts →
  ∀ b, CONFIG b = cfg →
  let threshold := default DEFAULT_LOW_CONTENT_THRESHOLD (low_content_threshold cfg) in
  ∃ b',
    monitor trees b = (Ret tt, b')
    ∧ alerts_for ch (outbox b')
      = (alerts_for ch (outbox b)
         + falling_edges threshold (bool_decide (ch ∈ _low_content_warned (poster b)))
             counts)%nat
    ∧ (ch ∈ _low_content_warned (poster b')
       ↔ match last counts with
         | Some c => c < threshold
         | None => ch ∈ _low_content_warned (poster b)
         end).
Proof.
  induction 1 as [|t c trees counts Hc Hrest IH]; intros b Hcfg threshold.
  - exists b. split; [done|]. split; [simpl; lia|done].
  - unfold monitor. cbn [for_each]. unfold bind at 1, bind at 1, modify at 1.
    destruct (_check_low_content_step (set_content t b) ch c)
      as (b1 & Hrun & Hc1 & Ha1 & Hw1).
    { simpl. by rewrite Hcfg. }
    rewrite Hrun. cbn [CONFIG set_content poster outbox] in Hc1, Ha1, Hw1.
    rewrite Hcfg in Ha1, Hw1. fold threshold in Ha1, Hw1.
    destruct (IH b1) as (b2 & Hrun2 & Ha2 & Hw2); [congruence|].
    exists b2. split; [done|]. split.
    + rewrite Ha2, Ha1. cbn [falling_edges]. rewrite Nat.add_0_r, <- Nat.add_assoc.
      do 3 f_equal. fold threshold.
      destruct (Z.ltb_spec c threshold).
      * rewrite bool_decide_eq_true_2; [done|by apply Hw1].
      * rewrite bool_decide_eq_false_2; [done|]. intros ?%Hw1. lia.
    + rewrite Hw2. fold threshold. destruct counts as [|c' counts]; [simpl; done|].
      change (last (c :: c' :: counts)) with (last (c' :: counts)).
      destruct (last (c' :: counts)) eqn:E; [done|]. by apply last_None in E.
Qed.

(** The scenario of the specification: 12 files, then 8 at four checks,
    then 11, then 9, against a threshold of 10, make two falling edges. *)
Example falling_edges_scenario :
  falling_edges 10 false [12; 8] = 1%nat
  ∧ falling_edges 10 true [8; 8; 8] = 0%nat
  ∧ falling_edges 10 false [12; 8; 8; 8; 8; 11; 9] = 2%nat.
Proof. done. Qed.

(** C6.  Over any sequence of checks at which the files of a channel
    are counted, the alerts sent about the channel are as many as the
    checks at which its count is below the threshold while it was not
    at the check before (at the first check: while the channel was not
    in the warned set); after a check the channel is in the warned set
    exactly when its count at that check is below the threshold.  So a
    drop below the threshold sends one alert and adds the channel to
    the set, a further check below the threshold sends none, and a
    check at or above it removes the channel from the set, after which
    a new drop sends one alert again. *)
Theorem low_content_edge_triggered (b : bot) (ch : string)
    (trees : list tree) (counts : list Z) :
  Forall2 (λ t c, channel_count (CONFIG b) t ch = Some c) trees counts →
  let threshold :=
    default DEFAULT_LOW_CONTENT_THRESHOLD (low_content_threshold (CONFIG b)) in
  ∃ b',
    monitor trees b = (Ret tt, b')
    ∧ alerts_for ch (outbox b')
      = (alerts_for ch (outbox b)
         + falling_edges threshold (bool_decide (ch ∈ _low_content_warned (poster b)))
             counts)%nat
    ∧ (ch ∈ _low_content_warned (poster b')
       ↔ match last counts with
         | Some c => c < threshold
         | None => ch ∈ _low_content_warned (poster b)
         end)
    ∧ (∀ c, counts = [c] → ch ∉ _low_content_warned (poster b) → c < threshold →
         alerts_for ch (outbox b') = S (alerts_for ch (outbox b))
         ∧ ch ∈ _low_content_warned (poster b'))
    ∧ (∀ c, counts = [c] → ch ∈ _low_content_warned (poster b) → c < threshold →
         alerts_for ch (outbox b') = alerts_for ch (outbox b)
         ∧ ch ∈ _low_content_warned (poster b'))
    ∧ (∀ c, counts = [c] → threshold ≤ c →
         alerts_for ch (outbox b') = alerts_for ch (outbox b)
         ∧ ch ∉ _low_content_warned (poster b')).
Proof.
  intros Hcounts threshold.
  destruct (monitor_counts ch (CONFIG b) trees counts Hcounts b eq_refl)
    as (b' & Hrun & Ha & Hw).
  fold threshold in Ha, Hw.
  exists b'. split; [done|]. split; [done|]. split; [done|].
  split; [|split]; intros c -> ; simpl in Ha, Hw.
  - intros Hout Hlt. rewrite bool_decide_eq_false_2 in Ha by done.
    destruct (Z.ltb_spec c threshold); [|lia]. simpl in Ha. split; [lia|by apply Hw].
  - intros Hin Hlt. rewrite bool_decide_eq_true_2 in Ha by done.
    rewrite andb_false_r in Ha. split; [lia|by apply Hw].
  - intros Hge. destruct (Z.ltb_spec c threshold); [lia|]. simpl in Ha.
    split; [lia|]. rewrite Hw. lia.
Qed.

Lemma low_content_edge_triggered_witness :
  let trees := [Demo.tree; ∅; ∅; Demo.tree; ∅] in
  ∃ b',
    monitor trees watchful = (Ret tt, b')
    ∧ alerts_for "A" (outbox b') = 2%nat
    ∧ "A"%string ∈ _low_content_warned (poster b').
Proof.
  intros trees.
  destruct (low_content_edge_triggered watchful "A" trees [1; 0; 0; 1; 0])
    as (b' & Hrun & Halerts & Hwarned & _).
  - repeat constructor; by vm_compute.
  - exists b'. split; [exact Hrun|]. split.
    + rewrite Halerts. reflexivity.
    + apply Hwarned. by vm_compute.
Defined.

(** ** The content tree *)

Lemma strip_prefix_app d p : Fs.strip_prefix d (d ++ p) = Some p.
Proof. induction d as [|x d IH]; simpl; [done|]. by rewrite decide_True. Qed.

Lemma strip_prefix_Some d p q : Fs.strip_prefix d p = Some q → p = d ++ q.
Proof.
  revert p. induction d as [|x d IH]; intros p; simpl; [by intros [= ->]|].
  destruct p as [|y p]; [done|]. destruct (decide (x = y)) as [->|]; [|done].
  intros H. by rewrite (IH _ H).
Qed.

Lemma child_of_Some d p n : Fs.child_of d p = Some n ↔ p = d ++ [n].
Proof.
  unfold Fs.child_of. split.
  - destruct (Fs.strip_prefix d p) as [[|m [|? ?]]|] eqn:E; try done.
    intros [= ->]. by apply strip_prefix_Some.
  - intros ->. by rewrite strip_prefix_app.
Qed.

Lemma elem_of_listdir (t : tree) d n : n ∈ Fs.listdir t d ↔ is_Some (t !! (d ++ [n])).
Proof.
  unfold Fs.listdir. rewrite list_elem_of_omap. split.
  - intros ([p k] & Hin & Hc). apply elem_of_map_to_list in Hin.
    simpl in Hc. apply child_of_Some in Hc as ->. eauto.
  - intros [k Hk]. exists (d ++ [n], k). split; [by apply elem_of_map_to_list|].
    simpl. by apply child_of_Some.
Qed.

Lemma listdir_nil_iff (t : tree) d : Fs.listdir t d = [] ↔ ∀ n, t !! (d ++ [n]) = None.
Proof.
  split.
  - intros H n. apply eq_None_not_Some. rewrite <- elem_of_listdir, H. apply not_elem_of_nil.
  - intros H. apply elem_of_nil_inv. intros n Hn%elem_of_listdir.
    rewrite H in Hn. by destruct Hn.
Qed.

Lemma name_child d n : Fs.name (d ++ [n]) = n.
Proof. unfold Fs.name. by rewrite last_snoc. Qed.

Lemma is_dir_true (t : tree) p : p ≠ [] → Fs.is_dir t p = true ↔ t !! p = Some KDir.
Proof. intros Hp. destruct p; [done|]. simpl. apply bool_decide_eq_true. Qed.

Lemma is_dir_child (t : tree) d n : Fs.is_dir t (d ++ [n]) = true ↔ t !! (d ++ [n]) = Some KDir.
Proof. apply is_dir_true. by destruct d. Qed.

Lemma iterdir_dir (t : tree) p :
  Fs.is_dir t p = true → Fs.iterdir t p = Ret ((λ n, p ++ [n]) <$> Fs.listdir t p).
Proof. unfold Fs.iterdir. by intros ->. Qed.

(** ** Loops that keep an invariant *)

Lemma for_accM_invariant {St A B} (I : St → Prop) (body : B → A → M St B) l :
  (∀ acc x s, x ∈ l → I s → ∃ acc' s', body acc x s = (Ret acc', s') ∧ I s') →
  ∀ acc s, I s → ∃ acc' s', for_accM body acc l s = (Ret acc', s') ∧ I s'.
Proof.
  induction l as [|x l IH]; intros Hbody acc s Hs; [by exists acc, s|].
  cbn [for_accM]. unfold bind.
  destruct (Hbody acc x s) as (acc1 & s1 & -> & Hs1); [by left|done|].
  apply IH; [|done]. intros ? ? ? ?. apply Hbody. by right.
Qed.

(** ** Removing empty directories *)

Lemma shrunk_refl t : shrunk t t.
Proof. by split. Qed.

Lemma shrunk_delete_dir t t' p :
  shrunk t t' → t' !! p = Some KDir → shrunk t (delete p t').
Proof.
  intros [Hsub Hfiles] Hp. split; [etrans; [apply delete_subseteq|done]|].
  intros q size Hq Hlen. rewrite lookup_delete_ne; [by apply Hfiles|].
  intros <-. rewrite (Hfiles _ _ Hq Hlen) in Hp. done.
Qed.

Lemma shrunk_delete_short t t' month :
  shrunk t t' → shrunk t (delete [month; "package_info.json"%string] t').
Proof.
  intros [Hsub Hfiles]. split; [etrans; [apply delete_subseteq|done]|].
  intros q size Hq Hlen. rewrite lookup_delete_ne; [by apply Hfiles|].
  intros <-. by apply (Hlen month).
Qed.

Lemma fs_rmdir_cleaning b0 keep b p :
  cleaning b0 keep b →
  content b !! p = Some KDir →
  Fs.listdir (content b) p = [] →
  keep ≠ Some p →
  ∃ b', fs_rmdir p b = (Ret tt, b') ∧ cleaning b0 keep b'.
Proof.
  intros (t' & -> & Hshrunk & Hkeep) Hp Hempty Hne. simpl in *.
  unfold fs_rmdir, bind, gets, modify. simpl. rewrite Hp, Hempty. simpl.
  eexists. split; [done|]. exists (delete p t'). split; [done|].
  split; [by apply shrunk_delete_dir|].
  intros q ->. rewrite lookup_delete_ne; [by apply Hkeep|]. congruence.
Qed.

Lemma cleanup_category_cleaning b0 keep removed cat_dir b d n :
  cat_dir = d ++ [n] → keep ≠ Some cat_dir →
  cleaning b0 keep b →
  ∃ removed' b', cleanup_category removed cat_dir b = (Ret removed', b')
                 ∧ cleaning b0 keep b'.
Proof.
  intros -> Hne Hb. unfold cleanup_category, bind at 1, fs_is_dir, gets.
  destruct (Fs.is_dir (content b) (d ++ [n])) eqn:Hdir; simpl; [|by exists removed, b].
  unfold bind at 1, fs_iterdir, bind, gets, lift. rewrite iterdir_dir by done.
  destruct (Fs.listdir (content b) (d ++ [n])) as [|m ms] eqn:Hls; simpl;
    [|by exists removed, b].
  apply is_dir_child in Hdir.
  destruct (fs_rmdir_cleaning b0 keep b (d ++ [n])) as (b' & -> & Hb'); try done.
  by exists (removed + 1), b'.
Qed.

Lemma cleaning_forget b0 keep b : cleaning b0 keep b → cleaning b0 None b.
Proof. intros (t' & -> & Hs & _). exists t'. by split. Qed.

Lemma cleaning_keep b0 b q :
  cleaning b0 None b → content b !! q = Some KDir → cleaning b0 (Some q) b.
Proof.
  intros (t' & -> & Hs & _) Hq. exists t'. split; [done|]. split; [done|].
  by intros ? [= <-].
Qed.

Lemma cleaning_kept b0 b q : cleaning b0 (Some q) b → content b !! q = Some KDir.
Proof. intros (t' & -> & _ & Hkeep). by apply Hkeep. Qed.

Lemma cleanup_channel_cleaning b0 keep removed ch_dir b d n :
  ch_dir = d ++ [n] →
  (∀ q, keep = Some q → (length q < length ch_dir)%nat) →
  cleaning b0 keep b →
  ∃ removed' b', cleanup_channel removed ch_dir b = (Ret removed', b')
                 ∧ cleaning b0 keep b'.
Proof.
  intros -> Hkeep Hb. unfold cleanup_channel, bind at 1, fs_is_dir at 1, gets at 1.
  destruct (Fs.is_dir (content b) (d ++ [n])) eqn:Hdir; cbn [negb]; [|by exists removed, b].
  unfold bind at 1, fs_iterdir at 1, bind at 1, gets at 1, lift at 1.
  rewrite iterdir_dir by done.
  destruct (for_accM_invariant (cleaning b0 keep) cleanup_category
              ((λ k, (d ++ [n]) ++ [k]) <$> Fs.listdir (content b) (d ++ [n])))
    with (acc := removed) (s := b) as (removed1 & b1 & Hloop & Hb1); [|done|].
  { intros acc x s Hx Hs. apply list_elem_of_fmap in Hx as (k & -> & _).
    eapply cleanup_category_cleaning; [done| |done].
    intros E. specialize (Hkeep _ E). rewrite !length_app in Hkeep. simpl in Hkeep. lia. }
  unfold bind at 1. rewrite Hloop.
  unfold bind at 1, fs_is_dir at 1, gets at 1.
  destruct (Fs.is_dir (content b1) (d ++ [n])) eqn:Hdir1; cbn [negb]; [|by exists removed1, b1].
  unfold bind at 1, fs_iterdir at 1, bind at 1, gets at 1, lift at 1.
  rewrite iterdir_dir by done.
  destruct (Fs.listdir (content b1) (d ++ [n])) as [|m ms] eqn:Hls; simpl;
    [|by exists removed1, b1].
  apply is_dir_child in Hdir1.
  destruct (fs_rmdir_cleaning b0 keep b1 (d ++ [n])) as (b2 & Hrm & Hb2); try done.
  { intros E. specialize (Hkeep _ E). lia. }
  unfold bind at 1. rewrite Hrm. by exists (removed1 + 1), b2.
Qed.

Lemma cleanup_month_cleaning b0 removed n b :
  package_info_is_file (content b0) →
  cleaning b0 None b →
  ∃ removed' b', cleanup_month removed [n] b = (Ret removed', b') ∧ cleaning b0 None b'.
Proof.
  intros Hpkg Hb. unfold cleanup_month, bind at 1, fs_is_dir at 1, gets at 1.
  destruct (Fs.is_dir (content b) [n]) eqn:Hdir; cbn [negb orb]; [|by exists removed, b].
  destruct (Text.is_month_name (Fs.name [n])); cbn [negb]; [|by exists removed, b].
  unfold bind at 1, fs_iterdir at 1, bind at 1, gets at 1, lift at 1.
  rewrite iterdir_dir by done.
  apply (is_dir_child _ []) in Hdir. simpl in Hdir.
  destruct (for_accM_invariant (cleaning b0 (Some [n])) cleanup_channel
              ((λ k, [n] ++ [k]) <$> Fs.listdir (content b) [n]))
    with (acc := removed) (s := b) as (removed1 & b1 & Hloop & Hb1);
    [|by apply cleaning_keep|].
  { intros acc x s Hx Hs. apply list_elem_of_fmap in Hx as (k & -> & _).
    eapply cleanup_channel_cleaning; [done| |done].
    intros q [= <-]. simpl. lia. }
  unfold bind at 1. rewrite Hloop.
  pose proof (cleaning_kept _ _ _ Hb1) as Hn1.
  unfold bind at 1, fs_iterdir at 1, bind at 1, gets at 1, lift at 1.
  rewrite iterdir_dir by (by apply (is_dir_child _ [])).
  set (ls := Fs.listdir (content b1) [n]).
  destruct (decide (ls = [])) as [Hnil|Hsome].
  - rewrite Hnil. cbn [fmap list_fmap bool_decide orb for_each].
    rewrite bool_decide_eq_true_2 by done. cbn [orb].
    unfold bind at 1, ret at 1.
    destruct (fs_rmdir_cleaning b0 None b1 [n]) as (b2 & Hrm & Hb2);
      [by eapply cleaning_forget|done|done|done|].
    unfold bind at 1. rewrite Hrm. by exists (removed1 + 1), b2.
  - rewrite (bool_decide_eq_false_2 (_ <$> ls = [])) by (by destruct ls).
    cbn [orb]. rewrite <- list_fmap_compose.
    rewrite (list_fmap_ext (Fs.name ∘ (λ k, [n] ++ [k])) id ls)
      by (intros; apply (name_child [n])).
    rewrite list_fmap_id.
    destruct (decide (ls = ["package_info.json"%string])) as [Hpk|Hother];
      [|rewrite bool_decide_eq_false_2 by done; exists removed1, b1;
        split; [done|by eapply cleaning_forget]].
    rewrite bool_decide_eq_true_2 by done. rewrite Hpk.
    cbn [fmap list_fmap for_each app].
    destruct Hb1 as (t1 & -> & Hshrunk & Hkeep). simpl in Hn1, ls.
    assert (Hin : is_Some (t1 !! [n; "package_info.json"%string])).
    { apply (elem_of_listdir t1 [n]). fold ls. rewrite Hpk. by left. }
    destruct Hin as [k Hk].
    destruct k as [size|].
    2:{ exfalso. apply (Hpkg n). destruct Hshrunk as [Hsub _].
        by eapply lookup_weaken. }
    unfold bind at 1, bind at 1, fs_unlink at 1, bind at 1, gets at 1. simpl.
    rewrite Hk. unfold modify at 1, ret at 1. simpl.
    set (t2 := delete [n; "package_info.json"%string] t1).
    destruct (fs_rmdir_cleaning b0 None (set_content t2 b0) [n]) as (b2 & Hrm & Hb2).
    + exists t2. split; [done|]. split; [by apply shrunk_delete_short|done].
    + simpl. unfold t2. by rewrite lookup_delete_ne.
    + simpl. apply listdir_nil_iff. intros m. unfold t2.
      destruct (decide (m = "package_info.json"%string)) as [->|Hm].
      * apply (lookup_delete_eq t1).
      * change ([n] ++ [m]) with [n; m]. rewrite lookup_delete_ne by congruence.
        apply eq_None_not_Some. rewrite <- (elem_of_listdir t1 [n] m). fold ls.
        rewrite Hpk. set_solver.
    + done.
    + change (set_content t2 (set_content t1 b0)) with (set_content t2 b0).
      unfold bind at 1. rewrite Hrm. by exists (removed1 + 1), b2.
Qed.

(** [cleanup_empty_dirs] does not raise on a tree in which no
    directory is called [package_info.json]; it changes the tree only,
    removes directories and files two levels down, and leaves every
    other file. *)
Lemma cleanup_empty_dirs_shrinks b :
  package_info_is_file (content b) →
  ∃ removed t',
    cleanup_empty_dirs b = (Ret removed, set_content t' b) ∧ shrunk (content b) t'.
Proof.
  intros Hpkg. rewrite cleanup_empty_dirs_loops.
  unfold bind at 1, bind at 1, gets at 1, lift at 1, Fs.sorted_iterdir. simpl.
  destruct (for_accM_invariant (cleaning b None) cleanup_month
              ((λ n, [n]) <$> merge_sort String.le (Fs.listdir (content b) [])))
    with (acc := 0) (s := b) as (removed & b' & Hloop & (t' & -> & Hshrunk & _)).
  - intros acc x s Hx Hs. apply list_elem_of_fmap in Hx as (n & -> & _).
    by apply cleanup_month_cleaning.
  - exists (content b). rewrite set_content_id. split; [done|]. split; [apply shrunk_refl|done].
  - by exists removed, t'.
Qed.

(** ** Choosing a file *)

Lemma for_acc_fixed {A B} (body : B → A → outcome B) (acc : B) l :
  (∀ x, x ∈ l → body acc x = Ret acc) → for_acc body acc l = Ret acc.
Proof.
  induction l as [|x l IH]; intros H; simpl; [done|].
  rewrite H by left. simpl. apply IH. intros ? ?. apply H. by right.
Qed.

Lemma month_dirs_spec (t : tree) :
  ∃ months, month_dirs t = Ret months
            ∧ ∀ m, m ∈ months →
                   ∃ n, m = [n] ∧ t !! [n] = Some KDir ∧ Text.is_month_name n = true.
Proof.
  unfold month_dirs. simpl. eexists. split; [reflexivity|].
  intros m Hm. apply list_elem_of_In, filter_In in Hm as [Hm Hcond].
  apply list_elem_of_In, list_elem_of_fmap in Hm as (n & -> & _).
  apply andb_true_iff in Hcond as [Hdir Hname]. exists n. split; [done|].
  split; [by apply (is_dir_child _ [])|]. exact Hname.
Qed.

Lemma supported_files_spec (fmt : list string) (t : tree) (d : path) (n : string) :
  t !! (d ++ [n]) = Some KDir →
  ∃ fs, supported_files fmt t (d ++ [n]) = Ret fs
        ∧ ∀ f, f ∈ fs ↔ ∃ x, f = d ++ [n] ++ [x]
                              ∧ is_Some (t !! f)
                              ∧ Text.lower (Text.suffix x) ∈ fmt.
Proof.
  intros Hdir. unfold supported_files. rewrite iterdir_dir by (by apply is_dir_child).
  eexists. split; [reflexivity|]. intros f.
  rewrite list_elem_of_In, filter_In, <- list_elem_of_In, list_elem_of_fmap. split.
  - intros [(x & -> & Hx) Hs]. exists x. rewrite <- app_assoc.
    split; [done|]. split.
    + apply elem_of_listdir in Hx. by rewrite <- app_assoc in Hx.
    + apply bool_decide_eq_true in Hs. by rewrite name_child in Hs.
  - intros (x & -> & Hx & Hs). rewrite app_assoc. split.
    + exists x. split; [done|]. apply elem_of_listdir. by rewrite <- app_assoc.
    + apply bool_decide_eq_true. by rewrite name_child.
Qed.

(** A channel without assets gets no image. *)
Lemma no_assets_no_image (cfg : config) (t : tree) (pick : nat) (ch : string) :
  is_Some (dict_get (channels cfg) ch) →
  channel_dirs_ok t ch →
  (∀ p, ¬ asset_of cfg t ch p) →
  get_random_image cfg t pick ch = Ret None.
Proof.
  intros [ch_cfg Hcfg] Hok Hnone. unfold get_random_image.
  destruct (month_dirs_spec t) as (months & -> & Hmonths). simpl.
  destruct months as [|m0 months0] eqn:Hm; [done|]. rewrite <- Hm in *.
  rewrite (dict_item_get _ _ _ Hcfg). simpl.
  unfold candidate_images. rewrite for_acc_fixed; [done|].
  intros m Hin. destruct (Hmonths m Hin) as (n & -> & Hn & Hname).
  destruct (t !! ([n] ++ [ch])) as [[size|]|] eqn:Hch; [by destruct (Hok n size)| |].
  2:{ by rewrite (proj2 (exists_child_false t [n] ch)). }
  rewrite (proj2 (exists_child_true t [n] ch)) by (by rewrite Hch). cbn [negb].
  rewrite iterdir_dir by (by apply (is_dir_child _ [n])).
  change (Ret ?l ≫= ?f) with (f l). cbn beta.
  apply for_acc_fixed. intros cat_dir Hcat.
  apply list_elem_of_fmap in Hcat as (cat & -> & _).
  destruct (Fs.is_dir t (([n] ++ [ch]) ++ [cat])) eqn:Hdir; cbn [negb]; [|done].
  apply is_dir_child in Hdir.
  destruct (supported_files_spec (get_supported_formats cfg) t ([n] ++ [ch]) cat Hdir)
    as (fs & Hfs & Hspec).
  rewrite Hfs. change (Ret ?l ≫= ?f) with (f l). cbn beta.
  destruct fs as [|f fs]; [done|]. exfalso.
  destruct (proj1 (Hspec f)) as (x & -> & Hx & Hs); [by left|].
  apply (Hnone (([n] ++ [ch]) ++ [cat] ++ [x])). by exists n, cat, x.
Qed.

(** ** What a check of the monitor leaves alone *)

Lemma same_rotation_refl b : same_rotation b b.
Proof. by repeat split. Qed.

Lemma same_rotation_trans b1 b2 b3 :
  same_rotation b1 b2 → same_rotation b2 b3 → same_rotation b1 b3.
Proof.
  intros (?&?&?&?&?&?&?) (?&?&?&?&?&?&?).
  repeat split; try congruence. by etrans.
Qed.

Lemma for_each_frame {A} (R : bot → bot → Prop) (body : A → M bot unit) l :
  (∀ s, R s s) → (∀ s1 s2 s3, R s1 s2 → R s2 s3 → R s1 s3) →
  (∀ x s, R s (body x s).2) →
  ∀ s, R s (for_each body l s).2.
Proof.
  intros Hrefl Htrans Hbody. induction l as [|x l IH]; intros s; simpl; [done|].
  unfold bind. pose proof (Hbody x s) as Hx.
  destruct (body x s) as [[[]|e] s1]; simpl in *; [|done].
  eapply Htrans; [done|apply IH].
Qed.

Lemma warn_if_new_frame threshold item b : same_rotation b (warn_if_new threshold item b).2.
Proof.
  destruct item as [ch_key count]. unfold warn_if_new, bind, self_get, gets. simpl.
  destruct (bool_decide _); simpl; [apply same_rotation_refl|].
  unfold lift, dict_item.
  destruct (dict_get _ _); simpl; [|apply same_rotation_refl].
  repeat split; simpl; try done. by apply prefix_app_r.
Qed.

Lemma forget_if_refilled_frame low ch_key b :
  same_rotation b (forget_if_refilled low ch_key b).2.
Proof.
  unfold forget_if_refilled. destruct (bool_decide _); simpl; by repeat split.
Qed.

Lemma _check_low_content_frame b : same_rotation b (_check_low_content b).2.
Proof.
  rewrite _check_low_content_loops. unfold bind at 1, gets at 1. cbn beta iota.
  unfold bind at 1, gets at 1. cbn beta iota. unfold bind at 1, lift at 1.
  destruct (get_low_content_channels _ _ _) as [low|e]; simpl; [|apply same_rotation_refl].
  unfold bind at 1.
  pose proof (for_each_frame same_rotation (warn_if_new
                (default DEFAULT_LOW_CONTENT_THRESHOLD (low_content_threshold (CONFIG b))))
                low same_rotation_refl same_rotation_trans
                (warn_if_new_frame _) b) as H1.
  destruct (for_each _ low b) as [[[]|e] b1]; simpl in *; [|done].
  unfold bind, self_get, gets. simpl.
  eapply same_rotation_trans; [done|].
  apply for_each_frame;
    [apply same_rotation_refl|apply same_rotation_trans|apply forget_if_refilled_frame].
Qed.

(** ** A tick without content *)

Lemma post_and_delete_no_content env ch b :
  is_Some (dict_get (channels (CONFIG b)) ch) →
  channel_dirs_ok (content b) ch →
  (∀ p, ¬ asset_of (CONFIG b) (content b) ch p) →
  post_and_delete env ch b = (Ret (Failed no_content no_content_details), b).
Proof.
  intros Hcfg Hok Hnone. unfold post_and_delete, bind at 1, gets at 1. cbn beta iota.
  destruct Hcfg as [ch_cfg Hcfg].
  unfold bind at 1, lift at 1. rewrite (dict_item_get _ _ _ Hcfg).
  unfold bind at 1, gets at 1. cbn beta iota.
  unfold bind at 1, lift at 1. rewrite no_assets_no_image; [reflexivity|by eexists|done|done].
Qed.

Lemma count_channel_files_none (cfg : config) (t : tree) (ch : string) :
  channel_dirs_ok t ch →
  (∀ p, ¬ asset_of cfg t ch p) →
  count_channel_files cfg t ch = Ret (0, []).
Proof.
  intros Hok Hnone. unfold count_channel_files.
  change (Fs.iterdir t []) with (Ret ((λ n, [] ++ [n]) <$> Fs.listdir t [])).
  change (Ret ?l ≫= ?f) with (f l). cbn beta.
  apply for_acc_fixed. intros m Hm.
  apply list_elem_of_fmap in Hm as (n & -> & _).
  destruct (Fs.is_dir t ([] ++ [n])) eqn:Hn; cbn [andb]; [|done].
  rewrite (name_child []).
  destruct (Text.is_month_name n) eqn:Hname; [|done].
  apply is_dir_child in Hn.
  destruct (t !! (([] ++ [n]) ++ [ch])) as [[size|]|] eqn:Hch; [by destruct (Hok n size)| |].
  2:{ by rewrite (proj2 (exists_child_false t _ ch)). }
  rewrite (proj2 (exists_child_true t _ ch)) by (by rewrite Hch).
  rewrite iterdir_dir by (by apply is_dir_child).
  change (Ret ?l ≫= ?f) with (f l). cbn beta.
  apply for_acc_fixed. intros cat_dir Hcat.
  apply list_elem_of_fmap in Hcat as (cat & -> & _).
  destruct (Fs.is_dir t ((([] ++ [n]) ++ [ch]) ++ [cat])) eqn:Hdir; [|done].
  apply is_dir_child in Hdir.
  destruct (supported_files_spec (get_supported_formats cfg) t (([] ++ [n]) ++ [ch]) cat Hdir)
    as (fs & Hfs & Hspec).
  rewrite Hfs. change (Ret ?l ≫= ?f) with (f l). cbn beta.
  destruct fs as [|f fs]; [done|]. exfalso.
  destruct (proj1 (Hspec f)) as (x & -> & Hx & Hs); [by left|].
  apply (Hnone ((([] ++ [n]) ++ [ch]) ++ [cat] ++ [x])). by exists n, cat, x.
Qed.

(** The diagnostic of a tick that found no content for [ch]. *)
Lemma _posting_tick_no_content env b ch :
  default 0 (first_post_hour (CONFIG b)) ≤ hour (now b)
    < default 24 (last_post_hour (CONFIG b)) →
  0 ≤ current_channel_index (poster b) →
  channels_list (poster b) !! Z.to_nat (current_channel_index (poster b)) = Some ch →
  ch ≠ EmptyString →
  is_Some (dict_get (channels (CONFIG b)) ch) →
  channel_dirs_ok (content b) ch →
  (∀ p, ¬ asset_of (CONFIG b) (content b) ch p) →
  same_rotation
    (send (ToAdmins (admin_ids (CONFIG b))
             (PostingDiagnostic
                {| diag_channel := ch; diag_reason := no_content; diag_hint := None;
                   diag_details := no_content_details; diag_file_count := 0;
                   diag_folders := [] |}))
          (after_next b))
    (_posting_tick env b).2.
Proof.
  intros Hhour Hi Hch Hne Hcfg Hok Hnone.
  unfold _posting_tick, bind at 1, gets at 1. cbn beta iota.
  unfold bind at 1, gets at 1. cbn beta iota.
  destruct (Z.leb_spec (default 0 (first_post_hour (CONFIG b))) (hour (now b))); [|lia].
  destruct (Z.ltb_spec (hour (now b)) (default 24 (last_post_hour (CONFIG b)))); [|lia].
  cbn [andb negb]. unfold bind at 1.
  rewrite (get_next_channel_in_range b ch) by done.
  destruct ch as [|c ch]; [done|].
  unfold bind at 1.
  rewrite post_and_delete_no_content by done.
  unfold bind at 1, bind at 1, gets at 1. cbn beta iota.
  destruct Hcfg as [ch_cfg Hcfg].
  unfold bind at 1, lift at 1.
  change (CONFIG (after_next b)) with (CONFIG b). rewrite (dict_item_get _ _ _ Hcfg).
  unfold bind at 1, gets at 1. cbn beta iota.
  unfold bind at 1, lift at 1.
  change (content (after_next b)) with (content b).
  rewrite count_channel_files_none by done.
  unfold modify at 1. cbn [fst snd take api_hint].
  apply _check_low_content_frame.
Qed.

(** ** The file of a tick *)

Lemma iterdir_children (t : tree) (d : path) (l : list path) :
  Fs.iterdir t d = Ret l → ∀ p, p ∈ l → ∃ x, p = d ++ [x].
Proof.
  unfold Fs.iterdir. destruct (Fs.is_dir t d); [|by destruct (Fs.exists_ t d)].
  intros [= <-] p Hp. apply list_elem_of_fmap in Hp as (x & -> & _). by exists x.
Qed.

Lemma supported_files_children (fmt : list string) (t : tree) (d : path) (fs : list path) :
  supported_files fmt t d = Ret fs → ∀ p, p ∈ fs → ∃ x, p = d ++ [x].
Proof.
  unfold supported_files. destruct (Fs.iterdir t d) as [l|] eqn:Hl; simpl; [|done].
  intros [= <-] p Hp. apply list_elem_of_In, filter_In in Hp as [Hp _].
  apply list_elem_of_In in Hp. by eapply iterdir_children.
Qed.

(** The files [get_random_image] chooses from lie four levels down. *)
Lemma candidate_images_depth (cfg : config) (t : tree) (ch_cfg : channel_cfg)
    (ch : string) (months : list path) (images : list image) :
  (∀ m, m ∈ months → length m = 1%nat) →
  candidate_images cfg t ch_cfg ch months = Ret images →
  ∀ img, img ∈ images → length (img_path img) = 4%nat.
Proof.
  intros Hmonths. unfold candidate_images.
  apply (for_acc_invariant (λ images, ∀ img, img ∈ images → length (img_path img) = 4%nat)).
  - by intros img ?%elem_of_nil.
  - intros acc m acc' Hacc Hm.
    destruct (Fs.exists_ t (m ++ [ch])); cbn [negb]; [|by intros [= <-]].
    destruct (Fs.iterdir t (m ++ [ch])) as [cat_dirs|] eqn:Hcats; simpl; [|done].
    apply (for_acc_invariant
             (λ images, ∀ img, img ∈ images → length (img_path img) = 4%nat)); [done|].
    intros acc1 cat_dir acc2 Hacc1 Hcat.
    destruct (Fs.is_dir t cat_dir); cbn [negb]; [|by intros [= <-]].
    destruct (supported_files _ t cat_dir) as [fs|] eqn:Hfs; simpl; [|done].
    intros [= <-] img. rewrite elem_of_app, list_elem_of_fmap.
    intros [?|(f & -> & Hf)]; [by apply Hacc1|]. simpl.
    destruct (supported_files_children _ _ _ _ Hfs f Hf) as (x & ->).
    destruct (iterdir_children _ _ _ Hcats cat_dir Hcat) as (c & ->).
    rewrite !length_app, (Hmonths m Hm). done.
Qed.

Lemma random_choice_elem {A} (pick : nat) (l : list A) (x : A) :
  random_choice pick l = Some x → x ∈ l.
Proof.
  unfold random_choice. destruct l as [|y l]; [done|].
  intros H. by eapply list_elem_of_lookup_2.
Qed.

Lemma get_random_image_depth (cfg : config) (t : tree) (pick : nat) (ch : string)
    (img : image) :
  get_random_image cfg t pick ch = Ret (Some img) → length (img_path img) = 4%nat.
Proof.
  unfold get_random_image.
  destruct (month_dirs_spec t) as (months & -> & Hmonths). simpl.
  destruct months as [|m0 months0] eqn:Hm; [done|]. rewrite <- Hm in *.
  destruct (dict_item (channels cfg) ch) as [ch_cfg|]; simpl; [|done].
  destruct (candidate_images cfg t ch_cfg ch months) as [images|] eqn:Himgs; simpl; [|done].
  intros [= Hpick]. apply random_choice_elem in Hpick.
  eapply candidate_images_depth; [|done..].
  intros m Hin. by destruct (Hmonths m Hin) as (n & -> & _).
Qed.

(** ** A post whose file cannot be deleted *)

Lemma post_and_delete_kept env ch b ch_cfg img size :
  dict_get (channels (CONFIG b)) ch = Some ch_cfg →
  get_random_image (CONFIG b) (content b) (pick env) ch = Ret (Some img) →
  content b !! img_path img = Some (KFile size) →
  api_error env = None →
  unlink_refused env = true →
  package_info_is_file (content b) →
  ∃ removed t',
    let b1 := set_poster (set_last_send_error None (poster b))
                (send (ToChannel (method_for (img_path img)) (ch_channel_id ch_cfg)
                         (img_path img) (join_space (img_hashtags img))) b) in
    let b2 := set_poster (set_last_post_time (Some (now b)) (poster b1))
                (set_content t' b1) in
    cleanup_empty_dirs b1 = (Ret removed, set_content t' b1)
    ∧ shrunk (content b) t'
    ∧ post_and_delete env ch b = (Ret Published, set_STATE_FILE (Json (state_of b2)) b2).
Proof.
  intros Hcfg Himg Hfile Hapi Hrefused Hpkg.
  pose proof (get_random_image_depth _ _ _ _ _ Himg) as Hdepth.
  destruct (cleanup_empty_dirs_shrinks
              (set_poster (set_last_send_error None (poster b))
                 (send (ToChannel (method_for (img_path img)) (ch_channel_id ch_cfg)
                          (img_path img) (join_space (img_hashtags img))) b)))
    as (removed & t' & Hclean & Hshrunk); [exact Hpkg|].
  exists removed, t'. cbn zeta.
  split; [exact Hclean|]. split; [exact Hshrunk|].
  unfold post_and_delete, bind at 1, gets at 1. cbn beta iota.
  unfold bind at 1, lift at 1. rewrite (dict_item_get _ _ _ Hcfg).
  unfold bind at 1, gets at 1. cbn beta iota.
  unfold bind at 1, lift at 1. rewrite Himg.
  unfold bind at 1, gets at 1. cbn beta iota.
  assert (Hex : Fs.exists_ (content b) (img_path img) = true).
  { destruct (img_path img); [done|]. simpl. apply bool_decide_eq_true. by rewrite Hfile. }
  rewrite Hex. cbn [negb].
  unfold bind at 1. rewrite send_file_method.
  unfold try_except, bind at 1, fs_open, bind at 1, gets at 1.
  cbn beta iota. rewrite Hfile, Hapi. unfold ret at 1.
  unfold bind at 1, modify at 1. unfold bind at 1, self_set at 1, modify at 1.
  unfold ret at 1. cbn beta iota.
  unfold bind at 1, try_except. rewrite Hrefused. unfold raise at 1, ret at 1.
  change (poster (send ?x b)) with (poster b).
  unfold bind at 1. rewrite Hclean. reflexivity.
Qed.

(** C3.  A tick in the posting window that selects a channel without
    assets: [post_and_delete] returns the failure [no_content] and
    leaves the state as the selection left it; at the end of the tick no
    file is gone, the last post time is what it was, and the index is
    the one the selection advanced to; the admins are sent the
    diagnostic of the failure.  In the installation with the channels
    [A] and [B], one picture for [A] and none for [B], the first tick
    posts the picture to [A], deletes it and leaves the index at 1; the
    second tick selects [B], reports [no_content] and leaves the index
    at 0. *)
Theorem no_content_keeps_rotation (b : bot) (env : tick_env) (ch : string) :
  default 0 (first_post_hour (CONFIG b)) ≤ hour (now b)
    < default 24 (last_post_hour (CONFIG b)) →
  0 ≤ current_channel_index (poster b) →
  channels_list (poster b) !! Z.to_nat (current_channel_index (poster b)) = Some ch →
  ch ≠ EmptyString →
  is_Some (dict_get (channels (CONFIG b)) ch) →
  channel_dirs_ok (content b) ch →
  (∀ p, ¬ asset_of (CONFIG b) (content b) ch p) →
  let selected := get_next_channel b in
  let b' := (_posting_tick env b).2 in
  selected.1 = Ret (Some ch)
  ∧ (∃ details,
       post_and_delete env ch selected.2 = (Ret (Failed no_content details), selected.2)
       ∧ ∃ rest,
           outbox b'
           = outbox b
             ++ [ToAdmins (admin_ids (CONFIG b))
                   (PostingDiagnostic
                      {| diag_channel := ch; diag_reason := no_content; diag_hint := None;
                         diag_details := details; diag_file_count := 0;
                         diag_folders := [] |})]
             ++ rest)
  ∧ content b' = content b
  ∧ last_post_time (poster b') = last_post_time (poster b)
  ∧ current_channel_index (poster b')
    = (current_channel_index (poster b) + 1) mod Z.of_nat (length (channels_list (poster b)))
  ∧ (let tick1 := _posting_tick Demo.fine Demo.bot in
     let tick2 := _posting_tick Demo.fine tick1.2 in
     let picture := ["2024-05"; "A"; "art"; "pic.jpg"]%string in
     channels_list (poster Demo.bot) = ["A"; "B"]%string
     ∧ current_channel_index (poster Demo.bot) = 0
     ∧ content Demo.bot !! picture = Some (KFile 2048)
     ∧ outbox tick1.2
       = [ToChannel send_photo "@a" picture "#alpha";
          ToAdmins [1001] (LowContentAlert "A" "Alpha" 0 10);
          ToAdmins [1001] (LowContentAlert "B" "Beta" 0 10)]
     ∧ content tick1.2 !! picture = None
     ∧ current_channel_index (poster tick1.2) = 1
     ∧ (∃ details,
          outbox tick2.2
          = outbox tick1.2
            ++ [ToAdmins [1001]
                  (PostingDiagnostic
                     {| diag_channel := "B"; diag_reason := no_content; diag_hint := None;
                        diag_details := details; diag_file_count := 0;
                        diag_folders := [] |})])
     ∧ content tick2.2 = content tick1.2
     ∧ last_post_time (poster tick2.2) = last_post_time (poster tick1.2)
     ∧ current_channel_index (poster tick2.2) = 0).
Proof.
  intros Hhour Hi Hch Hne Hcfg Hok Hnone selected b'.
  pose proof (_posting_tick_no_content env b ch Hhour Hi Hch Hne Hcfg Hok Hnone) as Hframe.
  fold b' in Hframe.
  destruct Hframe as (Hcontent & _ & _ & _ & Hindex & Hlast & Hsent).
  subst selected. rewrite (get_next_channel_in_range b ch) by done.
  split; [done|]. split; [|split; [done|split; [done|split; [done|]]]].
  - exists no_content_details.
    split; [by apply post_and_delete_no_content|].
    destruct Hsent as [rest Hrest]. exists rest. rewrite Hrest. simpl.
    by rewrite <- app_assoc.
  - intros tick1 tick2 picture.
    split; [vm_compute; reflexivity|]. split; [vm_compute; reflexivity|].
    split; [vm_compute; reflexivity|]. split; [vm_compute; reflexivity|].
    split; [vm_compute; reflexivity|]. split; [vm_compute; reflexivity|].
    split; [exists no_content_details; vm_compute; reflexivity|].
    split; [vm_compute; reflexivity|]. split; vm_compute; reflexivity.
Qed.

Lemma no_content_keeps_rotation_witness :
  let b := (_posting_tick Demo.fine Demo.bot).2 in
  let b' := (_posting_tick Demo.fine b).2 in
  content b' = content b
  ∧ last_post_time (poster b') = last_post_time (poster b)
  ∧ current_channel_index (poster b') = 0.
Proof.
  intros b b'.
  destruct (no_content_keeps_rotation b Demo.fine "B")
    as (_ & _ & Hcontent & Hlast & Hindex & _).
  - by vm_compute.
  - by vm_compute.
  - vm_compute. reflexivity.
  - discriminate.
  - vm_compute. eexists. reflexivity.
  - intros month size H. vm_compute in H. discriminate H.
  - intros p (month & cat & file & _ & _ & H & _). vm_compute in H. discriminate H.
  - split; [exact Hcontent|]. split; [exact Hlast|].
    etrans; [exact Hindex|]. vm_compute. reflexivity.
Defined.

(** C10.  When the Bot API accepts the post of a chosen file and the
    deletion of the file is refused, [post_and_delete] still returns
    the success outcome; the last post time is the present instant and
    the state file holds the record with it; the file is still in the
    content tree; the refusal leaves no trace in the outcome nor in what
    is sent, which is the post alone.  The tree has no directory called
    [package_info.json], which [cleanup_empty_dirs] would try to
    unlink. *)
Theorem refused_deletion_still_published (b : bot) (env : tick_env) (ch : string)
    (ch_cfg : channel_cfg) (img : image) (size : Z) :
  dict_get (channels (CONFIG b)) ch = Some ch_cfg →
  get_random_image (CONFIG b) (content b) (pick env) ch = Ret (Some img) →
  content b !! img_path img = Some (KFile size) →
  api_error env = None →
  unlink_refused env = true →
  package_info_is_file (content b) →
  ∃ b' record,
    post_and_delete env ch b = (Ret Published, b')
    ∧ last_post_time (poster b') = Some (now b)
    ∧ STATE_FILE b' = Json record
    ∧ rec_last_post_time record = TsIso (now b)
    ∧ rec_current_channel_index record = Some (current_channel_index (poster b))
    ∧ content b' !! img_path img = Some (KFile size)
    ∧ outbox b'
      = outbox b ++ [ToChannel (method_for (img_path img)) (ch_channel_id ch_cfg)
                       (img_path img) (join_space (img_hashtags img))]
    ∧ _last_send_error (poster b') = None.
Proof.
  intros Hcfg Himg Hfile Hapi Hrefused Hpkg.
  destruct (post_and_delete_kept env ch b ch_cfg img size Hcfg Himg Hfile Hapi Hrefused Hpkg)
    as (removed & t' & _ & [_ Hfiles] & Hrun).
  eexists _, _. split; [exact Hrun|]. cbn.
  split; [reflexivity|]. split; [reflexivity|]. split; [reflexivity|].
  split; [reflexivity|]. split; [|split; reflexivity].
  apply Hfiles; [exact Hfile|].
  intros month E. pose proof (get_random_image_depth _ _ _ _ _ Himg) as Hdepth.
  by rewrite E in Hdepth.
Qed.

Lemma demo_package_info_is_file : package_info_is_file (content Demo.bot).
Proof.
  intros month. change (content Demo.bot) with Demo.tree.
  unfold Demo.tree. cbn [list_to_map foldr fst snd uncurry].
  rewrite lookup_insert_ne by done. rewrite lookup_insert.
  destruct (decide _); [done|]. by rewrite !lookup_insert_ne, lookup_empty.
Qed.

Lemma refused_deletion_still_published_witness :
  let env := {| pick := 0; api_error := None; unlink_refused := true |} in
  let picture := ["2024-05"; "A"; "art"; "pic.jpg"]%string in
  ∃ b',
    post_and_delete env "A" Demo.bot = (Ret Published, b')
    ∧ last_post_time (poster b') = Some 0
    ∧ content b' !! picture = Some (KFile 2048).
Proof.
  intros env picture.
  destruct (refused_deletion_still_published Demo.bot env "A"
              (Demo.channel "@a" "Alpha" "#alpha")
              {| img_path := picture; img_category := "art"; img_hashtags := ["#alpha"%string] |}
              2048)
    as (b' & record & Hrun & Hlast & _ & _ & _ & Hkept & _).
  - vm_compute. reflexivity.
  - vm_compute. reflexivity.
  - vm_compute. reflexivity.
  - reflexivity.
  - reflexivity.
  - apply demo_package_info_is_file.
  - exists b'. split; [exact Hrun|]. split; [exact Hlast|exact Hkept].
Defined.

(** ** The album aggregator *)

Lemma filter_filter_comm {A} (f g : A → bool) (l : list A) :
  List.filter f (List.filter g l) = List.filter g (List.filter f l).
Proof.
  induction l as [|x l IH]; simpl; [done|].
  destruct (f x) eqn:Hf, (g x) eqn:Hg; simpl; rewrite ?Hf, ?Hg, IH; done.
Qed.

Lemma filter_andb {A} (f g : A → bool) (l : list A) :
  List.filter (λ x, f x && g x) l = List.filter g (List.filter f l).
Proof.
  induction l as [|x l IH]; simpl; [done|].
  destruct (f x) eqn:Hf; simpl; [|done]. destruct (g x); by rewrite IH.
Qed.

Lemma due_once_filter t q :
  due_once t q = merge_sort due_le (List.filter (λ j, job_due j <=? t) (once_jobs q)).
Proof. unfold due_once, once_jobs. by rewrite filter_andb. Qed.

Lemma run_due_albums_idle env t g b :
  album_idle g b → run_due_albums env t b = (Ret [], b).
Proof.
  intros (_ & _ & Hq). unfold run_due_albums, bind, gets. simpl.
  by rewrite due_once_filter, Hq.
Qed.

Lemma run_due_albums_early env t g msgs due b :
  album_pending g msgs due b → t < due → run_due_albums env t b = (Ret [], b).
Proof.
  intros (_ & j & _ & Hq & _ & Hdue) Ht. unfold run_due_albums, bind, gets. simpl.
  rewrite due_once_filter, Hq. simpl.
  destruct (Z.leb_spec (job_due j) t); [lia|]. done.
Qed.

Lemma handle_album_message_idle g msg b :
  media_group_id msg = Some g →
  album_idle g b →
  ∃ b', handle_album_message msg b = (Ret tt, b')
        ∧ album_pending g [msg] (now b + seconds 2) b'
        ∧ outbox b' = outbox b ∧ content b' = content b ∧ CONFIG b' = CONFIG b.
Proof.
  intros Hg (Hbuf & Htimer & Hq).
  unfold handle_album_message. rewrite Hg. cbn [default].
  unfold bind, gets, modify, run_job, schedule_removal, get, ret. simpl.
  rewrite Hbuf, Htimer. simpl.
  eexists. split; [reflexivity|]. simpl. split; [|done].
  unfold album_pending. simpl.
  split; [by rewrite lookup_insert_eq|].
  exists {| job_id := next_job_id b; job_name := "album_" +:+ g; job_data := g;
            job_due := now b + seconds 2; job_interval := None |}.
  split; [by rewrite lookup_insert_eq|]. simpl.
  unfold once_jobs in *. rewrite List.filter_app, Hq. done.
Qed.

Lemma handle_album_message_pending g msgs due msg b :
  media_group_id msg = Some g →
  album_pending g msgs due b →
  ∃ b', handle_album_message msg b = (Ret tt, b')
        ∧ album_pending g (msgs ++ [msg]) (now b + seconds 2) b'
        ∧ outbox b' = outbox b ∧ content b' = content b ∧ CONFIG b' = CONFIG b.
Proof.
  intros Hg (Hbuf & j & Htimer & Hq & Hdata & Hdue).
  unfold handle_album_message. rewrite Hg. cbn [default].
  unfold bind, gets, modify, run_job, schedule_removal, get, ret. simpl.
  rewrite Hbuf, Htimer. simpl.
  eexists. split; [reflexivity|]. simpl. split; [|done].
  unfold album_pending. simpl.
  split; [by rewrite lookup_insert_eq|].
  exists {| job_id := next_job_id b; job_name := "album_" +:+ g; job_data := g;
            job_due := now b + seconds 2; job_interval := None |}.
  split; [by rewrite lookup_insert_eq|]. simpl.
  unfold once_jobs in *. rewrite List.filter_app, filter_filter_comm, Hq. simpl.
  by rewrite Nat.eqb_refl.
Qed.

(** The flush of a batch: every message goes through [save_file], the
    tree only grows, and one reply goes to the first message. *)
Lemma _process_album_flush env g first rest b :
  _album_buffer (uploader b) !! g = Some (first :: rest) →
  targets_free (CONFIG b) (content b) →
  ∃ r t',
    _process_album env g b
    = (Ret (first :: rest),
       send (ReplyTo first r)
         (set_content t'
            (set_uploader
               {| _album_buffer := delete g (_album_buffer (uploader b));
                  _album_timers := delete g (_album_timers (uploader b)) |} b)))
    ∧ grown (content b) t'.
Proof.
  intros Hbuf Hfree. unfold _process_album, bind at 1, gets at 1. cbn beta iota.
  rewrite Hbuf. cbn [from_option id]. unfold bind at 1, modify at 1. cbn beta iota.
  set (b1 := set_uploader _ b).
  set (text := default EmptyString _).
  unfold bind at 1.
  match goal with
  | |- context [for_accM ?body ?acc0 (first :: rest) b1] =>
      destruct (for_accM_invariant (saving_from b1) body (first :: rest))
        with (acc := acc0) (s := b1) as (acc & b2 & Hloop & (t' & -> & Hgrown))
  end.
  - intros acc m s _ (t' & -> & Hgrown).
    destruct (_extract_file_info m) as [[[|c file_id] ext]|];
      [by exists acc, (set_content t' b1); split; [|exists t']| |
       by exists acc, (set_content t' b1); split; [|exists t']].
    destruct (save_file_safe (env m) (String c file_id) text ext (set_content t' b1))
      as (r & t'' & Hsave & Hgrown').
    { simpl. by eapply targets_free_grown. }
    unfold bind at 1. rewrite Hsave. simpl in Hgrown'.
    destruct r; eexists _, _; (split; [reflexivity|]);
      exists t''; (split; [done|]); by eapply grown_trans.
  - exists (content b). split; [by rewrite <- (set_content_id b1) at 1|apply grown_refl].
  - rewrite Hloop. destruct acc as [[saved errors] last_result].
    destruct (0 <? saved).
    + unfold bind at 1, bind at 1, gets at 1. cbn beta iota.
      destruct last_result as [[ch cat|e]|]; eexists _, t'; split; done.
    + eexists _, t'. split; done.
Qed.

Lemma run_due_albums_flush env t g first rest due b :
  album_pending g (first :: rest) due b →
  due ≤ t →
  targets_free (CONFIG b) (content b) →
  ∃ r b',
    run_due_albums env t b = (Ret [first :: rest], b')
    ∧ album_idle g b'
    ∧ outbox b' = outbox b ++ [ReplyTo first r]
    ∧ CONFIG b' = CONFIG b
    ∧ grown (content b) (content b').
Proof.
  intros (Hbuf & j & Htimer & Hq & Hdata & Hdue) Ht Hfree.
  unfold run_due_albums, bind at 1, gets at 1. cbn beta iota.
  rewrite due_once_filter, Hq. cbn [List.filter].
  destruct (Z.leb_spec (job_due j) t); [|lia].
  change (merge_sort due_le [j]) with [j]. cbn [for_accM].
  unfold bind at 1. unfold bind at 1. unfold schedule_removal. unfold modify at 1.
  cbn beta iota.
  unfold bind at 1, modify at 1. cbn beta iota.
  set (b1 := set_now _ _).
  destruct (_process_album_flush env g first rest b1) as (r & t' & Hflush & Hgrown);
    [done|done|].
  unfold bind at 1. rewrite Hdata, Hflush. cbn beta iota. unfold ret.
  eexists r, _. split; [reflexivity|]. simpl.
  split; [|done].
  split; [apply lookup_delete_eq|]. split; [apply lookup_delete_eq|].
  unfold once_jobs in *. subst b1. simpl.
  rewrite filter_filter_comm, Hq. simpl. by rewrite Nat.eqb_refl.
Qed.

Lemma for_accM_app {St A B} (body : B → A → M St B) l1 l2 acc s :
  for_accM body acc (l1 ++ l2) s
  = (do acc' <- for_accM body acc l1; for_accM body acc' l2) s.
Proof.
  revert acc s. induction l1 as [|x l1 IH]; intros acc s; [done|].
  cbn [for_accM app]. unfold bind.
  destruct (body acc x s) as [[acc1|e] s1]; [|done]. rewrite IH. done.
Qed.

(** Arrivals that each come before the pending flush only lengthen the
    batch and move the flush. *)
Lemma arrivals_keep_pending env g arrivals : ∀ b msgs due flushed,
  album_pending g msgs due b →
  Forall (λ a : Z * message, media_group_id a.2 = Some g) arrivals →
  quiet_chain due arrivals →
  ∃ b',
    for_accM (on_arrival env) flushed arrivals b = (Ret flushed, b')
    ∧ album_pending g (msgs ++ arrivals.*2) (last_due due arrivals) b'
    ∧ outbox b' = outbox b ∧ content b' = content b ∧ CONFIG b' = CONFIG b.
Proof.
  induction arrivals as [|[t m] arrivals IH]; intros b msgs due flushed Hp Hg Hchain.
  - exists b. rewrite app_nil_r. done.
  - apply Forall_cons in Hg as [Hm Hg]. destruct Hchain as [Ht Hchain]. simpl in *.
    unfold bind at 1, on_arrival at 1, bind at 1. simpl.
    rewrite (run_due_albums_early env t g msgs due b) by done.
    unfold bind at 1, modify at 1. cbn beta iota.
    destruct (handle_album_message_pending g msgs due m (set_now t b) Hm)
      as (b1 & Hrun & Hp1 & Ho1 & Hc1 & Hcfg1); [done|].
    unfold bind at 1. rewrite Hrun. unfold ret at 1. rewrite app_nil_r.
    destruct (IH b1 (msgs ++ [m]) (t + seconds 2) flushed Hp1 Hg Hchain)
      as (b2 & Hrun2 & Hp2 & Ho2 & Hc2 & Hcfg2).
    exists b2. split; [done|]. rewrite <- app_assoc in Hp2.
    simpl in Ho1, Hc1, Hcfg1.
    split; [done|]. split; [congruence|]. split; congruence.
Qed.

(** The first message of a group, and the messages that follow it
    within the quiet period: nothing is flushed, all are buffered. *)
Lemma arrivals_from_idle env g t1 first rest b :
  album_idle g b →
  media_group_id first = Some g →
  Forall (λ a : Z * message, media_group_id a.2 = Some g) rest →
  quiet_chain (t1 + seconds 2) rest →
  ∃ b',
    for_accM (on_arrival env) [] ((t1, first) :: rest) b = (Ret [], b')
    ∧ album_pending g (first :: rest.*2) (last_due (t1 + seconds 2) rest) b'
    ∧ outbox b' = outbox b ∧ content b' = content b ∧ CONFIG b' = CONFIG b.
Proof.
  intros Hidle Hfirst Hrest Hchain. cbn [for_accM].
  unfold bind at 1, on_arrival at 1, bind at 1. simpl.
  rewrite (run_due_albums_idle env t1 g b Hidle).
  unfold bind at 1, modify at 1. cbn beta iota.
  destruct (handle_album_message_idle g first (set_now t1 b) Hfirst Hidle)
    as (b1 & Hrun & Hp1 & Ho1 & Hc1 & Hcfg1).
  unfold bind at 1. rewrite Hrun. unfold ret at 1. simpl in Hp1, Ho1, Hc1, Hcfg1.
  destruct (arrivals_keep_pending env g rest b1 [first] (t1 + seconds 2) [] Hp1 Hrest Hchain)
    as (b2 & Hrun2 & Hp2 & Ho2 & Hc2 & Hcfg2).
  exists b2. split; [exact Hrun2|]. split; [exact Hp2|].
  split; [congruence|]. split; congruence.
Qed.

(** C4.  The album aggregator debounces.  From a state in which nothing
    is buffered or scheduled for the group, messages of one group that
    each arrive less than two seconds after the one before are flushed
    once, two seconds after the last: the flush takes all of them in
    the order of arrival and answers the first message once.  When a
    further message of the group arrives two seconds or more after
    them, the job has run before it: there are two flushes, the second
    of that message alone, and two answers.  Configured category
    directories are not regular files. *)
Theorem album_debounce (env : message → save_env) (g : string) (b : bot)
    (t1 : Z) (first : message) (rest : list (Z * message)) (horizon : Z) :
  album_idle g b →
  targets_free (CONFIG b) (content b) →
  media_group_id first = Some g →
  Forall (λ a : Z * message, media_group_id a.2 = Some g) rest →
  quiet_chain (t1 + seconds 2) rest →
  (last_due (t1 + seconds 2) rest ≤ horizon →
   ∃ r b',
     album_session env ((t1, first) :: rest) horizon b = (Ret [first :: rest.*2], b')
     ∧ outbox b' = outbox b ++ [ReplyTo first r])
  ∧ (∀ tN mN,
       media_group_id mN = Some g →
       last_due (t1 + seconds 2) rest ≤ tN →
       tN + seconds 2 ≤ horizon →
       ∃ r1 r2 b',
         album_session env (((t1, first) :: rest) ++ [(tN, mN)]) horizon b
         = (Ret [first :: rest.*2; [mN]], b')
         ∧ outbox b' = outbox b ++ [ReplyTo first r1; ReplyTo mN r2]).
Proof.
  intros Hidle Hfree Hfirst Hrest Hchain.
  destruct (arrivals_from_idle env g t1 first rest b Hidle Hfirst Hrest Hchain)
    as (b1 & Hrun1 & Hp1 & Ho1 & Hc1 & Hcfg1).
  assert (Hfree1 : targets_free (CONFIG b1) (content b1)) by (by rewrite Hc1, Hcfg1).
  split.
  - intros Hhorizon. rewrite album_session_loops. unfold bind at 1. rewrite Hrun1.
    destruct (run_due_albums_flush env horizon g first (rest.*2) _ b1 Hp1 Hhorizon Hfree1)
      as (r & b2 & Hrun2 & _ & Ho2 & _ & _).
    unfold bind at 1. rewrite Hrun2. exists r, b2. split; [done|]. by rewrite Ho2, Ho1.
  - intros tN mN HmN HtN Hhorizon. rewrite album_session_loops. unfold bind at 1.
    rewrite for_accM_app. unfold bind at 1. rewrite Hrun1. cbn [for_accM].
    unfold bind at 1, on_arrival at 1, bind at 1. cbn [fst snd].
    destruct (run_due_albums_flush env tN g first (rest.*2) _ b1 Hp1 HtN Hfree1)
      as (r1 & b2 & Hrun2 & Hidle2 & Ho2 & Hcfg2 & Hgrown2).
    rewrite Hrun2. unfold bind at 1, modify at 1. cbn beta iota.
    destruct (handle_album_message_idle g mN (set_now tN b2) HmN Hidle2)
      as (b3 & Hrun3 & Hp3 & Ho3 & Hc3 & Hcfg3).
    unfold bind at 1. rewrite Hrun3. unfold ret at 1, ret at 1. cbn beta iota.
    simpl in Hp3, Ho3, Hc3, Hcfg3.
    assert (Hfree3 : targets_free (CONFIG b3) (content b3)).
    { rewrite Hc3, Hcfg3, Hcfg2. by eapply targets_free_grown. }
    destruct (run_due_albums_flush env horizon g mN [] _ b3 Hp3 Hhorizon Hfree3)
      as (r2 & b4 & Hrun4 & _ & Ho4 & _ & _).
    unfold bind at 1. rewrite Hrun4. exists r1, r2, b4. split; [done|].
    rewrite Ho4, Ho3, Ho2, Ho1, <- app_assoc. done.
Qed.

Lemma album_debounce_witness :
  let m1 := Demo.album_message 1 (Some "#alpha"%string) in
  let m2 := Demo.album_message 2 None in
  ∃ r b',
    album_session Demo.saving [(0, m1); (seconds 1, m2)] (seconds 10) Demo.bot
    = (Ret [[m1; m2]], b')
    ∧ outbox b' = outbox Demo.bot ++ [ReplyTo m1 r].
Proof.
  intros m1 m2.
  destruct (album_debounce Demo.saving "g1" Demo.bot 0 m1 [(seconds 1, m2)] (seconds 10))
    as [Hone _].
  - repeat split.
  - exact demo_targets_free.
  - reflexivity.
  - repeat constructor.
  - split; [by vm_compute|done].
  - apply Hone. by vm_compute.
Defined.

(** ** The rotation state across a restart *)

(** What [__init__] makes of a state file that holds an object. *)
Lemma TelegramPoster_init_json b r :
  STATE_FILE b = Json r →
  rec_last_post_time r ≠ TsMalformed →
  let l := keys (get_enabled_channels (CONFIG b)) in
  let i := default 0 (rec_current_channel_index r) in
  TelegramPoster_init b
  = (Ret tt,
     set_poster
       {| channels_list := l;
          current_channel_index := if Z.of_nat (length l) <=? i then 0 else i;
          is_posting := false;
          last_post_time :=
            match rec_last_post_time r with TsIso t => Some t | _ => None end;
          posting_job := None;
          _low_content_warned := ∅;
          _last_send_error := None |} b).
Proof.
  intros Hfile Hts l i. unfold TelegramPoster_init, bind at 1, gets at 1. cbn beta iota.
  unfold bind at 1, modify at 1. cbn beta iota.
  unfold _load_state, bind at 1, gets at 1. cbn beta iota.
  change (STATE_FILE (set_poster ?p b)) with (STATE_FILE b). rewrite Hfile.
  unfold try_except, bind, ret, self_set, self_get, modify, gets. cbn.
  fold l. fold i. destruct (Z.of_nat (length l) <=? i); cbn;
    destruct (rec_last_post_time r); try done.
Qed.

(** [X5] The rotation survives a restart.  Once [_save_state] has run,
    a poster constructed anew from the same configuration resumes at
    the saved index and with the saved time of the last post; it is not
    posting and has no job, whatever the saved [is_posting] was.  The
    index is a position of the channel list, and the channel list is
    the one of the configuration. *)
Theorem state_round_trip (b : bot) :
  channels_list (poster b) = keys (get_enabled_channels (CONFIG b)) →
  0 ≤ current_channel_index (poster b) < Z.of_nat (length (channels_list (poster b))) →
  ∃ b',
    TelegramPoster_init (_save_state b).2 = (Ret tt, b')
    ∧ channels_list (poster b') = channels_list (poster b)
    ∧ current_channel_index (poster b') = current_channel_index (poster b)
    ∧ last_post_time (poster b') = last_post_time (poster b)
    ∧ is_posting (poster b') = false
    ∧ posting_job (poster b') = None
    ∧ STATE_FILE b' = Json (state_of b).
Proof.
  intros Hl Hi. rewrite _save_state_result. cbn [snd].
  rewrite (TelegramPoster_init_json _ (state_of b)); [|done|by simpl; destruct last_post_time].
  eexists. split; [reflexivity|]. cbn -[Z.leb Z.of_nat].
  rewrite <- Hl. split; [done|]. split; [|split; [|done]].
  - destruct (Z.leb_spec (Z.of_nat (length (channels_list (poster b))))
                (current_channel_index (poster b))); [lia|done].
  - by destruct (last_post_time (poster b)).
Qed.

Lemma state_round_trip_witness :
  let b := (get_next_channel Demo.bot).2 in
  ∃ b',
    TelegramPoster_init (_save_state b).2 = (Ret tt, b')
    ∧ current_channel_index (poster b') = 1.
Proof.
  intros b. destruct (state_round_trip b) as (b' & Hrun & _ & Hi & _).
  - reflexivity.
  - by vm_compute.
  - exists b'. split; [exact Hrun|]. rewrite Hi. reflexivity.
Defined.

(** What [_load_state] leaves, for any state file. *)
Lemma _load_state_spec (b : bot) :
  _load_state b
  = (Ret tt,
     match STATE_FILE b with
     | Json r =>
         let p := poster b in
         let i := default 0 (rec_current_channel_index r) in
         set_poster
           {| channels_list := channels_list p;
              current_channel_index :=
                if Z.of_nat (length (channels_list p)) <=? i then 0 else i;
              is_posting := is_posting p;
              last_post_time :=
                match rec_last_post_time r with
                | TsIso t => Some t
                | _ => last_post_time p
                end;
              posting_job := posting_job p;
              _low_content_warned := _low_content_warned p;
              _last_send_error := _last_send_error p |} b
     | _ => b
     end).
Proof.
  unfold _load_state, bind at 1, gets at 1. cbn beta iota.
  destruct (STATE_FILE b) as [| |r]; [done|done|].
  unfold try_except, bind, ret, raise, self_set, self_get, modify, gets. cbn.
  destruct (Z.of_nat (length (channels_list (poster b))) <=? _); cbn;
    destruct (rec_last_post_time r); done.
Qed.

(** [X6] [_load_state] reads what [_save_state] writes and tolerates a
    file that cannot be read.  The state file is missing, is no JSON
    object, or is an object whose index is missing or an integer.
    Then [_load_state] does not raise and touches nothing but the
    index and the time of the last post.  With no file, or a text that
    is no JSON object, nothing changes.  With an object, the index is
    the stored one (0 when the member is missing), reset to 0 when it
    is not below the number of channels, and kept when it is negative;
    the time is the stored one, and stays what it was when the member
    is null or cannot be parsed: in that last case the index has been
    loaded all the same. *)
Theorem _load_state_tolerant (b : bot) :
  let b' := (_load_state b).2 in
  let n := Z.of_nat (length (channels_list (poster b))) in
  (_load_state b).1 = Ret tt
  ∧ (∃ i t,
       b' = set_poster (set_last_post_time t (set_current_channel_index i (poster b))) b)
  ∧ (STATE_FILE b = NoFile ∨ STATE_FILE b = Corrupt → b' = b)
  ∧ (∀ r, STATE_FILE b = Json r →
          let i := default 0 (rec_current_channel_index r) in
          current_channel_index (poster b') = (if n <=? i then 0 else i)
          ∧ last_post_time (poster b')
            = match rec_last_post_time r with
              | TsIso t => Some t
              | _ => last_post_time (poster b)
              end).
Proof.
  intros b' n. subst b'. rewrite _load_state_spec. cbn [fst snd].
  split; [done|]. split; [|split].
  - destruct (STATE_FILE b) as [| |r].
    + exists (current_channel_index (poster b)), (last_post_time (poster b)).
      by destruct b as [? ? ? ? ? [] ? ? ? ?].
    + exists (current_channel_index (poster b)), (last_post_time (poster b)).
      by destruct b as [? ? ? ? ? [] ? ? ? ?].
    + eexists _, _. reflexivity.
  - by intros [->| ->].
  - intros r ->. done.
Qed.

(** What [__init__] leaves, for any state file. *)
Lemma TelegramPoster_init_spec b :
  TelegramPoster_init b
  = (Ret tt,
     let l := keys (get_enabled_channels (CONFIG b)) in
     match STATE_FILE b with
     | Json r =>
         let i := default 0 (rec_current_channel_index r) in
         set_poster
           {| channels_list := l;
              current_channel_index := if Z.of_nat (length l) <=? i then 0 else i;
              is_posting := false;
              last_post_time :=
                match rec_last_post_time r with TsIso t => Some t | _ => None end;
              posting_job := None;
              _low_content_warned := ∅;
              _last_send_error := None |} b
     | _ =>
         set_poster
           {| channels_list := l; current_channel_index := 0; is_posting := false;
              last_post_time := None; posting_job := None;
              _low_content_warned := ∅; _last_send_error := None |} b
     end).
Proof.
  unfold TelegramPoster_init, bind at 1, gets at 1. cbn beta iota.
  unfold bind at 1, modify at 1. cbn beta iota. rewrite _load_state_spec.
  change (STATE_FILE (set_poster ?p b)) with (STATE_FILE b).
  destruct (STATE_FILE b) as [| |r]; [done|done|]. cbn -[Z.leb Z.of_nat]. done.
Qed.

Lemma get_next_channel_nonempty b :
  channels_list (poster b) ≠ [] →
  get_next_channel b
  = (do i <- self_get current_channel_index;
     do ch <- lift (getitem (channels_list (poster b)) i);
     do _ <- self_set (set_current_channel_index
                         ((i + 1) mod Z.of_nat (length (channels_list (poster b)))));
     do _ <- _save_state;
     ret (Some ch)) b.
Proof.
  intros Hl. unfold get_next_channel, bind at 1, self_get at 1, gets at 1. cbn beta iota.
  by destruct (channels_list (poster b)).
Qed.

(** [X7] A negative index in the state file is not repaired.  The
    poster constructed from the file keeps it.  When it counts a
    position from the end of the channel list, the next selection
    returns that channel and leaves a valid index; when it is further
    below, the selection raises [IndexError] and changes nothing, so
    that every later selection raises again. *)
Theorem negative_index_from_file (b : bot) (r : state_record) (i : Z) :
  STATE_FILE b = Json r →
  rec_current_channel_index r = Some i →
  i < 0 →
  let l := keys (get_enabled_channels (CONFIG b)) in
  let n := Z.of_nat (length l) in
  let b0 := (TelegramPoster_init b).2 in
  l ≠ [] →
  channels_list (poster b0) = l
  ∧ current_channel_index (poster b0) = i
  ∧ (- n ≤ i →
     ∃ ch, l !! Z.to_nat (n + i) = Some ch
           ∧ (get_next_channel b0).1 = Ret (Some ch)
           ∧ current_channel_index (poster (get_next_channel b0).2) = (i + 1) mod n
           ∧ 0 ≤ (i + 1) mod n < n)
  ∧ (i < - n → get_next_channel b0 = (Exc IndexError, b0)).
Proof.
  intros Hfile Hidx Hneg l n b0 Hl.
  assert (Hn : 0 < n) by (subst n; destruct l; [done|simpl; lia]).
  assert (Hb0 : channels_list (poster b0) = l ∧ current_channel_index (poster b0) = i).
  { subst b0. rewrite (TelegramPoster_init_spec b). cbn [snd]. rewrite Hfile, Hidx.
    cbn -[Z.leb Z.of_nat]. fold l. fold n. split; [done|].
    destruct (Z.leb_spec n i); [lia|done]. }
  destruct Hb0 as [Hl0 Hi0]. clearbody b0. split; [done|]. split; [done|]. split.
  - intros Hlow.
    destruct (lookup_lt_is_Some_2 l (Z.to_nat (n + i))) as [ch Hch]; [fold n; lia|].
    exists ch. split; [done|].
    assert (Hrun : get_next_channel b0 = (Ret (Some ch), after_next b0)).
    { rewrite get_next_channel_nonempty by (by rewrite Hl0).
      unfold bind at 1, self_get at 1, gets at 1. cbn beta iota. rewrite Hi0, Hl0.
      unfold bind at 1, lift at 1, getitem. fold n.
      destruct (Z.leb_spec 0 i); [lia|]. destruct (Z.leb_spec (- n) i); [|lia].
      rewrite Hch. unfold bind, self_set, modify, ret. rewrite _save_state_result.
      unfold after_next. by rewrite Hi0, Hl0. }
    rewrite Hrun. cbn -[Z.modulo Z.of_nat]. rewrite Hi0, Hl0. fold n.
    split; [done|]. split; [done|]. by apply Z.mod_pos_bound.
  - intros Hlow.
    rewrite get_next_channel_nonempty by (by rewrite Hl0).
    unfold bind at 1, self_get at 1, gets at 1. cbn beta iota. rewrite Hi0, Hl0.
    unfold bind at 1, lift at 1, getitem. fold n.
    destruct (Z.leb_spec 0 i); [lia|]. destruct (Z.leb_spec (- n) i); [lia|]. done.
Qed.

Lemma negative_index_from_file_witness :
  let stale i :=
    set_STATE_FILE
      (Json {| rec_current_channel_index := Some i; rec_is_posting := false;
               rec_last_update := 0; rec_last_post_time := TsNull |}) Demo.blank in
  (get_next_channel (TelegramPoster_init (stale (-1))).2).1 = Ret (Some "B"%string)
  ∧ (get_next_channel (TelegramPoster_init (stale (-3))).2).1 = Exc IndexError.
Proof.
  intros stale. split.
  - destruct (negative_index_from_file (stale (-1)) _ (-1) eq_refl eq_refl)
      as (_ & _ & Hwrap & _); [lia|done|].
    destruct Hwrap as (ch & Hch & Hrun & _); [by vm_compute|].
    rewrite Hrun. f_equal. f_equal. vm_compute in Hch. congruence.
  - destruct (negative_index_from_file (stale (-3)) _ (-3) eq_refl eq_refl)
      as (_ & _ & _ & Hraise); [lia|done|].
    rewrite Hraise; [reflexivity|by vm_compute].
Defined.

(** ** Starting and stopping the schedule *)

Lemma filter_other_jobs (q : list job) (id : nat) :
  Forall (λ j, (job_id j < id)%nat) q →
  List.filter (λ j, negb (job_id j =? id)%nat) q = q.
Proof.
  induction 1 as [|j q Hj _ IH]; simpl; [done|].
  destruct (Nat.eqb_spec (job_id j) id); [lia|]. simpl. by rewrite IH.
Qed.

(** [X8] Starting and stopping compose.  From a poster that is not
    posting, [start_posting] adds one repeating job; a second
    [start_posting] is refused and adds none; [stop_posting] then takes
    the job off the queue, which is again what it was, and records in
    the state file that the poster is not posting; a second
    [stop_posting] is refused.  Neither touches the index nor the time
    of the last post.  The jobs of the queue bear identifiers handed
    out before. *)
Theorem start_stop_posting (b : bot) :
  is_posting (poster b) = false →
  Forall (λ j, (job_id j < next_job_id b)%nat) (job_queue b) →
  ∃ j b1 b2 record,
    start_posting b = (Ret true, b1)
    ∧ job_queue b1 = job_queue b ++ [j]
    ∧ job_name j = "posting_job"%string
    ∧ start_posting b1 = (Ret false, b1)
    ∧ stop_posting b1 = (Ret true, b2)
    ∧ job_queue b2 = job_queue b
    ∧ is_posting (poster b2) = false
    ∧ posting_job (poster b2) = None
    ∧ STATE_FILE b2 = Json record
    ∧ rec_is_posting record = false
    ∧ current_channel_index (poster b2) = current_channel_index (poster b)
    ∧ last_post_time (poster b2) = last_post_time (poster b)
    ∧ stop_posting b2 = (Ret false, b2).
Proof.
  intros Hidle Hfresh.
  assert (Hstart : ∃ j b1,
            start_posting b = (Ret true, b1)
            ∧ job_queue b1 = job_queue b ++ [j]
            ∧ job_name j = "posting_job"%string
            ∧ job_id j = next_job_id b
            ∧ posting_job (poster b1) = Some (job_id j)
            ∧ is_posting (poster b1) = true
            ∧ current_channel_index (poster b1) = current_channel_index (poster b)
            ∧ last_post_time (poster b1) = last_post_time (poster b)).
  { unfold start_posting, bind at 1, self_get at 1, gets at 1. cbn beta iota.
    rewrite Hidle.
    cbv beta iota zeta delta [bind gets self_get self_set modify run_job get ret].
    rewrite _save_state_result. eexists _, _. split; [reflexivity|].
    cbn. done. }
  destruct Hstart as (j & b1 & Hrun1 & Hq1 & Hname & Hid & Hjob1 & Hposting1 & Hi1 & Hlast1).
  assert (Hstop : ∃ b2,
            stop_posting b1 = (Ret true, b2)
            ∧ job_queue b2 = List.filter (λ j', negb (job_id j' =? job_id j)%nat) (job_queue b1)
            ∧ is_posting (poster b2) = false
            ∧ posting_job (poster b2) = None
            ∧ STATE_FILE b2 = Json (state_of b2)
            ∧ current_channel_index (poster b2) = current_channel_index (poster b1)
            ∧ last_post_time (poster b2) = last_post_time (poster b1)).
  { unfold stop_posting, bind at 1, self_get at 1, gets at 1. cbn beta iota.
    rewrite Hposting1. cbn [negb]. unfold bind at 1, self_get at 1, gets at 1.
    cbn beta iota. rewrite Hjob1.
    cbv beta iota zeta delta [bind gets self_get self_set modify schedule_removal ret].
    rewrite _save_state_result. eexists. split; [reflexivity|].
    cbn. done. }
  destruct Hstop as (b2 & Hrun2 & Hq2 & Hposting2 & Hjob2 & Hfile2 & Hi2 & Hlast2).
  exists j, b1, b2, (state_of b2).
  split; [done|]. split; [done|]. split; [done|]. split.
  { unfold start_posting, bind at 1, self_get at 1, gets at 1. cbn beta iota.
    by rewrite Hposting1. }
  split; [done|]. split.
  { rewrite Hq2, Hq1, List.filter_app, Hid, filter_other_jobs by done. simpl.
    rewrite Hid, Nat.eqb_refl. simpl. by rewrite app_nil_r. }
  split; [done|]. split; [done|]. split; [done|]. split; [by simpl|].
  split; [congruence|]. split; [congruence|].
  unfold stop_posting, bind at 1, self_get at 1, gets at 1. cbn beta iota.
  by rewrite Hposting2.
Qed.

Lemma start_stop_posting_witness :
  ∃ b1 b2,
    start_posting Demo.bot = (Ret true, b1)
    ∧ stop_posting b1 = (Ret true, b2)
    ∧ job_queue b2 = [].
Proof.
  destruct (start_stop_posting Demo.bot) as (j & b1 & b2 & r & H1 & _ & _ & _ & H2 & Hq & _).
  - reflexivity.
  - constructor.
  - exists b1, b2. split; [exact H1|]. split; [exact H2|exact Hq].
Defined.

(** ** The outcomes of a post *)

Lemma package_info_is_file_delete t p :
  package_info_is_file t → package_info_is_file (delete p t).
Proof.
  intros Hpkg month Hdir. apply (Hpkg month).
  by eapply lookup_weaken; [|apply delete_subseteq].
Qed.

(** The state a published post leaves. *)
Lemma post_and_delete_published env ch b ch_cfg img size :
  dict_get (channels (CONFIG b)) ch = Some ch_cfg →
  get_random_image (CONFIG b) (content b) (pick env) ch = Ret (Some img) →
  content b !! img_path img = Some (KFile size) →
  api_error env = None →
  unlink_refused env = false →
  package_info_is_file (content b) →
  ∃ t',
    let b1 := set_poster (set_last_send_error None (poster b))
                (send (ToChannel (method_for (img_path img)) (ch_channel_id ch_cfg)
                         (img_path img) (join_space (img_hashtags img))) b) in
    let b3 := set_poster (set_last_post_time (Some (now b)) (poster b1))
                (set_content t' b1) in
    post_and_delete env ch b = (Ret Published, set_STATE_FILE (Json (state_of b3)) b3)
    ∧ t' ⊆ delete (img_path img) (content b)
    ∧ ∀ p s, content b !! p = Some (KFile s) → p ≠ img_path img →
             (∀ month, p ≠ [month; "package_info.json"%string]) →
             t' !! p = Some (KFile s).
Proof.
  intros Hcfg Himg Hfile Hapi Hunlink Hpkg.
  set (b1 := set_poster (set_last_send_error None (poster b))
               (send (ToChannel (method_for (img_path img)) (ch_channel_id ch_cfg)
                        (img_path img) (join_space (img_hashtags img))) b)).
  set (b2 := set_content (delete (img_path img) (content b)) b1).
  destruct (cleanup_empty_dirs_shrinks b2) as (removed & t' & Hclean & [Hsub Hfiles]).
  { by apply package_info_is_file_delete. }
  exists t'. cbv zeta. fold b1. split; [|split; [exact Hsub|]].
  - unfold post_and_delete, bind at 1, gets at 1. cbn beta iota.
    unfold bind at 1, lift at 1. rewrite (dict_item_get _ _ _ Hcfg).
    unfold bind at 1, gets at 1. cbn beta iota.
    unfold bind at 1, lift at 1. rewrite Himg.
    unfold bind at 1, gets at 1. cbn beta iota.
    assert (Hex : Fs.exists_ (content b) (img_path img) = true).
    { destruct (img_path img); [done|]. simpl. apply bool_decide_eq_true. by rewrite Hfile. }
    rewrite Hex. cbn [negb].
    unfold bind at 1. rewrite send_file_method.
    unfold try_except, bind at 1, fs_open, bind at 1, gets at 1.
    cbn beta iota. rewrite Hfile, Hapi. unfold ret at 1.
    unfold bind at 1, modify at 1. unfold bind at 1, self_set at 1, modify at 1.
    unfold ret at 1. cbn beta iota.
    unfold bind at 1, try_except. rewrite Hunlink.
    unfold fs_unlink, bind at 1, gets at 1. cbn beta iota.
    change (content (set_poster ?p (send ?x b))) with (content b). rewrite Hfile.
    unfold modify at 1, ret at 1.
    change (poster (send ?x b)) with (poster b).
    fold b1. fold b2.
    unfold bind at 1. rewrite Hclean. reflexivity.
  - intros p s Hp Hne Hmonth. apply Hfiles; [|done]. simpl. by rewrite lookup_delete_ne.
Qed.

(** [X9] A post that succeeds consumes its file.  When the Bot API
    accepts the post of the chosen file, [post_and_delete] returns the
    success outcome and the file is gone from the content tree; nothing
    is added to the tree, and every other regular file is still there,
    but for a [package_info.json] of a month directory that the cleanup
    removes with it; the post is the one thing sent; the time of the
    last post is the present instant, and the state file holds it with
    the index.  The tree has no directory called [package_info.json]
    in a directory of the root. *)
Theorem published_file_is_deleted (b : bot) (env : tick_env) (ch : string)
    (ch_cfg : channel_cfg) (img : image) (size : Z) :
  dict_get (channels (CONFIG b)) ch = Some ch_cfg →
  get_random_image (CONFIG b) (content b) (pick env) ch = Ret (Some img) →
  content b !! img_path img = Some (KFile size) →
  api_error env = None →
  unlink_refused env = false →
  package_info_is_file (content b) →
  ∃ b' record,
    post_and_delete env ch b = (Ret Published, b')
    ∧ content b' !! img_path img = None
    ∧ content b' ⊆ content b
    ∧ (∀ p s, content b !! p = Some (KFile s) → p ≠ img_path img →
              (∀ month, p ≠ [month; "package_info.json"%string]) →
              content b' !! p = Some (KFile s))
    ∧ outbox b'
      = outbox b ++ [ToChannel (method_for (img_path img)) (ch_channel_id ch_cfg)
                       (img_path img) (join_space (img_hashtags img))]
    ∧ last_post_time (poster b') = Some (now b)
    ∧ STATE_FILE b' = Json record
    ∧ rec_last_post_time record = TsIso (now b)
    ∧ rec_current_channel_index record = Some (current_channel_index (poster b)).
Proof.
  intros Hcfg Himg Hfile Hapi Hunlink Hpkg.
  destruct (post_and_delete_published env ch b ch_cfg img size Hcfg Himg Hfile Hapi Hunlink Hpkg)
    as (t' & Hrun & Hsub & Hfiles).
  eexists _, _. split; [exact Hrun|]. cbn.
  split. { eapply lookup_weaken_None; [apply (lookup_delete_eq (content b))|exact Hsub]. }
  split. { etrans; [exact Hsub|apply delete_subseteq]. }
  split; [exact Hfiles|done].
Qed.

Lemma published_file_is_deleted_witness :
  let picture := ["2024-05"; "A"; "art"; "pic.jpg"]%string in
  ∃ b',
    post_and_delete Demo.fine "A" Demo.bot = (Ret Published, b')
    ∧ content b' !! picture = None
    ∧ last_post_time (poster b') = Some 0.
Proof.
  intros picture.
  destruct (published_file_is_deleted Demo.bot Demo.fine "A"
              (Demo.channel "@a" "Alpha" "#alpha")
              {| img_path := picture; img_category := "art"; img_hashtags := ["#alpha"%string] |}
              2048)
    as (b' & record & Hrun & Hgone & _ & _ & _ & Hlast & _).
  - vm_compute. reflexivity.
  - vm_compute. reflexivity.
  - vm_compute. reflexivity.
  - reflexivity.
  - reflexivity.
  - apply demo_package_info_is_file.
  - exists b'. split; [exact Hrun|]. split; [exact Hgone|exact Hlast].
Defined.

(** [X10] A post that the Bot API refuses costs nothing.  When the call
    of the Bot API raises, [post_and_delete] returns the failure
    [send_failed]; its details name the file, its size and category and
    end with the text of the error (with a fixed text when the error
    has none); the poster remembers the text of the error, and nothing
    else changes: the file stays, nothing is sent, and neither the time
    of the last post nor the state file is written. *)
Theorem send_failure_keeps_file (b : bot) (env : tick_env) (ch : string)
    (ch_cfg : channel_cfg) (img : image) (size : Z) (e : string) :
  dict_get (channels (CONFIG b)) ch = Some ch_cfg →
  get_random_image (CONFIG b) (content b) (pick env) ch = Ret (Some img) →
  content b !! img_path img = Some (KFile size) →
  api_error env = Some e →
  let api_err := if decide (e = EmptyString) then "неизвестная ошибка"%string else e in
  let b' := set_poster (set_last_send_error (Some e) (poster b)) b in
  post_and_delete env ch b
  = (Ret (Failed send_failed
            (send_failed_details (Fs.name (img_path img)) size (img_category img) api_err)),
     b')
  ∧ content b' = content b
  ∧ outbox b' = outbox b
  ∧ STATE_FILE b' = STATE_FILE b
  ∧ last_post_time (poster b') = last_post_time (poster b)
  ∧ current_channel_index (poster b') = current_channel_index (poster b).
Proof.
  intros Hcfg Himg Hfile Hapi api_err b'. split; [|done].
  unfold post_and_delete, bind at 1, gets at 1. cbn beta iota.
  unfold bind at 1, lift at 1. rewrite (dict_item_get _ _ _ Hcfg).
  unfold bind at 1, gets at 1. cbn beta iota.
  unfold bind at 1, lift at 1. rewrite Himg.
  unfold bind at 1, gets at 1. cbn beta iota.
  assert (Hex : Fs.exists_ (content b) (img_path img) = true).
  { destruct (img_path img); [done|]. simpl. apply bool_decide_eq_true. by rewrite Hfile. }
  rewrite Hex. cbn [negb].
  unfold bind at 1. rewrite send_file_method.
  unfold try_except, bind at 1, fs_open, bind at 1, gets at 1.
  cbn beta iota. rewrite Hfile, Hapi. unfold ret at 1.
  unfold bind at 1, raise at 1. unfold bind at 1, self_set at 1, modify at 1.
  unfold ret at 1. cbn beta iota.
  unfold bind at 1, self_get at 1, gets at 1. cbn beta iota.
  unfold bind at 1, fs_st_size, bind at 1, gets at 1. cbn beta iota.
  change (content (set_poster ?p b)) with (content b). rewrite Hfile.
  unfold ret. reflexivity.
Qed.

Lemma send_failure_keeps_file_witness :
  let env := {| pick := 0; api_error := Some "Forbidden: bot is not a member"%string;
                unlink_refused := false |} in
  let picture := ["2024-05"; "A"; "art"; "pic.jpg"]%string in
  ∃ details b',
    post_and_delete env "A" Demo.bot = (Ret (Failed send_failed details), b')
    ∧ content b' !! picture = Some (KFile 2048)
    ∧ outbox b' = [].
Proof.
  intros env picture.
  destruct (send_failure_keeps_file Demo.bot env "A"
              (Demo.channel "@a" "Alpha" "#alpha")
              {| img_path := picture; img_category := "art"; img_hashtags := ["#alpha"%string] |}
              2048 "Forbidden: bot is not a member")
    as (Hrun & _).
  - vm_compute. reflexivity.
  - vm_compute. reflexivity.
  - vm_compute. reflexivity.
  - reflexivity.
  - eexists _, _. split; [exact Hrun|]. split; vm_compute; reflexivity.
Defined.

(** [X11] [cleanup_empty_dirs] only removes, and spares the files.  On
    a tree with no directory called [package_info.json] in a directory
    of the root it does not raise; it changes nothing but the content
    tree, to which it adds nothing, and it leaves every regular file
    but the [package_info.json] of a directory of the root. *)
Theorem cleanup_only_removes (b : bot) :
  package_info_is_file (content b) →
  ∃ removed t',
    cleanup_empty_dirs b = (Ret removed, set_content t' b)
    ∧ t' ⊆ content b
    ∧ ∀ p size, content b !! p = Some (KFile size) →
                (∀ month, p ≠ [month; "package_info.json"%string]) →
                t' !! p = Some (KFile size).
Proof.
  intros Hpkg. destruct (cleanup_empty_dirs_shrinks b Hpkg) as (removed & t' & Hrun & Hshrunk).
  by exists removed, t'.
Qed.

Lemma cleanup_only_removes_witness :
  ∃ removed t',
    cleanup_empty_dirs Demo.bot = (Ret removed, set_content t' Demo.bot)
    ∧ t' !! ["2024-05"; "A"; "art"; "pic.jpg"]%string = Some (KFile 2048).
Proof.
  destruct (cleanup_only_removes Demo.bot demo_package_info_is_file)
    as (removed & t' & Hrun & _ & Hfiles).
  exists removed, t'. split; [exact Hrun|]. apply Hfiles; [reflexivity|discriminate].
Defined.

(** ** What [get_random_image] chooses from *)

Lemma for_acc_elem {A B} (P : A → B → Prop) (body : list B → A → outcome (list B)) l :
  (∀ acc x, x ∈ l → ∃ ys, body acc x = Ret (acc ++ ys) ∧ ∀ y, y ∈ ys ↔ P x y) →
  ∀ acc, ∃ ys, for_acc body acc l = Ret (acc ++ ys)
               ∧ ∀ y, y ∈ ys ↔ ∃ x, x ∈ l ∧ P x y.
Proof.
  induction l as [|x l IH]; intros Hbody acc.
  - exists []. rewrite app_nil_r. split; [done|]. intros y. split; [by intros ?%elem_of_nil|].
    by intros (x & ?%elem_of_nil & _).
  - destruct (Hbody acc x) as (ys1 & Hx & Hys1); [by left|].
    destruct (IH (λ acc x Hx, Hbody acc x (list_elem_of_further _ _ _ Hx)) (acc ++ ys1))
      as (ys2 & Hl & Hys2).
    exists (ys1 ++ ys2). cbn [for_acc]. rewrite Hx. change (Ret ?a ≫= ?f) with (f a).
    cbn beta. rewrite Hl, app_assoc. split; [done|].
    intros y. rewrite elem_of_app, Hys1, Hys2. split.
    + intros [H|(x' & Hx' & H)]; [exists x; split; [by left|done]|].
      exists x'. split; [by right|done].
    + intros (x' & [->|Hx']%elem_of_cons & H); [by left|]. right. by exists x'.
Qed.

Lemma month_dirs_iff (t : tree) :
  ∃ months, month_dirs t = Ret months
            ∧ ∀ m, m ∈ months ↔
                   ∃ n, m = [n] ∧ t !! [n] = Some KDir ∧ Text.is_month_name n = true.
Proof.
  unfold month_dirs. simpl. eexists. split; [reflexivity|].
  intros m. rewrite list_elem_of_In, filter_In, <- list_elem_of_In, list_elem_of_fmap.
  split.
  - intros [(n & -> & Hn) Hcond]. apply andb_true_iff in Hcond as [Hdir Hname].
    exists n. split; [done|]. split; [by apply (is_dir_child _ [])|exact Hname].
  - intros (n & -> & Hdir & Hname). split.
    + exists n. split; [done|]. apply (elem_of_listdir t []). simpl. by rewrite Hdir.
    + apply andb_true_iff. split; [by apply (is_dir_child _ [])|exact Hname].
Qed.

Lemma name_child' m ch cat : Fs.name (m ++ [ch] ++ [cat]) = cat.
Proof. rewrite app_assoc. apply name_child. Qed.

(** The files [get_random_image] chooses from, when no regular file has
    the name of the channel in a month directory. *)
Lemma candidate_images_spec (cfg : config) (t : tree) (ch_cfg : channel_cfg)
    (ch : string) (months : list path) :
  (∀ m, m ∈ months → ∃ n, m = [n]) →
  channel_dirs_ok t ch →
  ∃ images,
    candidate_images cfg t ch_cfg ch months = Ret images
    ∧ ∀ img, img ∈ images ↔
        ∃ n cat x,
          [n] ∈ months
          ∧ img = {| img_path := [n; ch; cat; x]; img_category := cat;
                     img_hashtags := folder_hashtags ch_cfg cat |}
          ∧ t !! [n; ch] = Some KDir
          ∧ t !! [n; ch; cat] = Some KDir
          ∧ is_Some (t !! [n; ch; cat; x])
          ∧ Text.lower (Text.suffix x) ∈ get_supported_formats cfg.
Proof.
  intros Hmonths Hok. unfold candidate_images.
  set (Pcat := λ (cat_dir : path) (img : image),
         ∃ x, img = {| img_path := cat_dir ++ [x]; img_category := Fs.name cat_dir;
                       img_hashtags := folder_hashtags ch_cfg (Fs.name cat_dir) |}
              ∧ cat_dir ≠ [] ∧ t !! cat_dir = Some KDir
              ∧ is_Some (t !! (cat_dir ++ [x]))
              ∧ Text.lower (Text.suffix x) ∈ get_supported_formats cfg).
  set (Pmonth := λ (m : path) (img : image),
         t !! (m ++ [ch]) = Some KDir
         ∧ ∃ cat, Pcat (m ++ [ch] ++ [cat]) img).
  match goal with
  | |- ∃ images, for_acc ?body [] months = _ ∧ _ =>
      destruct (for_acc_elem Pmonth body months) with (acc := @nil image)
        as (images & Hrun & Himages)
  end.
  - intros acc m Hm. destruct (Hmonths m Hm) as (n & ->).
    destruct (t !! ([n] ++ [ch])) as [[size|]|] eqn:Hch; [by destruct (Hok n size)| |].
    2:{ rewrite (proj2 (exists_child_false t [n] ch)) by done. cbn [negb].
        exists []. rewrite app_nil_r. split; [done|]. intros y.
        split; [by intros ?%elem_of_nil|]. unfold Pmonth. intros [H _]. congruence. }
    rewrite (proj2 (exists_child_true t [n] ch)) by (by rewrite Hch). cbn [negb].
    rewrite iterdir_dir by (by apply (is_dir_child _ [n])).
    change (Ret ?l ≫= ?f) with (f l). cbn beta.
    match goal with
    | |- ∃ ys, for_acc ?body acc ?l = _ ∧ _ =>
        destruct (for_acc_elem Pcat body l) with (acc := acc) as (ys & Hrun & Hys)
    end.
    + intros acc1 cat_dir Hcat. apply list_elem_of_fmap in Hcat as (cat & -> & _).
      destruct (Fs.is_dir t (([n] ++ [ch]) ++ [cat])) eqn:Hdir; cbn [negb].
      * apply is_dir_child in Hdir.
        destruct (supported_files_spec (get_supported_formats cfg) t ([n] ++ [ch]) cat Hdir)
          as (fs & Hfs & Hspec).
        rewrite Hfs. change (Ret ?l ≫= ?f) with (f l). cbn beta. eexists.
        split; [reflexivity|]. intros img. rewrite list_elem_of_fmap. split.
        -- intros (f & -> & Hf). apply Hspec in Hf as (x & -> & Hx & Hs).
           exists x. rewrite <- !app_assoc in *. done.
        -- intros (x & -> & _ & _ & Hx & Hs). exists ((([n] ++ [ch]) ++ [cat]) ++ [x]).
           split; [done|]. apply Hspec. exists x. rewrite <- !app_assoc in *. done.
      * exists []. rewrite app_nil_r. split; [done|]. intros img.
        split; [by intros ?%elem_of_nil|]. intros (x & _ & _ & Hd & _).
        apply is_dir_child in Hd. congruence.
    + exists ys. split; [done|]. intros img. rewrite Hys. unfold Pmonth. split.
      * intros (cat_dir & Hcat & HP). apply list_elem_of_fmap in Hcat as (cat & -> & _).
        split; [done|]. exists cat. by rewrite <- !app_assoc in HP.
      * intros (_ & cat & HP). exists (([n] ++ [ch]) ++ [cat]).
        rewrite <- !app_assoc. split; [|done].
        apply list_elem_of_fmap. exists cat. rewrite <- !app_assoc. split; [done|].
        destruct HP as (x & _ & _ & Hd & _). apply (elem_of_listdir t ([n] ++ [ch])).
        rewrite <- !app_assoc. by rewrite Hd.
  - exists images. split; [done|]. intros img. rewrite Himages. split.
    + intros (m & Hm & Hch & cat & x & -> & _ & Hd & Hx & Hs).
      destruct (Hmonths m Hm) as (n & ->). exists n, cat, x.
      rewrite !name_child' in *. done.
    + intros (n & cat & x & Hm & -> & Hch & Hd & Hx & Hs). exists [n].
      split; [done|]. split; [done|]. exists cat, x. rewrite !name_child'. done.
Qed.

Lemma random_choice_None {A} (pick : nat) (l : list A) :
  random_choice pick l = None ↔ l = [].
Proof.
  unfold random_choice. destruct l as [|y l]; [done|]. split; [|done].
  intros H. apply lookup_ge_None in H.
  pose proof (Nat.mod_upper_bound pick (length (y :: l))) as Hlt. simpl in *. lia.
Qed.

(** [X12] [get_random_image] returns an asset of the channel, and
    returns one whenever the channel has one.  For a configured channel
    whose name no regular file bears in a month directory, the call
    does not raise; what it returns is an entry with a supported suffix
    of a category directory of the channel in a month directory, with
    the name of that directory as its category and the first hashtag of
    the category configured with that folder name; and it returns
    nothing exactly when the channel has no such entry. *)
Theorem get_random_image_chooses_asset (cfg : config) (t : tree) (pick : nat)
    (ch : string) (ch_cfg : channel_cfg) :
  dict_get (channels cfg) ch = Some ch_cfg →
  channel_dirs_ok t ch →
  ∃ choice,
    get_random_image cfg t pick ch = Ret choice
    ∧ (∀ img, choice = Some img → image_of cfg t ch ch_cfg img)
    ∧ (choice = None ↔ ∀ p, ¬ asset_of cfg t ch p).
Proof.
  intros Hcfg Hok. unfold get_random_image.
  destruct (month_dirs_iff t) as (months & -> & Hmonths). simpl.
  destruct (candidate_images_spec cfg t ch_cfg ch months) as (images & Hrun & Himages);
    [|done|].
  { intros m Hm. apply Hmonths in Hm as (n & -> & _). by exists n. }
  assert (Hassets : images = [] ↔ ∀ p, ¬ asset_of cfg t ch p).
  { split.
    - intros -> p (n & cat & x & -> & Hname & Hn & Hch & Hcat & Hx & Hs).
      apply (elem_of_nil {| img_path := [n; ch; cat; x]; img_category := cat;
                            img_hashtags := folder_hashtags ch_cfg cat |}).
      apply Himages. exists n, cat, x. split; [|done]. apply Hmonths. by exists n.
    - intros Hnone. destruct images as [|img images]; [done|]. exfalso.
      destruct (proj1 (Himages img)) as (n & cat & x & Hm & -> & Hch & Hcat & Hx & Hs);
        [by left|].
      apply Hmonths in Hm as (n' & [= <-] & Hn & Hname).
      apply (Hnone [n; ch; cat; x]). by exists n, cat, x. }
  destruct months as [|m0 months0] eqn:Hm.
  - exists None. split; [done|]. split; [done|]. split; [|done]. intros _.
    apply Hassets. destruct images as [|img images]; [done|]. exfalso.
    destruct (proj1 (Himages img)) as (n & _ & _ & Hin & _); [by left|].
    by apply elem_of_nil in Hin.
  - rewrite <- Hm in *. rewrite (dict_item_get _ _ _ Hcfg). simpl. rewrite Hrun. simpl.
    exists (random_choice pick images). split; [done|]. split.
    + intros img Hpick. apply random_choice_elem in Hpick.
      apply Himages in Hpick as (n & cat & x & Hin & -> & Hch & Hcat & Hx & Hs).
      apply Hmonths in Hin as (n' & [= <-] & Hn & Hname). split.
      * by exists n, cat, x.
      * by exists n, cat, x.
    + by rewrite random_choice_None.
Qed.

Lemma demo_channel_dirs_ok : channel_dirs_ok Demo.tree "A".
Proof.
  intros month size. unfold Demo.tree. cbn [list_to_map foldr fst snd uncurry].
  rewrite lookup_insert_ne by done. rewrite lookup_insert.
  destruct (decide _); [done|]. by rewrite !lookup_insert_ne, lookup_empty.
Qed.

Lemma get_random_image_chooses_asset_witness :
  ∃ img,
    get_random_image Demo.config Demo.tree 7 "A" = Ret (Some img)
    ∧ image_of Demo.config Demo.tree "A" (Demo.channel "@a" "Alpha" "#alpha") img.
Proof.
  destruct (get_random_image_chooses_asset Demo.config Demo.tree 7 "A"
              (Demo.channel "@a" "Alpha" "#alpha"))
    as (choice & Hrun & Hsound & _).
  - reflexivity.
  - exact demo_channel_dirs_ok.
  - destruct choice as [img|]; [|vm_compute in Hrun; discriminate Hrun].
    exists img. split; [exact Hrun|]. by apply Hsound.
Defined.

(** ** Counting agrees with choosing *)

Lemma for_acc_measure {A B} (μ : B → Z) (g : A → Z) (body : B → A → outcome B) l :
  ∀ acc r,
  (∀ acc x acc', x ∈ l → body acc x = Ret acc' → μ acc' = μ acc + g x) →
  for_acc body acc l = Ret r → μ r = μ acc + sum_Z (g <$> l).
Proof.
  induction l as [|x l IH]; intros acc r Hstep.
  - intros [= <-]. unfold sum_Z. simpl. lia.
  - cbn [for_acc]. destruct (body acc x) as [acc'|e] eqn:Hb; [|done].
    change (Ret acc' ≫= ?f) with (f acc'). cbn beta. intros Hrest.
    rewrite (IH acc' r); [|by intros ? ? ? ?; apply Hstep; right|done].
    rewrite (Hstep acc x acc'); [|by left|done].
    change (sum_Z (g <$> x :: l)) with (g x + sum_Z (g <$> l)). lia.
Qed.

Lemma sum_Z_nonneg (l : list Z) : Forall (λ z, 0 ≤ z) l → 0 ≤ sum_Z l.
Proof. unfold sum_Z. induction 1; simpl; lia. Qed.

Lemma category_count_nonneg fmt t cat_dir : 0 ≤ category_count fmt t cat_dir.
Proof. unfold category_count. destruct (Fs.is_dir t cat_dir); lia. Qed.

Lemma month_count_nonneg fmt t ch m : 0 ≤ month_count fmt t ch m.
Proof.
  unfold month_count. destruct (Fs.exists_ t (m ++ [ch])); [|lia].
  apply sum_Z_nonneg, Forall_fmap, Forall_forall. intros ? _. apply category_count_nonneg.
Qed.

Lemma asset_count_nonneg cfg t ch : 0 ≤ asset_count cfg t ch.
Proof.
  unfold asset_count. apply sum_Z_nonneg, Forall_fmap, Forall_forall.
  intros ? _. apply month_count_nonneg.
Qed.

Lemma iterdir_Ret (t : tree) (d : path) (l : list path) :
  Fs.iterdir t d = Ret l → l = (λ n, d ++ [n]) <$> Fs.listdir t d.
Proof.
  unfold Fs.iterdir. destruct (Fs.is_dir t d); [by intros [= <-]|].
  by destruct (Fs.exists_ t d).
Qed.

Lemma supported_files_count fmt t cat_dir fs :
  Fs.is_dir t cat_dir = true →
  supported_files fmt t cat_dir = Ret fs →
  Z.of_nat (length fs) = category_count fmt t cat_dir.
Proof.
  intros Hdir. unfold supported_files, category_count, Fs.iterdir. rewrite Hdir. simpl.
  by intros [= <-].
Qed.

(** The total [get_content_stats] reports for a channel. *)
Lemma stats_total_count cfg t stats ch cs :
  get_content_stats cfg t = Ret stats →
  dict_get (stats_channels stats) ch = Some cs →
  cs_total cs = asset_count cfg t ch.
Proof.
  unfold get_content_stats, month_dirs. simpl.
  set (months := List.filter _ _). intros Hrun. revert ch cs. revert Hrun.
  apply (for_acc_invariant
           (λ stats, ∀ ch cs, dict_get (stats_channels stats) ch = Some cs →
                              cs_total cs = asset_count cfg t ch)); [done|].
  intros acc [ch_key ch_cfg] acc' Hacc _. cbn [fst snd].
  destruct (for_acc _ _ months) as [ch_stats|] eqn:Hloop; simpl; [|done].
  intros [= <-] ch cs. simpl. rewrite dict_get_set.
  destruct (decide (ch_key = ch)) as [->|]; [|by apply Hacc]. intros [= <-].
  apply (for_acc_measure cs_total (month_count (get_supported_formats cfg) t ch)) in Hloop.
  { simpl in Hloop. rewrite Hloop. done. }
  intros acc1 m acc2 _. unfold month_count.
  destruct (Fs.exists_ t (m ++ [ch])); cbn [negb]; [|intros [= <-]; lia].
  destruct (Fs.iterdir t (m ++ [ch])) as [cat_dirs|] eqn:Hcats; simpl; [|done].
  apply iterdir_Ret in Hcats as ->.
  apply (for_acc_measure cs_total (category_count (get_supported_formats cfg) t)).
  intros acc3 cat_dir acc4 _.
  destruct (Fs.is_dir t cat_dir) eqn:Hdir; cbn [negb].
  - destruct (supported_files _ t cat_dir) as [fs|] eqn:Hfs; simpl; [|done].
    intros [= <-]. simpl. by rewrite (supported_files_count _ _ _ _ Hdir Hfs).
  - intros [= <-]. unfold category_count. rewrite Hdir. lia.
Qed.

(** As many files as [get_random_image] chooses from. *)
Lemma candidate_images_count cfg t ch_cfg ch months images :
  candidate_images cfg t ch_cfg ch months = Ret images →
  Z.of_nat (length images)
  = sum_Z (month_count (get_supported_formats cfg) t ch <$> months).
Proof.
  unfold candidate_images. intros Hloop.
  apply (for_acc_measure (λ l, Z.of_nat (length l))
           (month_count (get_supported_formats cfg) t ch)) in Hloop; [done|].
  intros acc1 m acc2 _. unfold month_count.
  destruct (Fs.exists_ t (m ++ [ch])); cbn [negb]; [|intros [= <-]; lia].
  destruct (Fs.iterdir t (m ++ [ch])) as [cat_dirs|] eqn:Hcats; simpl; [|done].
  apply iterdir_Ret in Hcats as ->.
  apply (for_acc_measure (λ l, Z.of_nat (length l))
           (category_count (get_supported_formats cfg) t)).
  intros acc3 cat_dir acc4 _.
  destruct (Fs.is_dir t cat_dir) eqn:Hdir; cbn [negb].
  - destruct (supported_files _ t cat_dir) as [fs|] eqn:Hfs; simpl; [|done].
    intros [= <-]. rewrite length_app, length_fmap, Nat2Z.inj_add.
    by rewrite (supported_files_count _ _ _ _ Hdir Hfs).
  - intros [= <-]. unfold category_count. rewrite Hdir. lia.
Qed.

(** [get_random_image] draws from the candidates of the month
    directories. *)
Lemma get_random_image_candidates cfg t pick ch ch_cfg :
  dict_get (channels cfg) ch = Some ch_cfg →
  channel_dirs_ok t ch →
  ∃ images,
    candidate_images cfg t ch_cfg ch
      (List.filter (λ d, Fs.is_dir t d && Text.is_month_name (Fs.name d))
         ((λ n, [n]) <$> Fs.listdir t []))
    = Ret images
    ∧ get_random_image cfg t pick ch = Ret (random_choice pick images).
Proof.
  intros Hcfg Hok. set (months := List.filter _ _).
  destruct (candidate_images_spec cfg t ch_cfg ch months) as (images & Hrun & _); [|done|].
  { intros m Hm. apply list_elem_of_In, filter_In in Hm as [Hm _].
    apply list_elem_of_In, list_elem_of_fmap in Hm as (n & -> & _). by exists n. }
  exists images. split; [done|].
  unfold get_random_image, month_dirs. simpl. fold months.
  destruct months as [|m0 months0] eqn:Hm.
  - unfold candidate_images in Hrun. simpl in Hrun. by injection Hrun as <-.
  - rewrite (dict_item_get _ _ _ Hcfg). simpl. by rewrite Hrun.
Qed.

(** [X13] Counting agrees with choosing.  When [get_content_stats]
    counts [c] files for a channel, [c] is the number of files
    [get_random_image] draws from for that channel: it is not negative,
    and it is 0 exactly when [get_random_image] returns nothing, which
    is when the channel has no asset.  No regular file has the name of
    the channel in a directory of the root. *)
Theorem count_agrees_with_choice (cfg : config) (t : tree) (pick : nat)
    (ch : string) (c : Z) :
  channel_count cfg t ch = Some c →
  channel_dirs_ok t ch →
  0 ≤ c
  ∧ ∃ ch_cfg images,
      dict_get (channels cfg) ch = Some ch_cfg
      ∧ candidate_images cfg t ch_cfg ch
          (List.filter (λ d, Fs.is_dir t d && Text.is_month_name (Fs.name d))
             ((λ n, [n]) <$> Fs.listdir t []))
        = Ret images
      ∧ c = Z.of_nat (length images)
      ∧ get_random_image cfg t pick ch = Ret (random_choice pick images)
      ∧ (c = 0 ↔ get_random_image cfg t pick ch = Ret None).
Proof.
  intros Hcount Hok. unfold channel_count in Hcount.
  destruct (get_content_stats cfg t) as [stats|] eqn:Hstats; [|done].
  destruct (dict_get (stats_channels stats) ch) as [cs|] eqn:Hcs; [|done].
  injection Hcount as <-.
  rewrite (stats_total_count _ _ _ _ _ Hstats Hcs).
  split; [apply asset_count_nonneg|].
  assert (Hin : ch ∈ keys (channels cfg)).
  { apply (stats_channels_configured _ _ _ Hstats), elem_of_keys_get. by rewrite Hcs. }
  apply elem_of_keys_get in Hin as [ch_cfg Hcfg].
  destruct (get_random_image_candidates cfg t pick ch ch_cfg Hcfg Hok)
    as (images & Himages & Hrun).
  exists ch_cfg, images. split; [done|]. split; [done|].
  pose proof (candidate_images_count _ _ _ _ _ _ Himages) as Hlen.
  split; [by rewrite Hlen|]. split; [done|].
  rewrite Hrun. unfold asset_count. rewrite <- Hlen. split.
  - intros H0. destruct images as [|img images]; [done|]. simpl in H0. lia.
  - intros [= Hnone]. apply random_choice_None in Hnone. by subst.
Qed.

Lemma count_agrees_with_choice_witness :
  channel_count Demo.config Demo.tree "A" = Some 1
  ∧ ∃ img, get_random_image Demo.config Demo.tree 3 "A" = Ret (Some img).
Proof.
  split; [vm_compute; reflexivity|].
  destruct (count_agrees_with_choice Demo.config Demo.tree 3 "A" 1)
    as (_ & ch_cfg & images & _ & _ & Hlen & Hrun & _).
  - vm_compute. reflexivity.
  - exact demo_channel_dirs_ok.
  - destruct images as [|img [|img' images]]; [simpl in Hlen; lia| |simpl in Hlen; lia].
    exists img. exact Hrun.
Defined.

(** [X14] [get_low_content_channels] returns the channels below the
    threshold, each with its count: a channel has the value [c] in the
    result exactly when [get_content_stats] counts [c] files for it and
    [c] is less than the threshold; without a threshold given, the one
    of the configuration is used, and 10 when it has none. *)
Theorem low_channels_exact (cfg : config) (t : tree) (threshold : option Z)
    (low : list (string * Z)) :
  get_low_content_channels cfg t threshold = Ret low →
  let th :=
    match threshold with
    | Some th => th
    | None => default 10 (low_content_threshold cfg)
    end in
  ∀ ch c, dict_get low ch = Some c ↔ channel_count cfg t ch = Some c ∧ c < th.
Proof.
  intros Hlow th ch c. unfold get_low_content_channels in Hlow. unfold channel_count.
  destruct (get_content_stats cfg t) as [stats|] eqn:Hstats; [|done].
  simpl in Hlow. injection Hlow as <-.
  rewrite low_fold_get by (by eapply stats_channels_NoDup).
  change (match threshold with
          | Some th0 => th0
          | None => default DEFAULT_LOW_CONTENT_THRESHOLD (low_content_threshold cfg)
          end) with th.
  destruct (dict_get (stats_channels stats) ch) as [cs|]; simpl.
  - destruct (Z.ltb_spec (cs_total cs) th); split.
    + intros [= <-]. done.
    + by intros [[= <-] _].
    + done.
    + intros [[= <-] ?]. lia.
  - split; [done|]. by intros [? _].
Qed.

Lemma low_channels_exact_witness :
  ∃ low,
    get_low_content_channels Demo.config Demo.tree None = Ret low
    ∧ dict_get low "A" = Some 1
    ∧ dict_get low "B" = Some 0.
Proof.
  exists [("A", 1); ("B", 0)]%string.
  assert (Hlow : get_low_content_channels Demo.config Demo.tree None
                 = Ret [("A", 1); ("B", 0)]%string) by (vm_compute; reflexivity).
  split; [exact Hlow|].
  pose proof (low_channels_exact Demo.config Demo.tree None _ Hlow) as Hspec.
  cbv zeta in Hspec.
  split; apply Hspec; (split; [vm_compute; reflexivity|by vm_compute]).
Defined.

(** ** Saves that fail *)

Lemma insert_dir_no_file (t : tree) (p q : path) (size : Z) :
  <[p := KDir]> t !! q = Some (KFile size) → t !! q = Some (KFile size).
Proof.
  destruct (decide (p = q)) as [->|Hne]; [by rewrite lookup_insert_eq|].
  by rewrite lookup_insert_ne.
Qed.

(** [mkdir(parents=True, exist_ok=True)] of a category directory adds
    directories only. *)
Lemma fs_mkdir_parents_dirs ch cat b :
  (∀ size, content b !! [ch] ≠ Some (KFile size)) →
  (∀ size, content b !! [ch; cat] ≠ Some (KFile size)) →
  ∃ t1, fs_mkdir_parents [ch; cat] b = (Ret tt, set_content t1 b)
        ∧ content b ⊆ t1
        ∧ ∀ p size, t1 !! p = Some (KFile size) → content b !! p = Some (KFile size).
Proof.
  intros H1 H2. unfold fs_mkdir_parents. simpl. unfold bind, gets, modify. simpl.
  destruct (content b !! [ch]) as [[s|]|] eqn:E1; [by destruct (H1 s)| |]; simpl.
  - destruct (content b !! [ch; cat]) as [[s|]|] eqn:E2; [by destruct (H2 s)| |]; simpl.
    + exists (content b). by rewrite set_content_id.
    + eexists. split; [reflexivity|]. split; [by apply insert_subseteq|].
      intros p size. apply insert_dir_no_file.
  - rewrite lookup_insert_ne by done.
    destruct (content b !! [ch; cat]) as [[s|]|] eqn:E2; [by destruct (H2 s)| |]; simpl.
    + eexists. split; [reflexivity|]. split; [by apply insert_subseteq|].
      intros p size. apply insert_dir_no_file.
    + eexists. split; [reflexivity|]. split.
      * etrans; [by apply (insert_subseteq _ [ch] KDir)|].
        apply insert_subseteq. by rewrite lookup_insert_ne.
      * intros p size H. by do 2 apply insert_dir_no_file in H.
Qed.

(** [X15] The saves that fail.  Without a word that starts with [#] in
    the caption, and with a hashtag that no category of the
    configuration bears, [save_file] returns an error and changes
    nothing.  When [bot.get_file] raises, the error returned is the
    text of the exception, and the content tree has gained directories
    at most: every regular file of it was there before.  When a regular
    file bears the name of the channel where the category directory is
    to be made, [save_file] itself raises [NotADirectoryError]. *)
Theorem save_file_failures (env : save_env) (file_id text ext : string) (b : bot) :
  (List.find (String.prefix "#") (String.words text) = None →
   save_file env file_id text ext b
   = (Ret (SaveError "Нет хештега в подписи. Пример: #Sakura"), b))
  ∧ (∀ hashtag,
       List.find (String.prefix "#") (String.words text) = Some hashtag →
       find_category_by_hashtag (CONFIG b) hashtag = None →
       save_file env file_id text ext b
       = (Ret (SaveError ("Хештег " +:+ hashtag +:+ " не найден в конфигурации.")), b))
  ∧ (∀ hashtag ci e,
       List.find (String.prefix "#") (String.words text) = Some hashtag →
       find_category_by_hashtag (CONFIG b) hashtag = Some ci →
       targets_free (CONFIG b) (content b) →
       tg_file_path env = Exc e →
       ∃ t',
         save_file env file_id text ext b = (Ret (SaveError (exn_str e)), set_content t' b)
         ∧ content b ⊆ t'
         ∧ ∀ p size, t' !! p = Some (KFile size) → content b !! p = Some (KFile size))
  ∧ (∀ hashtag ci size,
       List.find (String.prefix "#") (String.words text) = Some hashtag →
       find_category_by_hashtag (CONFIG b) hashtag = Some ci →
       content b !! [ci_channel_key ci] = Some (KFile size) →
       save_file env file_id text ext b = (Exc NotADirectoryError, b)).
Proof.
  split; [|split; [|split]].
  - intros Hnone. unfold save_file. by rewrite Hnone.
  - intros hashtag Hfind Hnone. unfold save_file. rewrite Hfind.
    unfold bind at 1, gets at 1. cbn beta iota. by rewrite Hnone.
  - intros hashtag ci e Hfind Hci Hfree Hexc. unfold save_file. rewrite Hfind.
    unfold bind at 1, gets at 1. cbn beta iota. rewrite Hci.
    destruct (fs_mkdir_parents_dirs (ci_channel_key ci) (ci_category ci) b)
      as (t1 & Hmk & Hsub & Hfiles).
    { intros size. by destruct (Hfree hashtag ci size Hci). }
    { intros size. by destruct (Hfree hashtag ci size Hci). }
    unfold bind at 1. rewrite Hmk.
    unfold try_except, bind at 1, lift at 1. rewrite Hexc. unfold ret.
    by exists t1.
  - intros hashtag ci size Hfind Hci Hfile. unfold save_file. rewrite Hfind.
    unfold bind at 1, gets at 1. cbn beta iota. rewrite Hci.
    unfold bind at 1, fs_mkdir_parents. simpl.
    unfold bind at 1, bind at 1, gets at 1. cbn beta iota. rewrite Hfile.
    by destruct (decide _).
Qed.

Lemma save_file_failures_witness :
  let env := {| tg_file_path := Exc (TelegramError "Bad Request: file is too big");
                stamp := "20240501120000"; rid := 4242; download := Ret 512 |} in
  ∃ t',
    save_file env "id1" "spring #Alpha" ".jpg" Demo.bot
    = (Ret (SaveError "Bad Request: file is too big"), set_content t' Demo.bot)
    ∧ t' !! ["A"; "art"; "art_20240501120000_4242.jpg"]%string = None.
Proof.
  intros env.
  destruct (save_file_failures env "id1" "spring #Alpha" ".jpg" Demo.bot)
    as (_ & _ & Hraise & _).
  destruct (Hraise "#Alpha"%string
              {| ci_channel_key := "A"; ci_category := "art"; ci_hashtags := ["#alpha"] |}%string
              (TelegramError "Bad Request: file is too big"))
    as (t' & Hrun & _ & Hfiles).
  - vm_compute. reflexivity.
  - vm_compute. reflexivity.
  - exact demo_targets_free.
  - reflexivity.
  - exists t'. split; [exact Hrun|].
    destruct (t' !! ["A"; "art"; "art_20240501120000_4242.jpg"]%string) as [[size|]|] eqn:E;
      [|vm_compute in Hrun; injection Hrun as <-; vm_compute in E; discriminate E|done].
    apply Hfiles in E. vm_compute in E. discriminate E.
Defined.

(** ** Looking a hashtag up *)

Lemma find_true_head {A} (l : list A) : List.find (λ _, true) l = head l.
Proof. by destruct l. Qed.

Lemma lower_idemp s : Text.lower (Text.lower s) = Text.lower s.
Proof.
  induction s as [|c s IH]; simpl; [done|]. f_equal; [|done].
  unfold Text.ascii_lower.
  destruct ((65 <=? nat_of_ascii c)%nat && (nat_of_ascii c <=? 90)%nat) eqn:Hup.
  - apply andb_true_iff in Hup as [H1%Nat.leb_le H2%Nat.leb_le].
    rewrite nat_ascii_embedding by lia.
    destruct (Nat.leb_spec (nat_of_ascii c + 32) 90); [lia|].
    by rewrite andb_false_r.
  - by rewrite Hup.
Qed.

(** [X16] On ASCII hashtags, [find_category_by_hashtag] finds a
    category that bears the hashtag, whatever the case of the letters,
    and finds one whenever there is one.  The hashtag looked up and the
    hashtags of the configuration are ASCII text.  What the function
    returns is made of a channel of the configuration and of one of
    its categories, one of whose hashtags is the given one up to the
    case of the letters: the key of the channel, the folder name of
    the category (its key when it has none) and its hashtags.  It
    returns nothing exactly when no category of any channel bears the
    hashtag; and two hashtags that differ in case only are looked up
    alike. *)
Theorem find_category_by_hashtag_spec (cfg : config) (hashtag : string) :
  Text.is_ascii hashtag = true →
  ascii_hashtags cfg = true →
  let bears (cat : category_cfg) :=
    ∃ tag, tag ∈ cat_hashtags cat ∧ Text.lower tag = Text.lower hashtag in
  (∀ ci, find_category_by_hashtag cfg hashtag = Some ci →
         ∃ ch_cfg cat_key cat,
           (ci_channel_key ci, ch_cfg) ∈ channels cfg
           ∧ (cat_key, cat) ∈ ch_categories ch_cfg
           ∧ bears cat
           ∧ ci_category ci = default cat_key (cat_folder_name cat)
           ∧ ci_hashtags ci = cat_hashtags cat)
  ∧ (find_category_by_hashtag cfg hashtag = None ↔
     ∀ ch_key ch_cfg cat_key cat,
       (ch_key, ch_cfg) ∈ channels cfg → (cat_key, cat) ∈ ch_categories ch_cfg → ¬ bears cat)
  ∧ find_category_by_hashtag cfg (Text.lower hashtag) = find_category_by_hashtag cfg hashtag.
Proof.
  intros _ _ bears. unfold find_category_by_hashtag. rewrite !find_true_head, lower_idemp.
  set (matches := flat_map _ (channels cfg)).
  assert (Hmatches : ∀ ci, ci ∈ matches ↔
            ∃ ch_key ch_cfg cat_key cat,
              (ch_key, ch_cfg) ∈ channels cfg
              ∧ (cat_key, cat) ∈ ch_categories ch_cfg
              ∧ bears cat
              ∧ ci = {| ci_channel_key := ch_key;
                        ci_category := default cat_key (cat_folder_name cat);
                        ci_hashtags := cat_hashtags cat |}).
  { intros ci. unfold matches. rewrite list_elem_of_In, in_flat_map. split.
    - intros ([ch_key ch_cfg] & Hch%list_elem_of_In & Hci%list_elem_of_In).
      apply list_elem_of_omap in Hci as ([cat_key cat] & Hcat & Hsome). simpl in Hsome.
      destruct (existsb _ _) eqn:Hex; [|done]. injection Hsome as <-.
      apply existsb_exists in Hex as (tag & Htag%list_elem_of_In & Heq%bool_decide_eq_true).
      exists ch_key, ch_cfg, cat_key, cat. split; [done|]. split; [done|].
      split; [by exists tag|done].
    - intros (ch_key & ch_cfg & cat_key & cat & Hch & Hcat & (tag & Htag & Heq) & ->).
      exists (ch_key, ch_cfg). split; [by apply list_elem_of_In|].
      apply list_elem_of_In, list_elem_of_omap. exists (cat_key, cat). split; [done|].
      simpl. rewrite (proj2 (existsb_exists _ _)); [done|].
      exists tag. split; [by apply list_elem_of_In|by apply bool_decide_eq_true]. }
  split; [|split; [|done]].
  - intros ci Hhead. assert (Hin : ci ∈ matches) by (by apply head_Some_elem_of).
    apply Hmatches in Hin as (ch_key & ch_cfg & cat_key & cat & Hch & Hcat & Hb & ->).
    by exists ch_cfg, cat_key, cat.
  - rewrite head_None. split.
    + intros Hnil ch_key ch_cfg cat_key cat Hch Hcat Hb.
      apply (elem_of_nil {| ci_channel_key := ch_key;
                            ci_category := default cat_key (cat_folder_name cat);
                            ci_hashtags := cat_hashtags cat |}).
      rewrite <- Hnil. apply Hmatches. by exists ch_key, ch_cfg, cat_key, cat.
    + intros Hnone. destruct matches as [|ci matches'] eqn:E; [done|]. exfalso.
      destruct (proj1 (Hmatches ci)) as (ch_key & ch_cfg & cat_key & cat & Hch & Hcat & Hb & _);
        [by left|].
      by apply (Hnone ch_key ch_cfg cat_key cat).
Qed.

Lemma find_category_by_hashtag_spec_witness :
  ∃ ci,
    find_category_by_hashtag Demo.config "#ALPHA" = Some ci
    ∧ ci_channel_key ci = "A"%string
    ∧ find_category_by_hashtag Demo.config "#alpha" = Some ci.
Proof.
  destruct (find_category_by_hashtag_spec Demo.config "#ALPHA") as (_ & _ & Hlow);
    [reflexivity|reflexivity|].
  eexists. split; [reflexivity|]. split; [reflexivity|]. exact Hlow.
Defined.

(** ** What a tick leaves alone *)

Lemma tick_frame_refl b : tick_frame [] b b.
Proof. repeat split; try done. exists []. by rewrite app_nil_r. Qed.

Lemma tick_frame_trans ps1 ps2 b1 b2 b3 :
  tick_frame ps1 b1 b2 → tick_frame ps2 b2 b3 → tick_frame (ps1 ++ ps2) b1 b3.
Proof.
  intros (H1 & H2 & H3 & H4 & H5 & H6 & H7 & H8 & H9 & H10 & a1 & Ha1 & Hp1)
         (G1 & G2 & G3 & G4 & G5 & G6 & G7 & G8 & G9 & G10 & a2 & Ha2 & Hp2).
  repeat split; try congruence; [by etrans|].
  exists (a1 ++ a2). split; [by rewrite Ha2, Ha1, app_assoc|].
  by rewrite List.filter_app, Hp1, Hp2.
Qed.

Lemma quiet_ret {A} (a : A) : quiet (ret a).
Proof. intros s. apply tick_frame_refl. Qed.

Lemma quiet_raise {A} (e : exn) : quiet (@raise bot A e).
Proof. intros s. apply tick_frame_refl. Qed.

Lemma quiet_gets {A} (f : bot → A) : quiet (gets f).
Proof. intros s. apply tick_frame_refl. Qed.

Lemma quiet_get : quiet (@get bot).
Proof. intros s. apply tick_frame_refl. Qed.

Lemma quiet_lift {A} (o : outcome A) : quiet (lift o).
Proof. intros s. apply tick_frame_refl. Qed.

Lemma quiet_self_get {A} (f : TelegramPoster → A) : quiet (self_get f).
Proof. intros s. apply tick_frame_refl. Qed.

Lemma quiet_bind {A B} (m : M bot A) (k : A → M bot B) :
  quiet m → (∀ a, quiet (k a)) → quiet (bind m k).
Proof.
  intros Hm Hk s. unfold bind. specialize (Hm s).
  destruct (m s) as [[a|e] s1]; [|done].
  apply (tick_frame_trans [] [] s s1); [done|apply Hk].
Qed.

Lemma quiet_try_except {A} (m : M bot A) (h : exn → M bot A) :
  quiet m → (∀ e, quiet (h e)) → quiet (try_except m h).
Proof.
  intros Hm Hh s. unfold try_except. specialize (Hm s).
  destruct (m s) as [[a|e] s1]; [done|].
  apply (tick_frame_trans [] [] s s1); [done|apply Hh].
Qed.

Lemma quiet_for_each {A} (body : A → M bot unit) l :
  (∀ x, quiet (body x)) → quiet (for_each body l).
Proof.
  intros Hbody. induction l as [|x l IH]; [apply quiet_ret|].
  apply quiet_bind; [apply Hbody|by intros _].
Qed.

Lemma quiet_for_accM {A B} (body : B → A → M bot B) l :
  (∀ acc x, quiet (body acc x)) → ∀ acc, quiet (for_accM body acc l).
Proof.
  intros Hbody. induction l as [|x l IH]; intros acc; [apply quiet_ret|].
  apply quiet_bind; [apply Hbody|apply IH].
Qed.

Lemma quiet_self_set (f : TelegramPoster → TelegramPoster) :
  (∀ p, channels_list (f p) = channels_list p
        ∧ is_posting (f p) = is_posting p
        ∧ posting_job (f p) = posting_job p) →
  quiet (self_set f).
Proof.
  intros Hf s. destruct (Hf (poster s)) as (H1 & H2 & H3).
  repeat split; try done. exists []. by rewrite app_nil_r.
Qed.

Lemma quiet_send_admins recipients body :
  quiet (modify (send (ToAdmins recipients body))).
Proof. intros s. repeat split; try done. by exists [ToAdmins recipients body]. Qed.

Lemma quiet_delete (p : path) (t : tree) :
  quiet (do t <- gets content; modify (set_content (delete p t))).
Proof.
  intros s. repeat split; try done; [apply delete_subseteq|].
  exists []. by rewrite app_nil_r.
Qed.

Lemma quiet_write_text data : quiet (write_text data).
Proof. intros s. repeat split; try done. exists []. by rewrite app_nil_r. Qed.

Lemma quiet_save_state : quiet _save_state.
Proof. apply quiet_bind; [apply quiet_get|intros ?; apply quiet_write_text]. Qed.

Lemma quiet_modify_content (f : bot → tree) :
  (∀ s, f s ⊆ content s) → quiet (modify (λ s, set_content (f s) s)).
Proof.
  intros Hf s. repeat split; try done; [apply Hf|]. exists []. by rewrite app_nil_r.
Qed.

Lemma quiet_fs_rmdir p : quiet (fs_rmdir p).
Proof.
  intros s. unfold fs_rmdir, bind, gets, modify, raise. cbn beta iota.
  destruct (content s !! p) as [[size|]|]; try apply tick_frame_refl.
  destruct (bool_decide _); [|apply tick_frame_refl].
  apply (quiet_modify_content (λ s, delete p (content s))). intros ?. apply delete_subseteq.
Qed.

Lemma quiet_fs_unlink p : quiet (fs_unlink p).
Proof.
  intros s. unfold fs_unlink, bind, gets, modify, raise. cbn beta iota.
  destruct (content s !! p) as [[size|]|]; try apply tick_frame_refl.
  apply (quiet_modify_content (λ s, delete p (content s))). intros ?. apply delete_subseteq.
Qed.

Lemma quiet_fs_iterdir p : quiet (fs_iterdir p).
Proof. intros s. unfold fs_iterdir, bind, gets, lift. apply tick_frame_refl. Qed.

Lemma quiet_fs_is_dir p : quiet (fs_is_dir p).
Proof. apply quiet_gets. Qed.

Lemma quiet_fs_st_size p : quiet (fs_st_size p).
Proof.
  intros s. unfold fs_st_size, bind, gets, ret, raise. cbn beta iota.
  destruct (content s !! p) as [[size|]|]; apply tick_frame_refl.
Qed.

(** One step of a proof that a computation is quiet. *)
Ltac quiet_step :=
  first
    [ apply quiet_ret | apply quiet_raise | apply quiet_gets | apply quiet_get
    | apply quiet_lift | apply quiet_self_get | apply quiet_save_state
    | apply quiet_send_admins | apply quiet_fs_rmdir | apply quiet_fs_unlink
    | apply quiet_fs_iterdir | apply quiet_fs_is_dir | apply quiet_fs_st_size
    | apply quiet_self_set; intros ?; by repeat split
    | apply quiet_for_each; intros ?
    | apply quiet_for_accM; intros ? ?
    | apply quiet_try_except; [|intros ?]
    | apply quiet_bind; [|intros ?]
    | match goal with
      | |- quiet (match ?x with _ => _ end) => destruct x
      | |- quiet (if ?c then _ else _) => destruct c
      end ].

Lemma quiet_get_next_channel : quiet get_next_channel.
Proof. unfold get_next_channel. repeat quiet_step. Qed.

Lemma quiet_cleanup_empty_dirs : quiet cleanup_empty_dirs.
Proof.
  rewrite cleanup_empty_dirs_loops. unfold cleanup_month, cleanup_channel, cleanup_category.
  repeat quiet_step.
Qed.

Lemma quiet_check_low_content : quiet _check_low_content.
Proof.
  rewrite _check_low_content_loops. unfold warn_if_new, forget_if_refilled.
  repeat quiet_step.
Qed.

Lemma quiet_then_posts {A B} chat (m : M bot A) (k : A → M bot B) s :
  quiet m →
  (∀ a s', ∃ ps, tick_frame ps s' (k a s').2 ∧ at_most_one_post chat ps) →
  ∃ ps, tick_frame ps s (bind m k s).2 ∧ at_most_one_post chat ps.
Proof.
  intros Hm Hk. unfold bind. specialize (Hm s).
  destruct (m s) as [[a|e] s1]; [|exists []; split; [done|by left]].
  destruct (Hk a s1) as (ps & Hframe & Hps). exists ps. split; [|done].
  by apply (tick_frame_trans [] ps s s1).
Qed.

Lemma posts_then_quiet {A B} chat (m : M bot A) (k : A → M bot B) s :
  (∃ ps, tick_frame ps s (m s).2 ∧ at_most_one_post chat ps) →
  (∀ a, quiet (k a)) →
  ∃ ps, tick_frame ps s (bind m k s).2 ∧ at_most_one_post chat ps.
Proof.
  intros (ps & Hframe & Hps) Hk. unfold bind.
  destruct (m s) as [[a|e] s1]; [|by exists ps].
  exists ps. split; [|done]. rewrite <- (app_nil_r ps).
  apply (tick_frame_trans ps [] s s1); [done|apply Hk].
Qed.

Lemma quiet_posts {A} chat (m : M bot A) s :
  quiet m → ∃ ps, tick_frame ps s (m s).2 ∧ at_most_one_post chat ps.
Proof. intros Hm. exists []. split; [apply Hm|by left]. Qed.

Lemma quiet_fs_open p : quiet (fs_open p).
Proof.
  intros s. unfold fs_open, bind, gets, ret, raise. cbn beta iota.
  destruct (content s !! p) as [[size|]|]; apply tick_frame_refl.
Qed.

(** [send_file] sends one post to the chat, or none. *)
Lemma send_file_posts api chat file_path text s :
  ∃ ps, tick_frame ps s (send_file api chat file_path text s).2 ∧ at_most_one_post chat ps.
Proof.
  rewrite send_file_method. destruct api as [e|].
  - apply quiet_posts. repeat first [apply quiet_fs_open | quiet_step].
  - unfold try_except, bind at 1.
    pose proof (quiet_fs_open file_path s) as Hopen.
    destruct (fs_open file_path s) as [[[]|e] s1] eqn:E.
    + assert (s1 = s) as ->.
      { revert E. unfold fs_open, bind, gets, ret, raise. cbn beta iota.
        destruct (content s !! file_path) as [[size|]|]; congruence. }
      exists [ToChannel (method_for file_path) chat file_path text].
      split; [|right; by eexists _, _, _].
      unfold bind, modify, self_set, ret. cbn.
      repeat split; try done.
      by exists [ToChannel (method_for file_path) chat file_path text].
    + exists []. split; [|by left]. cbn [snd] in Hopen.
      apply (tick_frame_trans [] [] s s1); [done|].
      assert (Hh : quiet (do _ <- self_set (set_last_send_error (Some (exn_str e)));
                          @ret bot bool false)) by repeat quiet_step.
      apply Hh.
Qed.

(** [post_and_delete] sends one post at most, to the chat of the
    channel, and keeps the frame. *)
Lemma post_and_delete_posts env ch s :
  ∃ ps, tick_frame ps s (post_and_delete env ch s).2
        ∧ (ps = [] ∨ ∃ ch_cfg, dict_get (channels (CONFIG s)) ch = Some ch_cfg
                               ∧ at_most_one_post (ch_channel_id ch_cfg) ps).
Proof.
  unfold post_and_delete, bind at 1, gets at 1. cbn beta iota.
  unfold bind at 1, lift at 1, dict_item.
  destruct (dict_get (channels (CONFIG s)) ch) as [ch_cfg|] eqn:Hcfg;
    [|exists []; split; [apply tick_frame_refl|by left]].
  match goal with
  | |- ∃ ps, tick_frame ps s (?m s).2 ∧ _ =>
      assert (Hrest : ∃ ps, tick_frame ps s (m s).2
                            ∧ at_most_one_post (ch_channel_id ch_cfg) ps)
  end.
  { apply quiet_then_posts; [apply quiet_gets|]. intros t s1.
    apply quiet_then_posts; [apply quiet_lift|]. intros [img|] s2;
      [|apply quiet_posts, quiet_ret].
    apply quiet_then_posts; [apply quiet_gets|]. intros t2 s3.
    destruct (negb _); [apply quiet_posts, quiet_ret|].
    apply posts_then_quiet; [apply send_file_posts|].
    intros [|].
    - unfold fs_unlink. repeat first [apply quiet_cleanup_empty_dirs | quiet_step].
    - repeat quiet_step. }
  destruct Hrest as (ps & Hframe & Hps). exists ps. split; [done|]. right. by exists ch_cfg.
Qed.

(** [X17] A tick posts once at most, and only to the channel whose turn
    it is.  Whatever the state and whatever happens during the tick,
    also when it ends by an exception, at its end the configuration,
    the clock, the uploader, the job queue, the channel list and the
    posting flag and job are what they were, the content tree has
    gained nothing, and the posts to channels among what was sent are
    none, or one post to the chat of the channel that
    [get_next_channel] selects.  Outside the posting window, and with
    no enabled channel, the tick changes nothing at all. *)
Theorem tick_posts_at_most_once (env : tick_env) (b : bot) :
  (∃ posts,
     tick_frame posts b (_posting_tick env b).2
     ∧ (posts = []
        ∨ ∃ ch ch_cfg,
            (get_next_channel b).1 = Ret (Some ch)
            ∧ dict_get (channels (CONFIG b)) ch = Some ch_cfg
            ∧ at_most_one_post (ch_channel_id ch_cfg) posts))
  ∧ (¬ (default 0 (first_post_hour (CONFIG b)) ≤ hour (now b)
        < default 24 (last_post_hour (CONFIG b))) →
     _posting_tick env b = (Ret tt, b))
  ∧ (channels_list (poster b) = [] → _posting_tick env b = (Ret tt, b)).
Proof.
  split; [|split].
  - unfold _posting_tick, bind at 1, gets at 1. cbn beta iota zeta.
    unfold bind at 1, gets at 1. cbn beta iota.
    destruct (negb _); [exists []; split; [apply tick_frame_refl|by left]|].
    unfold bind at 1. pose proof (quiet_get_next_channel b) as Hnext.
    destruct (get_next_channel b) as [[[ch|]|e] s1] eqn:Hsel;
      [|by exists []; split; [|left]..].
    cbn [snd] in Hnext. destruct ch as [|c ch]; [by exists []; split; [|left]|].
    set (key := String c ch).
    match goal with
    | |- ∃ posts, tick_frame posts b (bind ?m ?k s1).2 ∧ _ =>
        assert (Hk : ∀ a, quiet (k a))
    end.
    { intros result. apply quiet_bind; [|intros ?; apply quiet_check_low_content].
      destruct result; repeat quiet_step. }
    destruct (post_and_delete_posts env key s1) as (ps & Hframe & Hps).
    destruct Hps as [->|(ch_cfg & Hcfg & Hone)].
    + exists []. split; [|by left].
      apply (tick_frame_trans [] [] b s1); [done|].
      unfold bind. destruct (post_and_delete env key s1) as [[result|e] s2]; [|done].
      apply (tick_frame_trans [] [] s1 s2); [done|apply Hk].
    + exists ps. split.
      * apply (tick_frame_trans [] ps b s1); [done|].
        unfold bind. destruct (post_and_delete env key s1) as [[result|e] s2]; [|done].
        rewrite <- (app_nil_r ps). apply (tick_frame_trans ps [] s1 s2); [done|apply Hk].
      * right. exists key, ch_cfg. split; [done|]. split; [|done].
        destruct Hnext as (<- & _). done.
  - intros Hout. unfold _posting_tick, bind at 1, gets at 1. cbn beta iota zeta.
    unfold bind at 1, gets at 1. cbn beta iota.
    destruct (Z.leb_spec (default 0 (first_post_hour (CONFIG b))) (hour (now b)));
      [|done].
    destruct (Z.ltb_spec (hour (now b)) (default 24 (last_post_hour (CONFIG b))));
      [lia|done].
  - intros Hnil. unfold _posting_tick, bind at 1, gets at 1. cbn beta iota zeta.
    unfold bind at 1, gets at 1. cbn beta iota.
    destruct (negb _); [done|].
    unfold bind at 1, get_next_channel, bind at 1, self_get at 1, gets at 1.
    cbn beta iota. by rewrite Hnil.
Qed.

(** ** [/reload] *)

(** [X18] [/reload] is for administrators, reconfigures without
    touching the schedule, and leaves [CONFIG] empty when the files
    cannot be read.  From a user who is no administrator (by
    [ADMIN_IDS] as it stands) the command sends the refusal and
    changes nothing else.  From an administrator, when the files hold
    a configuration, it puts that configuration in force, makes the
    channel list its enabled channels, resets the index to 0 when it
    is no position of the new list, and answers with the numbers of
    channels and administrators and the channels added and removed.
    When a file does not parse, it answers with the error; [CONFIG]
    is left empty, [ADMIN_IDS] and the poster are what they were.
    When [config.json] is missing, [sys.exit] ends the command with
    [SystemExit], which the handler does not catch; nothing is
    answered, [CONFIG] is left empty.  In every case the job queue,
    the posting flag and job, the time of the last post, the content
    tree and the state file are what they were: a running posting job
    keeps the interval it was started with, and a reset index is not
    written to the state file. *)
Theorem reload_reconfigures (uid : Z) (update : message) (b : bot) :
  let b' := (cmd_reload uid update b).2 in
  job_queue b' = job_queue b
  ∧ is_posting (poster b') = is_posting (poster b)
  ∧ posting_job (poster b') = posting_job (poster b)
  ∧ last_post_time (poster b') = last_post_time (poster b)
  ∧ content b' = content b
  ∧ STATE_FILE b' = STATE_FILE b
  ∧ admin_ids (CONFIG b')
    = match config_on_disk b with
      | ConfigJson cfg =>
          if bool_decide (uid ∈ admin_ids (CONFIG b)) then admin_ids cfg
          else admin_ids (CONFIG b)
      | _ => admin_ids (CONFIG b)
      end
  ∧ (uid ∉ admin_ids (CONFIG b) →
     cmd_reload uid update b = (Ret tt, send (ReplyTo update ReplyDenied) b))
  ∧ (uid ∈ admin_ids (CONFIG b) →
     match config_on_disk b with
     | ConfigJson cfg =>
         let new := keys (get_enabled_channels cfg) in
         let old := channels_list (poster b) in
         (cmd_reload uid update b).1 = Ret tt
         ∧ CONFIG b' = cfg
         ∧ channels_list (poster b') = new
         ∧ current_channel_index (poster b')
           = (if Z.of_nat (length new) <=? current_channel_index (poster b)
              then 0 else current_channel_index (poster b))
         ∧ outbox b'
           = outbox b
             ++ [ReplyTo update
                   (ReplyReloaded (length new) (length (admin_ids cfg))
                      (list_to_set new ∖ list_to_set old)
                      (list_to_set old ∖ list_to_set new))]
     | ConfigMalformed msg =>
         (cmd_reload uid update b).1 = Ret tt
         ∧ CONFIG b' = clear_CONFIG (CONFIG b)
         ∧ poster b' = poster b
         ∧ outbox b'
           = outbox b ++ [ReplyTo update (ReplyReloadFailed (JSONDecodeError msg))]
     | ConfigMissing =>
         (cmd_reload uid update b).1 = Exc (SystemExit 1)
         ∧ CONFIG b' = clear_CONFIG (CONFIG b)
         ∧ poster b' = poster b
         ∧ outbox b' = outbox b
     end).
Proof.
  intros b'. subst b'.
  destruct (decide (uid ∈ admin_ids (CONFIG b))) as [Hin|Hout].
  - rewrite (bool_decide_eq_true_2 _ Hin).
    destruct (config_on_disk b) as [|msg|cfg] eqn:Hfiles.
    + rewrite (cmd_reload_missing uid update b Hin Hfiles). cbn.
      repeat split; done.
    + rewrite (cmd_reload_malformed uid update b msg Hin Hfiles). cbn.
      repeat split; done.
    + rewrite (cmd_reload_loaded uid update b cfg Hin Hfiles). cbv zeta. cbn [fst snd].
      set (new := keys (get_enabled_channels cfg)).
      assert (Hp : ∀ (c : bool) (p : TelegramPoster),
                let p' := if c then set_current_channel_index 0 p else p in
                channels_list p' = channels_list p
                ∧ is_posting p' = is_posting p
                ∧ posting_job p' = posting_job p
                ∧ last_post_time p' = last_post_time p
                ∧ current_channel_index p' = if c then 0 else current_channel_index p)
        by (by intros [] ?).
      destruct (Hp (Z.of_nat (length new) <=? current_channel_index (poster b))
                  (set_channels_list new (poster b))) as (H1 & H2 & H3 & H4 & H5).
      split; [done|]. split; [exact H2|]. split; [exact H3|].
      split; [exact H4|]. split; [done|]. split; [done|]. split; [done|]. split; [done|].
      intros _. split; [done|]. split; [done|]. split; [exact H1|]. split; [exact H5|done].
  - rewrite (cmd_reload_denied uid update b Hout), (bool_decide_eq_false_2 _ Hout). cbn.
    destruct (config_on_disk b); repeat split; done.
Qed.

Lemma reload_reconfigures_witness :
  let msg := Demo.album_message 1 None in
  let error := "Expecting value: line 1 column 1 (char 0)"%string in
  let b := set_config_on_disk (ConfigMalformed error) Demo.bot in
  let b' := (cmd_reload 1001 msg b).2 in
  (cmd_reload 1001 msg b).1 = Ret tt
  ∧ CONFIG b' = clear_CONFIG Demo.config
  ∧ channels_list (poster b') = ["A"; "B"]%string
  ∧ outbox b' = [ReplyTo msg (ReplyReloadFailed (JSONDecodeError error))].
Proof.
  intros msg error b b'.
  destruct (reload_reconfigures 1001 msg b) as (_ & _ & _ & _ & _ & _ & _ & _ & Hadmin).
  destruct Hadmin as (Hret & Hcfg & Hposter & Hout).
  - apply (bool_decide_unpack _). by vm_compute.
  - split; [exact Hret|]. split; [exact Hcfg|]. split; [|exact Hout].
    subst b'. rewrite Hposter. reflexivity.
Defined.

(** ** Where uploads go *)

Lemma uploaded_refl t : uploaded t t.
Proof. split; [done|]. intros p k Hp. by left. Qed.

Lemma uploaded_trans t1 t2 t3 : uploaded t1 t2 → uploaded t2 t3 → uploaded t1 t3.
Proof.
  intros [Hs1 H1] [Hs2 H2]. split; [by etrans|].
  intros p k Hp. destruct (H2 p k Hp) as [Hp2|Hnew]; [by apply H1|by right].
Qed.

Lemma uploaded_insert (t : tree) (p : path) (k : kind) :
  t !! p = None →
  (k = KDir ∧ (length p ≤ 2)%nat) ∨ (∃ size, k = KFile size ∧ length p = 3%nat) →
  uploaded t (<[p := k]> t).
Proof.
  intros Hnone Hk. split; [by apply insert_subseteq|].
  intros q k' Hq. destruct (decide (p = q)) as [->|Hne].
  - rewrite lookup_insert_eq in Hq. injection Hq as <-. by right.
  - rewrite lookup_insert_ne in Hq by done. by left.
Qed.

Lemma fs_mkdir_parents_uploaded ch cat b :
  (∀ size, content b !! [ch] ≠ Some (KFile size)) →
  (∀ size, content b !! [ch; cat] ≠ Some (KFile size)) →
  ∃ t1, fs_mkdir_parents [ch; cat] b = (Ret tt, set_content t1 b)
        ∧ uploaded (content b) t1.
Proof.
  intros H1 H2. unfold fs_mkdir_parents. simpl. unfold bind, gets, modify. simpl.
  destruct (content b !! [ch]) as [[s|]|] eqn:E1; [by destruct (H1 s)| |]; simpl.
  - destruct (content b !! [ch; cat]) as [[s|]|] eqn:E2; [by destruct (H2 s)| |]; simpl.
    + exists (content b). rewrite set_content_id. split; [done|apply uploaded_refl].
    + eexists. split; [reflexivity|]. apply uploaded_insert; [done|]. left. simpl. split; [done|lia].
  - rewrite lookup_insert_ne by done.
    destruct (content b !! [ch; cat]) as [[s|]|] eqn:E2; [by destruct (H2 s)| |]; simpl.
    + eexists. split; [reflexivity|]. apply uploaded_insert; [done|]. left. simpl. split; [done|lia].
    + eexists. split; [reflexivity|].
      apply (uploaded_trans _ (<[[ch] := KDir]> (content b))).
      * apply uploaded_insert; [done|]. left. simpl. split; [done|lia].
      * apply uploaded_insert; [by rewrite lookup_insert_ne|]. left. simpl. split; [done|lia].
Qed.

Lemma save_file_uploaded env file_id text ext b :
  targets_free (CONFIG b) (content b) →
  ∃ r t', save_file env file_id text ext b = (Ret r, set_content t' b)
          ∧ uploaded (content b) t'.
Proof.
  intros Hfree. unfold save_file.
  destruct (List.find _ _) as [hashtag|];
    [|exists (SaveError "Нет хештега в подписи. Пример: #Sakura"), (content b);
      rewrite set_content_id; split; [done|apply uploaded_refl]].
  unfold bind at 1, gets at 1. simpl.
  destruct (find_category_by_hashtag (CONFIG b) hashtag) as [ci|] eqn:Hci;
    [|eexists _, (content b); rewrite set_content_id; split; [done|apply uploaded_refl]].
  destruct (fs_mkdir_parents_uploaded (ci_channel_key ci) (ci_category ci) b)
    as (t1 & Hmk & Hup).
  { intros size. by destruct (Hfree hashtag ci size Hci). }
  { intros size. by destruct (Hfree hashtag ci size Hci). }
  unfold bind at 1. rewrite Hmk.
  unfold try_except, bind, lift, gets, raise, ret, modify. simpl.
  destruct (tg_file_path env) as [tg_path|e]; [|by eexists _, t1].
  match goal with
  | |- context [generate_unique_filename t1 ?d ?n] =>
      destruct (generate_unique_filename_total t1 d n) as [fname Hname];
      rewrite Hname;
      apply (generate_unique_filename_fresh t1 [_; _]) in Hname
  end.
  destruct (download env) as [size|e]; [|by eexists _, t1].
  eexists _, _. split; [reflexivity|].
  eapply uploaded_trans; [done|]. apply uploaded_insert; [done|]. right. by exists size.
Qed.

(** [X19] What is uploaded is no asset.  [save_file] stores a file
    three levels below the content directory, under the channel and
    the category, where [get_random_image] does not look: it reads the
    files four levels down, under a month directory.  After any
    [save_file], saved or refused, every channel has exactly the assets
    it had.  The tree is one in which every entry lies in a directory,
    and configured category directories are not regular files. *)
Theorem uploads_are_not_assets (env : save_env) (file_id text ext : string) (b : bot) :
  targets_free (CONFIG b) (content b) →
  parents_exist (content b) →
  ∃ r t',
    save_file env file_id text ext b = (Ret r, set_content t' b)
    ∧ content b ⊆ t'
    ∧ ∀ ch p, asset_of (CONFIG b) t' ch p ↔ asset_of (CONFIG b) (content b) ch p.
Proof.
  intros Hfree Hparents.
  destruct (save_file_uploaded env file_id text ext b Hfree) as (r & t' & Hrun & Hsub & Hnew).
  exists r, t'. split; [done|]. split; [done|].
  intros ch p. split.
  - intros (month & cat & file & -> & Hname & Hm & Hch & Hcat & [k Hp] & Hs).
    assert (Hold : content b !! [month; ch; cat; file] = Some k).
    { destruct (Hnew _ _ Hp) as [H|[[_ Hlen]|(size & _ & Hlen)]]; [done|..];
        simpl in Hlen; lia. }
    assert (H3 : content b !! [month; ch; cat] = Some KDir).
    { apply (Hparents [month; ch; cat] file); [done|]. cbn [app]. by rewrite Hold. }
    assert (H2 : content b !! [month; ch] = Some KDir).
    { apply (Hparents [month; ch] cat); [done|]. cbn [app]. by rewrite H3. }
    assert (H1 : content b !! [month] = Some KDir).
    { apply (Hparents [month] ch); [done|]. cbn [app]. by rewrite H2. }
    exists month, cat, file. split; [done|]. split; [done|]. split; [done|].
    split; [done|]. split; [done|]. split; [by rewrite Hold|done].
  - intros (month & cat & file & -> & Hname & Hm & Hch & Hcat & [k Hp] & Hs).
    exists month, cat, file. split; [done|]. split; [done|].
    split; [by eapply lookup_weaken|]. split; [by eapply lookup_weaken|].
    split; [by eapply lookup_weaken|]. split; [|done].
    exists k. by eapply lookup_weaken.
Qed.

Lemma demo_parents_exist : parents_exist Demo.tree.
Proof.
  intros d n Hd [k Hk]. unfold Demo.tree in Hk.
  cbn [list_to_map foldr fst snd uncurry] in Hk.
  repeat (apply lookup_insert_Some in Hk as [[E _]|[_ Hk]];
          [destruct d as [|d1 [|d2 [|d3 [|d4 d]]]]; simplify_eq/=;
           try (by destruct d); by vm_compute|]).
  by rewrite lookup_empty in Hk.
Qed.

Lemma uploads_are_not_assets_witness :
  ∃ r t',
    save_file (Demo.saving (Demo.album_message 1 None)) "id1" "#alpha" ".jpg" Demo.bot
    = (Ret r, set_content t' Demo.bot)
    ∧ ∀ ch p, asset_of Demo.config t' ch p ↔ asset_of Demo.config Demo.tree ch p.
Proof.
  destruct (uploads_are_not_assets (Demo.saving (Demo.album_message 1 None))
              "id1" "#alpha" ".jpg" Demo.bot demo_targets_free demo_parents_exist)
    as (r & t' & Hrun & _ & Hassets).
  exists r, t'. split; [exact Hrun|exact Hassets].
Defined.

(** ** The answer to an album *)

Lemma for_accM_count {St A B} (I : St → Prop) (J : B → Prop) (μ : B → Z) (w : A → Z)
    (body : B → A → M St B) l :
  (∀ acc x s, x ∈ l → I s → J acc →
     ∃ acc' s', body acc x s = (Ret acc', s') ∧ I s' ∧ J acc' ∧ μ acc' = μ acc + w x) →
  ∀ acc s, I s → J acc →
    ∃ acc' s', for_accM body acc l s = (Ret acc', s')
               ∧ I s' ∧ J acc' ∧ μ acc' = μ acc + sum_Z (w <$> l).
Proof.
  induction l as [|x l IH]; intros Hbody acc s Hs Hacc.
  - exists acc, s. unfold sum_Z. simpl. repeat split; try done. lia.
  - cbn [for_accM]. unfold bind.
    destruct (Hbody acc x s) as (acc1 & s1 & -> & Hs1 & Hacc1 & Hμ1); [by left|done..|].
    destruct (IH (λ acc x s Hx, Hbody acc x s (list_elem_of_further _ _ _ Hx)) acc1 s1)
      as (acc2 & s2 & Hrun & Hs2 & Hacc2 & Hμ2); [done..|].
    exists acc2, s2. split; [done|]. split; [done|]. split; [done|].
    change (sum_Z (w <$> x :: l)) with (w x + sum_Z (w <$> l)). lia.
Qed.

Lemma sum_Z_indicator {A} (f : A → bool) (l : list A) :
  sum_Z ((λ x, if f x then 1 else 0) <$> l) = Z.of_nat (length (List.filter f l)).
Proof.
  unfold sum_Z. induction l as [|x l IH]; [done|].
  cbn [fmap list_fmap foldr List.filter]. change (list_fmap A Z ?g l) with (g <$> l).
  destruct (f x); cbn [length]; rewrite ?Nat2Z.inj_succ; lia.
Qed.

(** [X20] The answer to an album counts its files.  The flush of a
    buffered album returns the batch, forgets the group and sends one
    answer, to the first message.  When the answer reports saved files,
    at least one was saved, and the saved and the failed together are
    as many as the messages of the album that carry a file; when no
    message carries one, the answer is the error with the text for an
    unknown error.  Configured category directories are not regular
    files. *)
Theorem album_reply_counts (env : message → save_env) (g : string)
    (first : message) (rest : list message) (b : bot) :
  _album_buffer (uploader b) !! g = Some (first :: rest) →
  targets_free (CONFIG b) (content b) →
  ∃ r b',
    _process_album env g b = (Ret (first :: rest), b')
    ∧ outbox b' = outbox b ++ [ReplyTo first r]
    ∧ _album_buffer (uploader b') !! g = None
    ∧ _album_timers (uploader b') !! g = None
    ∧ let n := Z.of_nat (length (List.filter has_file (first :: rest))) in
      match r with
      | ReplySaved saved errors _ _ => 0 < saved ∧ 0 ≤ errors ∧ saved + errors = n
      | ReplyError text => n = 0 → text = "Неизвестная ошибка"%string
      | _ => False
      end.
Proof.
  intros Hbuf Hfree. unfold _process_album, bind at 1, gets at 1. cbn beta iota.
  rewrite Hbuf. cbn [from_option id]. unfold bind at 1, modify at 1. cbn beta iota.
  set (b1 := set_uploader _ b).
  set (text := default EmptyString _).
  unfold bind at 1.
  match goal with
  | |- context [for_accM ?body ?acc0 (first :: rest) b1] =>
      destruct (for_accM_count (saving_from b1)
                  (λ acc : Z * Z * option save_result,
                     0 ≤ acc.1.1 ∧ 0 ≤ acc.1.2 ∧ (acc.1.1 + acc.1.2 = 0 → acc.2 = None))
                  (λ acc, acc.1.1 + acc.1.2)
                  (λ m, if has_file m then 1 else 0)
                  body (first :: rest))
        with (acc := acc0) (s := b1)
        as (acc & b2 & Hloop & (t' & -> & Hgrown) & (Hs & He & Hnone) & Hsum)
  end.
  - intros acc m s _ (t' & -> & Hgrown) (Hs & He & Hnone). unfold has_file.
    destruct (_extract_file_info m) as [[[|c file_id] ext]|].
    + exists acc, (set_content t' b1). split; [done|]. split; [by exists t'|].
      split; [done|lia].
    + destruct (save_file_safe (env m) (String c file_id) text ext (set_content t' b1))
        as (r & t'' & Hsave & Hgrown').
      { simpl. by eapply targets_free_grown. }
      unfold bind at 1. rewrite Hsave. simpl in Hgrown'.
      destruct r; eexists _, _; (split; [reflexivity|]);
        (split; [exists t''; split; [done|by eapply grown_trans]|]);
        simpl; (split; [split; [lia|split; [lia|intros ?; lia]]|lia]).
    + exists acc, (set_content t' b1). split; [done|]. split; [by exists t'|].
      split; [done|lia].
  - exists (content b). split; [by rewrite <- (set_content_id b1) at 1|apply grown_refl].
  - simpl. split; [lia|]. split; [lia|done].
  - rewrite Hloop. rewrite sum_Z_indicator in Hsum.
    destruct acc as [[saved errors] last_result]. simpl in Hs, He, Hnone, Hsum.
    destruct (Z.ltb_spec 0 saved) as [Hpos|Hzero].
    + unfold bind at 1, bind at 1, gets at 1. cbn beta iota.
      destruct last_result as [[ch cat|e]|]; eexists _, _;
        (split; [reflexivity|]); simpl;
        (split; [done|]); (split; [apply lookup_delete_eq|]);
        (split; [apply lookup_delete_eq|]); (split; [done|split; [done|lia]]).
    + eexists _, _. unfold bind at 1, modify at 1, ret. split; [reflexivity|]. simpl.
      split; [done|]. split; [apply lookup_delete_eq|]. split; [apply lookup_delete_eq|].
      intros Hn. rewrite Hnone; [done|lia].
Qed.

Lemma album_reply_counts_witness :
  let m1 := Demo.album_message 1 (Some "#alpha"%string) in
  let m2 := Demo.album_message 2 None in
  let b := (handle_album_message m2 (handle_album_message m1 Demo.bot).2).2 in
  ∃ r b',
    _process_album Demo.saving "g1" b = (Ret [m1; m2], b')
    ∧ outbox b' = outbox b ++ [ReplyTo m1 r].
Proof.
  intros m1 m2 b.
  destruct (album_reply_counts Demo.saving "g1" m1 [m2] b) as (r & b' & Hrun & Hout & _).
  - vm_compute. reflexivity.
  - exact demo_targets_free.
  - exists r, b'. split; [exact Hrun|exact Hout].
Defined.

(** ** Merging configurations *)

Lemma merge_value_eq (old : option json) (value : json) :
  merge_value old value
  = match old, value with
    | Some (JObj base), JObj update => JObj (_deep_update base update)
    | _, _ => value
    end.
Proof.
  destruct value as [| | | | |update]; try by destruct old as [[]|].
  destruct old as [[| | | | |base]|]; try done. simpl. f_equal. unfold _deep_update.
  revert base. induction update as [|[key value] update IH]; intros base; [done|].
  simpl. apply IH.
Qed.

Lemma keys_dict_set {V} (d : list (string * V)) k v :
  keys (dict_set d k v) = if bool_decide (k ∈ keys d) then keys d else keys d ++ [k].
Proof.
  induction d as [|[k0 v0] d IH].
  - by rewrite bool_decide_eq_false_2 by apply not_elem_of_nil.
  - cbn [dict_set]. change (keys ((k0, v0) :: d)) with (k0 :: keys d).
    destruct (decide (k0 = k)) as [->|Hne].
    + by rewrite bool_decide_eq_true_2 by left.
    + change (keys ((k0, v0) :: dict_set d k v)) with (k0 :: keys (dict_set d k v)).
      rewrite IH. destruct (bool_decide_reflect (k ∈ keys d)) as [Hin|Hout].
      * by rewrite bool_decide_eq_true_2 by (by right).
      * rewrite bool_decide_eq_false_2; [done|]. by intros [?|?]%elem_of_cons.
Qed.

Lemma deep_update_get base update : ∀ k,
  NoDup (keys update) →
  dict_get (_deep_update base update) k
  = match dict_get update k with
    | Some value => Some (merge_value (dict_get base k) value)
    | None => dict_get base k
    end.
Proof.
  unfold keys. revert base. induction update as [|[k0 v0] update IH]; intros base k Hnd; [done|].
  apply NoDup_cons in Hnd as [Hk0 Hnd]. unfold _deep_update. simpl.
  fold (_deep_update (dict_set base k0 (merge_value (dict_get base k0) v0)) update).
  rewrite IH by done. destruct (decide (k0 = k)) as [->|Hne].
  - assert (dict_get update k = None) as ->.
    { apply eq_None_not_Some. by rewrite <- elem_of_keys_get. }
    rewrite dict_get_set. by destruct (decide (k = k)).
  - rewrite dict_get_set. by destruct (decide (k0 = k)).
Qed.

Lemma deep_update_keys base update :
  NoDup (keys update) →
  keys (_deep_update base update)
  = keys base ++ List.filter (λ k, bool_decide (k ∉ keys base)) (keys update).
Proof.
  revert base. induction update as [|[k0 v0] update IH]; intros base Hnd.
  - simpl. by rewrite app_nil_r.
  - change (keys ((k0, v0) :: update)) with (k0 :: keys update) in *.
    apply NoDup_cons in Hnd as [Hk0 Hnd]. unfold _deep_update. simpl.
    fold (_deep_update (dict_set base k0 (merge_value (dict_get base k0) v0)) update).
    rewrite IH by done. rewrite keys_dict_set.
    destruct (bool_decide_reflect (k0 ∈ keys base)) as [Hin|Hout].
    + by rewrite bool_decide_eq_false_2 by (by intros ?).
    + rewrite bool_decide_eq_true_2 by done. rewrite <- app_assoc. simpl. do 2 f_equal.
      apply filter_ext_in. intros k Hk%list_elem_of_In.
      apply bool_decide_ext. rewrite elem_of_app, list_elem_of_singleton.
      split; [tauto|]. intros Hnot [?|E]; [done|]. by subst.
Qed.

(** [X21] [_deep_update] overrides key by key and merges dicts.  For an
    update that is a dict (no key twice), the dict returned holds, for
    a key of the update, the value of the update, but for a key that
    has a dict on both sides, which holds the dict of the base updated
    in turn by the dict of the update; for any other key it holds what
    the base held.  Its keys are those of the base in their order, and
    after them the new keys of the update in theirs.  An empty update
    changes nothing. *)
Theorem deep_update_overrides (base update : list (string * json)) :
  NoDup (keys update) →
  (∀ k,
     dict_get (_deep_update base update) k
     = match dict_get update k with
       | Some value =>
           Some match dict_get base k, value with
                | Some (JObj sub), JObj sub_update => JObj (_deep_update sub sub_update)
                | _, _ => value
                end
       | None => dict_get base k
       end)
  ∧ keys (_deep_update base update)
    = keys base ++ List.filter (λ k, bool_decide (k ∉ keys base)) (keys update)
  ∧ _deep_update base [] = base.
Proof.
  intros Hnd. split; [|split; [by apply deep_update_keys|done]].
  intros k. rewrite deep_update_get by done.
  destruct (dict_get update k) as [value|]; [|done]. by rewrite merge_value_eq.
Qed.

Lemma deep_update_overrides_witness :
  let base :=
    [("schedule", JObj [("post_interval_minutes", JNum 30); ("first_post_hour", JNum 9)]);
     ("settings", JObj [("low_content_threshold", JNum 10)])]%string in
  let custom :=
    [("schedule", JObj [("post_interval_minutes", JNum 45)]);
     ("telegram", JObj [("admin_ids", JArr [JNum 1001])])]%string in
  dict_get (_deep_update base custom) "schedule"
  = Some (JObj [("post_interval_minutes", JNum 45); ("first_post_hour", JNum 9)]%string)
  ∧ keys (_deep_update base custom) = ["schedule"; "settings"; "telegram"]%string.
Proof.
  intros base custom.
  destruct (deep_update_overrides base custom) as (Hget & Hkeys & _).
  - repeat constructor; set_solver.
  - split; [rewrite Hget; reflexivity|rewrite Hkeys; reflexivity].
Defined.

(** ** [escape_md] *)

Lemma replace_char_app ch r s1 s2 :
  replace_char ch r (s1 +:+ s2) = replace_char ch r s1 +:+ replace_char ch r s2.
Proof.
  induction s1 as [|a s1 IH]; [done|]. rewrite string_app_cons. cbn [replace_char].
  destruct (decide (a = ch)); rewrite IH; [by rewrite string_app_assoc|done].
Qed.

Lemma replace_char_cons ch r a s :
  replace_char ch r (String a s)
  = replace_char ch r (String a EmptyString) +:+ replace_char ch r s.
Proof. apply (replace_char_app ch r (String a EmptyString) s). Qed.

(** [X22] [escape_md] escapes in one pass.  The four successive
    replacements amount to putting one backslash before each
    occurrence of [_], [*], [[] and [`] of the text, and to nothing
    else: no backslash that a replacement has put is touched by a later
    one.  So the result is longer than the text by the number of these
    characters in it, and a text without them is returned as it is. *)
Theorem escape_md_one_pass (text : string) :
  escape_md text = escaped text
  ∧ String.length (escape_md text)
    = (String.length text
       + length (List.filter (λ a, bool_decide (a ∈ md_specials)) (list_ascii_of_string text)))%nat
  ∧ (Forall (λ a, a ∉ md_specials) (list_ascii_of_string text) → escape_md text = text).
Proof.
  assert (Hone : escape_md text = escaped text).
  { unfold escape_md, md_specials. cbn [foldl].
    induction text as [|a text IH]; [done|].
    rewrite (replace_char_cons "_"), !replace_char_app, IH.
    cbn [escaped]. unfold md_specials.
    destruct (decide (a = "_"%char)) as [->|H1]; [done|].
    destruct (decide (a = "*"%char)) as [->|H2]; [done|].
    destruct (decide (a = "["%char)) as [->|H3]; [done|].
    destruct (decide (a = "`"%char)) as [->|H4]; [done|].
    rewrite bool_decide_eq_false_2 by (rewrite !elem_of_cons, elem_of_nil; tauto).
    cbn [replace_char]. rewrite !decide_False by done. cbn [replace_char String.append].
    rewrite !decide_False by done. cbn [replace_char String.append].
    rewrite !decide_False by done. cbn [replace_char String.append].
    by rewrite !decide_False by done. }
  split; [done|]. rewrite Hone. clear Hone. split.
  - induction text as [|a text IH]; [done|]. cbn [escaped list_ascii_of_string List.filter].
    destruct (bool_decide _); cbn [String.length length]; rewrite IH; lia.
  - induction text as [|a text IH]; [done|]. cbn [escaped list_ascii_of_string].
    intros [Ha Htext]%Forall_cons. rewrite bool_decide_eq_false_2 by done.
    by rewrite IH.
Qed.

Lemma escape_md_one_pass_witness :
  escape_md "plain text" = "plain text"%string
  ∧ escape_md "a_b*c" = String "a" (String "\" (String "_" (String "b"
                          (String "\" (String "*" (String "c" EmptyString)))))).
Proof.
  destruct (escape_md_one_pass "plain text") as (_ & _ & Hplain).
  destruct (escape_md_one_pass "a_b*c") as (Hone & _).
  split.
  - apply Hplain. apply (bool_decide_unpack _). by vm_compute.
  - rewrite Hone. reflexivity.
Defined.

(** ** The file of a message *)

(** [X23] [_extract_file_info] prefers the photo, and its extension
    hint can name a file.  Of a message with a photo it returns the
    last size of the photo, with [.jpg], whatever else the message
    carries.  It returns nothing exactly when the message has no
    photo, no document, no video and no animation.  Whatever it
    returns, the extension hint is not empty and is in lower case. *)
Theorem extract_file_info_hint (msg : message) :
  (∀ file_id, last (photo msg) = Some file_id →
     _extract_file_info msg = Some (file_id, ".jpg"%string))
  ∧ (_extract_file_info msg = None
     ↔ photo msg = [] ∧ msg_document msg = None ∧ video msg = None ∧ animation msg = None)
  ∧ (∀ file_id ext, _extract_file_info msg = Some (file_id, ext) →
       ext ≠ EmptyString ∧ Text.lower ext = ext).
Proof.
  unfold _extract_file_info. split; [|split].
  - by intros file_id ->.
  - rewrite <- last_None.
    destruct (last (photo msg)), (msg_document msg), (video msg), (animation msg);
      split; (try done); by intros (? & ? & ? & ?).
  - intros file_id ext.
    destruct (last (photo msg)) as [id|]; [by intros [= <- <-]|].
    destruct (msg_document msg) as [doc|].
    + intros [= <- <-].
      destruct (doc_file_name doc) as [[|c fn]|].
      1,3: repeat (match goal with |- context [if ?c then _ else _] => destruct c end);
        by split.
      destruct (decide _) as [|Hne]; [done|]. split; [done|apply lower_idemp].
    + destruct (video msg); [by intros [= <- <-]|].
      destruct (animation msg); [by intros [= <- <-]|done].
Qed.

(** ** Disabled channels *)

Lemma getitem_elem {A} (l : list A) (i : Z) (x : A) : getitem l i = Ret x → x ∈ l.
Proof.
  unfold getitem.
  destruct (0 <=? i); [|destruct (- Z.of_nat (length l) <=? i); [|done]];
    match goal with
    | |- context [l !! ?n] => destruct (l !! n) eqn:E; [|done]
    end; intros [= <-]; by eapply list_elem_of_lookup_2.
Qed.

Lemma get_next_channel_member b ch b' :
  get_next_channel b = (Ret (Some ch), b') → ch ∈ channels_list (poster b).
Proof.
  unfold get_next_channel, bind at 1, self_get at 1, gets at 1. cbn beta iota.
  destruct (channels_list (poster b)) as [|c l] eqn:El; [done|]. rewrite <- El.
  unfold bind at 1, self_get at 1, gets at 1. cbn beta iota.
  unfold bind at 1, lift at 1.
  destruct (getitem _ _) as [x|] eqn:Hx; [|done].
  apply getitem_elem in Hx.
  unfold bind, self_set, modify, ret. rewrite _save_state_result. by intros [= <- _].
Qed.

Lemma enabled_key cfg ch :
  ch ∈ keys (get_enabled_channels cfg) →
  ∃ ch_cfg, (ch, ch_cfg) ∈ channels cfg ∧ ch_enabled ch_cfg ≠ Some false.
Proof.
  unfold keys, get_enabled_channels. intros ([k ch_cfg] & -> & Hin)%list_elem_of_fmap.
  apply list_elem_of_In, filter_In in Hin as [Hin%list_elem_of_In Hon].
  exists ch_cfg. split; [done|]. simpl in Hon. by intros E; rewrite E in Hon.
Qed.

Lemma in_step_calls k : ∀ b outs b',
  in_step b →
  get_next_channel_times k b = (Ret outs, b') →
  in_step b'
  ∧ ∀ ch, Some ch ∈ outs →
          ∃ ch_cfg, (ch, ch_cfg) ∈ channels (CONFIG b) ∧ ch_enabled ch_cfg ≠ Some false.
Proof.
  induction k as [|k IH]; intros b outs b' Hstep.
  - intros [= <- <-]. split; [done|]. by intros ch ?%elem_of_nil.
  - cbn [get_next_channel_times]. unfold bind at 1.
    pose proof (quiet_get_next_channel b) as Hframe.
    destruct (get_next_channel b) as [[o|e] b1] eqn:Hnext; [|done].
    destruct Hframe as (Hcfg & _ & _ & _ & _ & _ & Hlist & _). cbn [snd] in Hcfg, Hlist.
    assert (Hstep1 : in_step b1) by (unfold in_step; by rewrite Hlist, Hcfg).
    unfold bind at 1. specialize (IH b1).
    destruct (get_next_channel_times k b1) as [[rest|e] b2]; [|done].
    destruct (IH rest b2 Hstep1 eq_refl) as [Hstep2 Hrest].
    intros [= <- <-]. split; [done|]. intros ch [E|Hin]%elem_of_cons.
    + subst o. apply enabled_key. rewrite <- Hstep.
      by eapply get_next_channel_member.
    + rewrite <- Hcfg. by apply Hrest.
Qed.

(** [X24] A disabled channel is never selected.  [__init__], and a
    [/reload] by an administrator of files that hold a configuration,
    make the channel list the list of the enabled channels of the
    configuration in force; from such a state any number of calls of
    [get_next_channel] keep it so and return channels of the
    configuration that are not disabled, and nothing else. *)
Theorem disabled_never_selected (b : bot) (k : nat) (outs : list (option string)) :
  in_step b →
  (get_next_channel_times k b).1 = Ret outs →
  in_step (get_next_channel_times k b).2
  ∧ (∀ ch, Some ch ∈ outs →
           ∃ ch_cfg, (ch, ch_cfg) ∈ channels (CONFIG b) ∧ ch_enabled ch_cfg ≠ Some false)
  ∧ (∀ b0, in_step (TelegramPoster_init b0).2)
  ∧ (∀ b0 uid update cfg,
       uid ∈ admin_ids (CONFIG b0) →
       config_on_disk b0 = ConfigJson cfg →
       in_step (cmd_reload uid update b0).2).
Proof.
  intros Hstep Hrun.
  destruct (get_next_channel_times k b) as [o b'] eqn:Hcalls. cbn [fst snd] in *. subst o.
  destruct (in_step_calls k b outs b' Hstep Hcalls) as [H1 H2].
  split; [done|]. split; [done|]. split.
  - intros b0. rewrite TelegramPoster_init_spec. unfold in_step. cbn [snd].
    by destruct (STATE_FILE b0).
  - intros b0 uid update cfg Hin Hfiles. unfold in_step.
    rewrite (cmd_reload_loaded uid update b0 cfg Hin Hfiles). cbn -[Z.leb Z.of_nat].
    by destruct (_ <=? _).
Qed.

Lemma disabled_never_selected_witness :
  let b := (TelegramPoster_init
              (set_CONFIG
                 {| channels := [("A", Demo.channel "@a" "Alpha" "#alpha");
                                 ("B", {| ch_channel_id := "@b"; ch_name := None;
                                          ch_enabled := Some false; ch_categories := [] |});
                                 ("C", Demo.channel "@c" "Gamma" "#gamma")]%string;
                    supported_formats := None; settings_supported_formats := None;
                    low_content_threshold := None; post_interval_minutes := None;
                    first_post_hour := None; last_post_hour := None;
                    admin_ids := [1001] |} Demo.blank)).2 in
  ∃ outs, (get_next_channel_times 4 b).1 = Ret outs ∧ Some "B"%string ∉ outs.
Proof.
  intros b.
  destruct (get_next_channel_times 4 b).1 as [outs|] eqn:Hrun;
    [|vm_compute in Hrun; discriminate Hrun].
  exists outs. split; [reflexivity|]. intros Hin.
  destruct (disabled_never_selected b 4 outs) as (_ & Hsel & _).
  - reflexivity.
  - exact Hrun.
  - destruct (Hsel "B"%string Hin) as (ch_cfg & Hcfg & Hon).
    vm_compute in Hcfg. apply elem_of_cons in Hcfg as [E|Hcfg]; [discriminate E|].
    apply elem_of_cons in Hcfg as [E|Hcfg]; [injection E as E; subst ch_cfg; by apply Hon|].
    apply elem_of_cons in Hcfg as [E|Hcfg]; [discriminate E|].
    by apply elem_of_nil in Hcfg.
Defined.

(** ** A tick that publishes *)

(** [X25] A tick that publishes is durable.  In the posting window,
    when the channel whose turn it is has a file chosen for it and the
    Bot API accepts the post, the tick posts that file to the chat of
    the channel and deletes it; the index has moved to the next
    channel, the time of the last post is the present instant, and the
    state file holds both, so that a poster constructed from it would
    go on with the next channel.  The post is the first thing the tick
    sends, and nothing it sends after it is a post.  The tree has no
    directory called [package_info.json] in a directory of the
    root. *)
Theorem tick_publishes (b : bot) (env : tick_env) (ch : string)
    (ch_cfg : channel_cfg) (img : image) (size : Z) :
  default 0 (first_post_hour (CONFIG b)) ≤ hour (now b)
    < default 24 (last_post_hour (CONFIG b)) →
  0 ≤ current_channel_index (poster b) →
  channels_list (poster b) !! Z.to_nat (current_channel_index (poster b)) = Some ch →
  ch ≠ EmptyString →
  dict_get (channels (CONFIG b)) ch = Some ch_cfg →
  get_random_image (CONFIG b) (content b) (pick env) ch = Ret (Some img) →
  content b !! img_path img = Some (KFile size) →
  api_error env = None →
  unlink_refused env = false →
  package_info_is_file (content b) →
  let b' := (_posting_tick env b).2 in
  let next := (current_channel_index (poster b) + 1)
                mod Z.of_nat (length (channels_list (poster b))) in
  content b' !! img_path img = None
  ∧ current_channel_index (poster b') = next
  ∧ last_post_time (poster b') = Some (now b)
  ∧ STATE_FILE b'
    = Json {| rec_current_channel_index := Some next;
              rec_is_posting := is_posting (poster b);
              rec_last_update := now b;
              rec_last_post_time := TsIso (now b) |}
  ∧ ∃ rest,
      outbox b'
      = outbox b
        ++ ToChannel (method_for (img_path img)) (ch_channel_id ch_cfg)
             (img_path img) (join_space (img_hashtags img)) :: rest
      ∧ List.filter is_post rest = [].
Proof.
  intros Hhour Hi Hch Hne Hcfg Himg Hfile Hapi Hunlink Hpkg b' next. subst b'.
  destruct (post_and_delete_published env ch (after_next b) ch_cfg img size)
    as (t' & Hrun & Hsub & _); try done.
  cbv zeta in Hrun.
  match type of Hrun with
  | _ = (_, ?s) => set (s3 := s) in Hrun
  end.
  assert (Htick : (_posting_tick env b).2 = (_check_low_content s3).2).
  { unfold _posting_tick, bind at 1, gets at 1. cbn beta iota.
    unfold bind at 1, gets at 1. cbn beta iota.
    destruct (Z.leb_spec (default 0 (first_post_hour (CONFIG b))) (hour (now b))); [|lia].
    destruct (Z.ltb_spec (hour (now b)) (default 24 (last_post_hour (CONFIG b)))); [|lia].
    cbn [andb negb]. unfold bind at 1.
    rewrite (get_next_channel_in_range b ch) by done.
    destruct ch as [|c ch]; [done|].
    unfold bind at 1. rewrite Hrun. unfold bind at 1, ret at 1. done. }
  rewrite Htick.
  destruct (_check_low_content_frame s3) as (Hc & Hf & _ & _ & Hidx & Hlast & _).
  destruct (quiet_check_low_content s3) as (_ & _ & _ & _ & _ & _ & _ & _ & _ & _ & Hout).
  destruct Hout as (rest & Hout & Hrest).
  split.
  { rewrite Hc. subst s3. cbn.
    eapply lookup_weaken_None; [apply (lookup_delete_eq (content b))|exact Hsub]. }
  split; [rewrite Hidx; by subst s3|]. split; [rewrite Hlast; by subst s3|].
  split; [rewrite Hf; by subst s3|].
  exists rest. split; [|done]. rewrite Hout. subst s3. cbn. by rewrite <- app_assoc.
Qed.

Lemma tick_publishes_witness :
  let b' := (_posting_tick Demo.fine Demo.bot).2 in
  content b' !! ["2024-05"; "A"; "art"; "pic.jpg"]%string = None
  ∧ current_channel_index (poster b') = 1
  ∧ last_post_time (poster b') = Some 0.
Proof.
  intros b'.
  destruct (tick_publishes Demo.bot Demo.fine "A" (Demo.channel "@a" "Alpha" "#alpha")
              {| img_path := ["2024-05"; "A"; "art"; "pic.jpg"]%string;
                 img_category := "art"; img_hashtags := ["#alpha"%string] |} 2048)
    as (Hgone & Hidx & Hlast & _).
  - by vm_compute.
  - by vm_compute.
  - vm_compute. reflexivity.
  - discriminate.
  - vm_compute. reflexivity.
  - vm_compute. reflexivity.
  - vm_compute. reflexivity.
  - reflexivity.
  - reflexivity.
  - apply demo_package_info_is_file.
  - split; [exact Hgone|]. split; [|exact Hlast]. etrans; [exact Hidx|]. by vm_compute.
Defined.

(** ** The totals of the statistics *)

Lemma sum_Z_app l1 l2 : sum_Z (l1 ++ l2) = sum_Z l1 + sum_Z l2.
Proof. unfold sum_Z. induction l1 as [|x l1 IH]; simpl; lia. Qed.

(** Adding to the value of a key adds to the sum of the values. *)
Lemma sum_values_set (d : list (string * Z)) k v :
  sum_Z (dict_set d k v).*2 = sum_Z d.*2 - default 0 (dict_get d k) + v.
Proof.
  unfold sum_Z. induction d as [|[k0 v0] d IH]; simpl; [lia|].
  destruct (decide (k0 = k)) as [->|Hne]; simpl; fold (@fmap list list_fmap);
    [|rewrite IH]; lia.
Qed.

Lemma sum_values_add (d : list (string * Z)) k c :
  sum_Z (dict_set d k (default 0 (dict_get d k) + c)).*2 = sum_Z d.*2 + c.
Proof. rewrite sum_values_set. lia. Qed.

Lemma keys_dict_set_new {V} (d : list (string * V)) k v :
  k ∉ keys d → dict_set d k v = d ++ [(k, v)].
Proof.
  unfold keys. induction d as [|[k0 v0] d IH]; simpl; [done|].
  intros Hout. apply not_elem_of_cons in Hout as [Hne Hout].
  destruct (decide (k0 = k)); [done|]. by rewrite IH.
Qed.

Lemma Forall_values_set (P : Z → Prop) (d : list (string * Z)) k v :
  P v → Forall P d.*2 → Forall P (dict_set d k v).*2.
Proof.
  intros Hv. induction d as [|[k0 v0] d IH]; simpl.
  - intros _. by repeat constructor.
  - intros [H0 Hd]%Forall_cons. destruct (decide (k0 = k)); simpl.
    + by constructor.
    + constructor; [done|]. by apply IH.
Qed.

(** The loop over the channels, for any way of counting one channel. *)
Lemma stats_channels_loop (inner : string → outcome channel_stats)
    (l : list (string * channel_cfg)) :
  (∀ ch_key cs, inner ch_key = Ret cs → counts_add_up cs) →
  ∀ (done_ : list (string * channel_cfg)) (acc stats : content_stats),
    NoDup (keys (done_ ++ l)) →
    keys (stats_channels acc) = keys done_ →
    stats_total acc = sum_Z (cs_total <$> (stats_channels acc).*2) →
    (∀ ch cs, (ch, cs) ∈ stats_channels acc → counts_add_up cs) →
    for_acc
      (λ stats ch,
         ch_stats ← inner ch.1;
         mret {| stats_total := stats_total stats + cs_total ch_stats;
                 stats_channels := dict_set (stats_channels stats) ch.1 ch_stats |})
      acc l = Ret stats →
    keys (stats_channels stats) = keys (done_ ++ l)
    ∧ stats_total stats = sum_Z (cs_total <$> (stats_channels stats).*2)
    ∧ ∀ ch cs, (ch, cs) ∈ stats_channels stats → counts_add_up cs.
Proof.
  intros Hinner. induction l as [|[ch_key ch_cfg] l IH]; intros done_ acc stats Hnd Hk Ht Hg.
  - intros [= <-]. by rewrite app_nil_r.
  - cbn [for_acc fst]. destruct (inner ch_key) as [cs|] eqn:Hcs; [|done].
    apply Hinner in Hcs. simpl. intros Hrest.
    assert (Hnew : ch_key ∉ keys (stats_channels acc)).
    { rewrite Hk. unfold keys in Hnd |- *. rewrite fmap_app in Hnd.
      apply NoDup_app in Hnd as (_ & Hdisj & _). intros Hin.
      apply (Hdisj ch_key Hin). by left. }
    rewrite keys_dict_set_new in Hrest by done.
    replace (done_ ++ (ch_key, ch_cfg) :: l) with ((done_ ++ [(ch_key, ch_cfg)]) ++ l)
      in Hnd |- * by by rewrite <- app_assoc.
    apply (IH _ _ _ Hnd) in Hrest; [done|..]; cbn [stats_channels stats_total].
    + unfold keys in Hk |- *. by rewrite !fmap_app, Hk.
    + rewrite !fmap_app, sum_Z_app, Ht. unfold sum_Z. simpl. lia.
    + intros ch cs' [Hin|Hin]%elem_of_app; [by eapply Hg|].
      apply list_elem_of_singleton in Hin. by injection Hin as -> ->.
Qed.

(** [X26] The totals of [get_content_stats] add up.  The statistics
    have one entry for each enabled channel, in the order of the
    configuration; the grand total is the sum of the totals of the
    channels; the total of a channel is the sum of the counts of its
    category folders; and no count is negative.  The channels of the
    configuration have distinct keys. *)
Theorem stats_totals_add_up (cfg : config) (t : tree) (stats : content_stats) :
  NoDup (keys (get_enabled_channels cfg)) →
  get_content_stats cfg t = Ret stats →
  keys (stats_channels stats) = keys (get_enabled_channels cfg)
  ∧ stats_total stats = sum_Z (cs_total <$> (stats_channels stats).*2)
  ∧ ∀ ch cs, (ch, cs) ∈ stats_channels stats →
             cs_total cs = sum_Z (cs_categories cs).*2
             ∧ 0 ≤ cs_total cs
             ∧ Forall (λ c, 0 ≤ c) (cs_categories cs).*2.
Proof.
  intros Hnd. unfold get_content_stats.
  destruct (month_dirs t) as [months|]; [|done].
  change (Ret months ≫= ?f) with (f months). cbn beta.
  intros Hrun.
  set (inner := λ ch_key : string,
         for_acc
           (λ ch_stats month,
              let ch_path := month ++ [ch_key] in
              if negb (Fs.exists_ t ch_path) then mret ch_stats
              else
                cat_dirs ← Fs.iterdir t ch_path;
                for_acc
                  (λ ch_stats cat_dir,
                     if negb (Fs.is_dir t cat_dir) then mret ch_stats
                     else
                       fs ← supported_files (get_supported_formats cfg) t cat_dir;
                       let count := Z.of_nat (length fs) in
                       let cats := cs_categories ch_stats in
                       mret {| cs_total := cs_total ch_stats + count;
                               cs_categories :=
                                 dict_set cats (Fs.name cat_dir)
                                   (default 0 (dict_get cats (Fs.name cat_dir)) + count) |})
                  ch_stats cat_dirs)
           {| cs_total := 0; cs_categories := [] |} months).
  assert (Hinner : ∀ ch_key cs, inner ch_key = Ret cs → counts_add_up cs); last first.
  { apply (stats_channels_loop inner _ Hinner [] _ stats Hnd) in Hrun as (Hk & Ht & Hg);
      [|done|done|by intros ch cs ?%elem_of_nil].
    split; [done|]. split; [done|]. intros ch cs Hin.
    destruct (Hg ch cs Hin) as [Hsum Hall]. split; [done|]. split; [|done].
    rewrite Hsum. by apply sum_Z_nonneg. }
  intros ch_key cs. apply (for_acc_invariant counts_add_up).
  { split; [done|constructor]. }
  intros acc m acc' Hacc _. cbv zeta.
  destruct (negb _); [by intros [= <-]|].
  destruct (Fs.iterdir t (m ++ [ch_key])) as [cat_dirs|]; simpl; [|done].
  apply (for_acc_invariant counts_add_up); [done|].
  intros acc1 cat_dir acc2 [Hsum Hall] _.
  destruct (negb _); [by intros [= <-]|].
  destruct (supported_files _ t cat_dir) as [fs|]; simpl; [|done].
  intros [= <-]. split; simpl.
  - rewrite sum_values_add. lia.
  - apply Forall_values_set; [|done].
    assert (0 ≤ sum_Z (cs_categories acc1).*2) by by apply sum_Z_nonneg.
    destruct (dict_get (cs_categories acc1) (Fs.name cat_dir)) as [v|] eqn:Hv; simpl; [|lia].
    assert (0 ≤ v); [|lia].
    clear -Hv Hall. induction (cs_categories acc1) as [|[k0 v0] d IH]; simpl in *; [done|].
    apply Forall_cons in Hall as [H0 Hd].
    destruct (decide (k0 = Fs.name cat_dir)); [by injection Hv as <-|by apply IH].
Qed.

Lemma stats_totals_add_up_witness :
  ∃ stats,
    get_content_stats Demo.config Demo.tree = Ret stats
    ∧ keys (stats_channels stats) = ["A"; "B"]%string
    ∧ stats_total stats = sum_Z (cs_total <$> (stats_channels stats).*2).
Proof.
  destruct (get_content_stats Demo.config Demo.tree) as [stats|] eqn:Hrun;
    [|vm_compute in Hrun; discriminate Hrun].
  destruct (stats_totals_add_up Demo.config Demo.tree stats) as (Hkeys & Htotal & _).
  - apply (bool_decide_unpack _). by vm_compute.
  - exact Hrun.
  - exists stats. split; [reflexivity|]. split; [rewrite Hkeys; reflexivity|exact Htotal].
Defined.

(** ** Removing the empty directories, all of them *)

Lemma NoDup_omap_inj {A B} (f : A → option B) (l : list A) :
  (∀ x y z, x ∈ l → y ∈ l → f x = Some z → f y = Some z → x = y) →
  NoDup l → NoDup (omap f l).
Proof.
  intros Hinj Hnd. induction Hnd as [|x l Hx Hnd IH]; simpl; [constructor|].
  assert (Hinj' : ∀ x y z, x ∈ l → y ∈ l → f x = Some z → f y = Some z → x = y).
  { intros ? ? ? ? ?. apply Hinj; by right. }
  destruct (f x) as [z|] eqn:Hfx; [|by apply IH].
  constructor; [|by apply IH].
  rewrite list_elem_of_omap. intros (y & Hy & Hfy).
  apply Hx. rewrite (Hinj x y z); [done|by left|by right|done|done].
Qed.

Lemma listdir_NoDup (t : tree) d : NoDup (Fs.listdir t d).
Proof.
  unfold Fs.listdir. apply NoDup_omap_inj; [|apply NoDup_map_to_list].
  intros [p k] [p' k'] n Hin Hin'. simpl. intros Hp Hp'.
  apply child_of_Some in Hp, Hp'. subst p p'.
  apply elem_of_map_to_list in Hin, Hin'. congruence.
Qed.

Lemma dir_count_delete_dir (t : tree) p :
  t !! p = Some KDir → dir_count t = dir_count (delete p t) + 1.
Proof.
  intros Hp. unfold dir_count. rewrite map_filter_delete.
  assert (Hin : is_Some (filter (λ pk : path * kind, pk.2 = KDir) t !! p)).
  { exists KDir. by apply map_lookup_filter_Some. }
  rewrite map_size_delete_Some by done.
  pose proof (map_size_ne_0_lookup_2 _ p Hin). lia.
Qed.

Lemma dir_count_delete_file (t : tree) p size :
  t !! p = Some (KFile size) → dir_count (delete p t) = dir_count t.
Proof.
  intros Hp. unfold dir_count. rewrite map_filter_delete, delete_id; [done|].
  apply map_lookup_filter_None. right. intros k Hk. simpl. congruence.
Qed.

Lemma pruning_refl D b removed : pruning D b removed b removed.
Proof. exists (content b). by rewrite set_content_id. Qed.

Lemma pruning_trans (D : path → Prop) b1 r1 b2 r2 b3 r3 :
  pruning D b1 r1 b2 r2 → pruning D b2 r2 b3 r3 → pruning D b1 r1 b3 r3.
Proof.
  intros (t2 & -> & Hs2 & Hf2 & Hc2) (t3 & -> & Hs3 & Hf3 & Hc3). simpl in *.
  exists t3. split; [done|]. split; [by etrans|]. split; [|lia].
  intros p Hp. by rewrite Hf3, Hf2.
Qed.

Lemma pruning_mono (D D' : path → Prop) b r b' r' :
  (∀ p, D p → D' p) → pruning D b r b' r' → pruning D' b r b' r'.
Proof.
  intros HD (t' & -> & Hs & Hf & Hc). exists t'. split; [done|]. split; [done|].
  split; [|done]. intros p Hp. apply Hf. intros ?. apply Hp. by apply HD.
Qed.

Lemma pruning_subseteq D b r b' r' : pruning D b r b' r' → content b' ⊆ content b.
Proof. by intros (t' & -> & Hs & _). Qed.

Lemma package_info_is_file_subseteq (t t' : tree) :
  t' ⊆ t → package_info_is_file t → package_info_is_file t'.
Proof. intros Hsub Hpkg month Hd. apply (Hpkg month). by eapply lookup_weaken. Qed.

Lemma fs_rmdir_pruning b p removed :
  content b !! p = Some KDir →
  Fs.listdir (content b) p = [] →
  ∃ b', fs_rmdir p b = (Ret tt, b')
        ∧ pruning (eq p) b removed b' (removed + 1)
        ∧ content b' !! p = None.
Proof.
  intros Hp Hempty. unfold fs_rmdir, bind, gets, modify. simpl. rewrite Hp, Hempty. simpl.
  eexists. split; [done|]. split.
  - exists (delete p (content b)). split; [done|]. split; [apply delete_subseteq|].
    split; [intros q Hq; by apply lookup_delete_ne|].
    rewrite (dir_count_delete_dir _ p Hp). lia.
  - simpl. apply lookup_delete_eq.
Qed.

Lemma fs_unlink_pruning b p size removed :
  content b !! p = Some (KFile size) →
  ∃ b', fs_unlink p b = (Ret tt, b')
        ∧ pruning (eq p) b removed b' removed
        ∧ content b' = delete p (content b).
Proof.
  intros Hp. unfold fs_unlink, bind, gets, modify. simpl. rewrite Hp. simpl.
  eexists. split; [done|]. split; [|done].
  exists (delete p (content b)). split; [done|]. split; [apply delete_subseteq|].
  split; [intros q Hq; by apply lookup_delete_ne|].
  by rewrite (dir_count_delete_file _ p size Hp).
Qed.

Lemma not_empty_dir_stable (t t' : tree) d :
  t' ⊆ t → (∀ n, t' !! (d ++ [n]) = t !! (d ++ [n])) →
  not_empty_dir t d → not_empty_dir t' d.
Proof.
  intros Hsub Hch Hne Hd. destruct (Hne (lookup_weaken _ _ _ _ Hd Hsub)) as [n Hn].
  exists n. by rewrite Hch.
Qed.

Lemma tidy_channel_stable (t t' : tree) ch :
  t' ⊆ t →
  (∀ c, t' !! (ch ++ [c]) = t !! (ch ++ [c])) →
  (∀ c n, t' !! ((ch ++ [c]) ++ [n]) = t !! ((ch ++ [c]) ++ [n])) →
  tidy_channel t ch → tidy_channel t' ch.
Proof.
  intros Hsub H1 H2 [Hne Hcats]. split; [by eapply not_empty_dir_stable|].
  intros Hch c. eapply not_empty_dir_stable; [done|apply H2|].
  apply Hcats. by eapply lookup_weaken.
Qed.

Lemma tidy_month_stable (t t' : tree) n :
  (∀ rest, t' !! (n :: rest) = t !! (n :: rest)) →
  tidy_month t n → tidy_month t' n.
Proof.
  intros H Ht Hm Hn. rewrite H in Hn. destruct (Ht Hm Hn) as [(k & Hk & Hsome) Hch].
  split; [exists k; by rewrite H|].
  intros ch. destruct (Hch ch) as [Hne Hcats]. split.
  - intros Hd. rewrite H in Hd. destruct (Hne Hd) as [x Hx]. exists x.
    cbn [app] in Hx |- *. by rewrite H.
  - intros Hd cat Hc. cbn [app] in Hc |- *. rewrite H in Hd, Hc.
    destruct (Hcats Hd cat Hc) as [x Hx]. exists x. cbn [app] in Hx |- *. by rewrite H.
Qed.

(** A category directory: removed if it is an empty directory, and
    nothing else is touched. *)
Lemma cleanup_category_prunes removed b d n :
  ∃ removed' b',
    cleanup_category removed (d ++ [n]) b = (Ret removed', b')
    ∧ pruning (eq (d ++ [n])) b removed b' removed'
    ∧ not_empty_dir (content b') (d ++ [n]).
Proof.
  unfold cleanup_category, bind at 1, fs_is_dir, gets.
  destruct (Fs.is_dir (content b) (d ++ [n])) eqn:Hdir; simpl.
  2:{ exists removed, b. split; [done|]. split; [apply pruning_refl|].
      intros Hd. apply is_dir_child in Hd. congruence. }
  unfold bind at 1, fs_iterdir, bind, gets, lift. rewrite iterdir_dir by done.
  destruct (Fs.listdir (content b) (d ++ [n])) as [|m ms] eqn:Hls; simpl.
  - apply is_dir_child in Hdir.
    destruct (fs_rmdir_pruning b (d ++ [n]) removed Hdir Hls) as (b' & -> & Hb' & Hgone).
    exists (removed + 1), b'. split; [done|]. split; [done|]. intros Hd. congruence.
  - exists removed, b. split; [done|]. split; [apply pruning_refl|].
    intros _. exists m. apply elem_of_listdir. rewrite Hls. by left.
Qed.

Lemma cleanup_categories_prune d (names : list string) : ∀ removed b,
  ∃ removed' b',
    for_accM cleanup_category removed ((λ k, d ++ [k]) <$> names) b = (Ret removed', b')
    ∧ pruning (λ p, ∃ k, p = d ++ [k]) b removed b' removed'
    ∧ ∀ k, k ∈ names → not_empty_dir (content b') (d ++ [k]).
Proof.
  induction names as [|k names IH]; intros removed b.
  - exists removed, b. split; [done|]. split; [apply pruning_refl|].
    by intros k ?%elem_of_nil.
  - cbn [fmap list_fmap for_accM].
    destruct (cleanup_category_prunes removed b d k) as (r1 & b1 & Hrun1 & Hp1 & Hne1).
    destruct (IH r1 b1) as (r2 & b2 & Hrun2 & Hp2 & Hne2).
    exists r2, b2. split; [unfold bind; by rewrite Hrun1|]. split.
    + eapply pruning_trans; [|exact Hp2]. eapply pruning_mono; [|exact Hp1].
      intros p <-. by exists k.
    + intros k' [->|Hin]%elem_of_cons; [|by apply Hne2].
      destruct Hp2 as (t2 & -> & Hsub & Hfoot & _). simpl.
      eapply not_empty_dir_stable; [exact Hsub| |exact Hne1].
      intros m. apply Hfoot. intros (k2 & E). apply (f_equal length) in E.
      rewrite !length_app in E. simpl in E. lia.
Qed.

(** A channel directory: its empty category directories are removed,
    then the directory itself if it is empty. *)
Lemma cleanup_channel_prunes removed b d n :
  ∃ removed' b',
    cleanup_channel removed (d ++ [n]) b = (Ret removed', b')
    ∧ pruning (λ p, p = d ++ [n] ∨ ∃ k, p = (d ++ [n]) ++ [k]) b removed b' removed'
    ∧ tidy_channel (content b') (d ++ [n]).
Proof.
  unfold cleanup_channel, bind at 1, fs_is_dir at 1, gets at 1.
  destruct (Fs.is_dir (content b) (d ++ [n])) eqn:Hdir; cbn [negb].
  2:{ exists removed, b. split; [done|]. split; [apply pruning_refl|].
      assert (content b !! (d ++ [n]) ≠ Some KDir) by (rewrite <- is_dir_child; congruence).
      split; by intros ?. }
  unfold bind at 1, fs_iterdir at 1, bind at 1, gets at 1, lift at 1.
  rewrite iterdir_dir by done.
  destruct (cleanup_categories_prune (d ++ [n]) (Fs.listdir (content b) (d ++ [n])) removed b)
    as (r1 & b1 & Hloop & Hp1 & Hne1).
  unfold bind at 1. rewrite Hloop.
  assert (Hcats : ∀ k, not_empty_dir (content b1) ((d ++ [n]) ++ [k])).
  { intros k. destruct (decide (k ∈ Fs.listdir (content b) (d ++ [n]))) as [Hin|Hout];
      [by apply Hne1|].
    intros Hk. exfalso. apply Hout. apply elem_of_listdir. exists KDir.
    eapply lookup_weaken; [exact Hk|by eapply pruning_subseteq]. }
  unfold bind at 1, fs_is_dir at 1, gets at 1.
  destruct (Fs.is_dir (content b1) (d ++ [n])) eqn:Hdir1; cbn [negb].
  2:{ exists r1, b1. split; [done|]. split.
      - eapply pruning_mono; [|exact Hp1]. naive_solver.
      - assert (content b1 !! (d ++ [n]) ≠ Some KDir)
          by (rewrite <- is_dir_child; congruence).
        split; by intros ?. }
  unfold bind at 1, fs_iterdir at 1, bind at 1, gets at 1, lift at 1.
  rewrite iterdir_dir by done.
  destruct (Fs.listdir (content b1) (d ++ [n])) as [|m ms] eqn:Hls; simpl.
  - apply is_dir_child in Hdir1.
    destruct (fs_rmdir_pruning b1 (d ++ [n]) r1 Hdir1 Hls) as (b2 & Hrm & Hp2 & Hgone).
    unfold bind at 1. rewrite Hrm. exists (r1 + 1), b2. split; [done|]. split.
    + eapply pruning_trans; (eapply pruning_mono; [|eassumption]); naive_solver.
    + split; intros ?; congruence.
  - exists r1, b1. split; [done|]. split; [eapply pruning_mono; [|exact Hp1]; naive_solver|].
    split; [|by intros _].
    intros _. exists m. apply elem_of_listdir. rewrite Hls. by left.
Qed.

Lemma cleanup_channels_prune month (names : list string) : ∀ removed b,
  ∃ removed' b',
    for_accM cleanup_channel removed ((λ k, [month] ++ [k]) <$> names) b
    = (Ret removed', b')
    ∧ pruning (λ p, ∃ k, k ∈ names ∧ (p = [month; k] ∨ ∃ c, p = [month; k; c]))
              b removed b' removed'
    ∧ ∀ k, k ∈ names → tidy_channel (content b') [month; k].
Proof.
  induction names as [|k names IH]; intros removed b.
  - exists removed, b. split; [done|]. split; [apply pruning_refl|].
    by intros k ?%elem_of_nil.
  - cbn [fmap list_fmap for_accM].
    destruct (cleanup_channel_prunes removed b [month] k) as (r1 & b1 & Hrun1 & Hp1 & Ht1).
    destruct (IH r1 b1) as (r2 & b2 & Hrun2 & Hp2 & Ht2).
    exists r2, b2. split; [unfold bind; by rewrite Hrun1|]. split.
    + eapply pruning_trans; (eapply pruning_mono; [|eassumption]).
      * intros p [->|[c ->]]; exists k; (split; [by left|]); [by left|right; by exists c].
      * intros p (k' & Hin & Hp). exists k'. split; [by right|done].
    + intros k' Hin. destruct (decide (k' ∈ names)) as [Hin'|Hout]; [by apply Ht2|].
      apply elem_of_cons in Hin as [->|Hin]; [|done].
      destruct Hp2 as (t2 & -> & Hsub & Hfoot & _). simpl.
      eapply (tidy_channel_stable (content b1)); [exact Hsub| | |exact Ht1].
      * intros c. apply Hfoot. intros (k2 & Hk2 & [E|[c' E]]); simplify_eq/=. done.
      * intros c x. apply Hfoot. intros (k2 & Hk2 & [E|[c' E]]); simplify_eq/=.
Qed.

(** A month directory: its channel directories are cleaned, then it is
    removed if nothing or only [package_info.json] is left in it. *)
Lemma cleanup_month_prunes removed b n :
  package_info_is_file (content b) →
  ∃ removed' b',
    cleanup_month removed [n] b = (Ret removed', b')
    ∧ pruning (λ p, ∃ rest, p = n :: rest) b removed b' removed'
    ∧ tidy_month (content b') n.
Proof.
  intros Hpkg. unfold cleanup_month, bind at 1, fs_is_dir at 1, gets at 1.
  change (Fs.name [n]) with n.
  destruct (Fs.is_dir (content b) [n]) eqn:Hdir; cbn [negb orb].
  2:{ exists removed, b. split; [done|]. split; [apply pruning_refl|].
      intros _ Hd. apply (is_dir_child _ []) in Hd. cbn [app] in Hd. congruence. }
  destruct (Text.is_month_name n) eqn:Hname; cbn [negb].
  2:{ exists removed, b. split; [done|]. split; [apply pruning_refl|].
      intros ?. congruence. }
  unfold bind at 1, fs_iterdir at 1, bind at 1, gets at 1, lift at 1.
  rewrite iterdir_dir by done.
  destruct (cleanup_channels_prune n (Fs.listdir (content b) [n]) removed b)
    as (r1 & b1 & Hloop & Hp1 & Ht1).
  unfold bind at 1. rewrite Hloop.
  assert (Hsub1 : content b1 ⊆ content b) by by eapply pruning_subseteq.
  assert (Hn1 : content b1 !! [n] = Some KDir).
  { apply (is_dir_child _ []) in Hdir. simpl in Hdir.
    destruct Hp1 as (t1 & -> & _ & Hfoot & _). simpl. rewrite Hfoot; [done|].
    intros (k & _ & [E|[c E]]); discriminate E. }
  assert (Hchs : ∀ ch, tidy_channel (content b1) [n; ch]).
  { intros ch. destruct (decide (ch ∈ Fs.listdir (content b) [n])) as [Hin|Hout];
      [by apply Ht1|].
    assert (content b1 !! [n; ch] ≠ Some KDir).
    { intros Hd. apply Hout. apply elem_of_listdir. exists KDir. by eapply lookup_weaken. }
    split; by intros ?. }
  assert (Hwide : pruning (λ p, ∃ rest, p = n :: rest) b removed b1 r1).
  { eapply pruning_mono; [|exact Hp1]. intros p (k & _ & [->|[c ->]]); eauto. }
  unfold bind at 1, fs_iterdir at 1, bind at 1, gets at 1, lift at 1.
  rewrite iterdir_dir by (by apply (is_dir_child _ [])).
  pose proof (listdir_NoDup (content b1) [n]) as Hnd.
  pose proof (elem_of_listdir (content b1) [n]) as Hls.
  set (ls := Fs.listdir (content b1) [n]) in *.
  destruct (decide (ls = [])) as [Hnil|Hsome].
  - rewrite Hnil. cbn [fmap list_fmap bool_decide orb for_each].
    rewrite bool_decide_eq_true_2 by done. cbn [orb].
    unfold bind at 1, ret at 1.
    destruct (fs_rmdir_pruning b1 [n] r1 Hn1) as (b2 & Hrm & Hp2 & Hgone);
      [exact Hnil|].
    unfold bind at 1. rewrite Hrm. exists (r1 + 1), b2. split; [done|]. split.
    + eapply pruning_trans; [exact Hwide|]. eapply pruning_mono; [|exact Hp2].
      intros p <-. by exists [].
    + intros _ Hd. congruence.
  - rewrite (bool_decide_eq_false_2 (_ <$> ls = [])) by (by destruct ls).
    cbn [orb]. rewrite <- list_fmap_compose.
    rewrite (list_fmap_ext (Fs.name ∘ (λ k, [n] ++ [k])) id ls)
      by (intros; apply (name_child [n])).
    rewrite list_fmap_id.
    destruct (decide (ls = ["package_info.json"%string])) as [Hpk|Hother].
    + rewrite bool_decide_eq_true_2 by done. rewrite Hpk.
      cbn [fmap list_fmap for_each app].
      assert (Hin : is_Some (content b1 !! [n; "package_info.json"%string])).
      { apply (Hls "package_info.json"%string). rewrite Hpk. by left. }
      destruct Hin as [k Hk]. destruct k as [size|].
      2:{ exfalso. apply (Hpkg n). by eapply lookup_weaken. }
      destruct (fs_unlink_pruning b1 _ size r1 Hk) as (b2 & Hul & Hp2 & Hc2).
      unfold bind at 1, bind at 1. rewrite Hul. unfold ret at 1.
      destruct (fs_rmdir_pruning b2 [n] r1) as (b3 & Hrm & Hp3 & Hgone).
      { rewrite Hc2. by rewrite lookup_delete_ne. }
      { apply listdir_nil_iff. intros m. rewrite Hc2.
        destruct (decide (m = "package_info.json"%string)) as [->|Hm].
        - apply (lookup_delete_eq (content b1)).
        - change ([n] ++ [m]) with [n; m]. rewrite lookup_delete_ne by congruence.
          apply eq_None_not_Some. rewrite <- (Hls m). rewrite Hpk. set_solver. }
      unfold bind at 1. rewrite Hrm. exists (r1 + 1), b3. split; [done|]. split.
      * eapply pruning_trans; [exact Hwide|].
        eapply pruning_trans; (eapply pruning_mono; [|eassumption]); intros p <-; eauto.
      * intros _ Hd. congruence.
    + rewrite bool_decide_eq_false_2 by done. exists r1, b1.
      split; [done|]. split; [done|].
      intros _ _. split; [|done].
      destruct ls as [|k1 [|k2 rest]] eqn:Els; [done| |].
      * exists k1. split; [congruence|]. apply (Hls k1). by left.
      * apply NoDup_cons in Hnd as [Hk1 _].
        destruct (decide (k1 = "package_info.json"%string)) as [->|Hne1].
        -- exists k2. split; [intros ->; apply Hk1; by left|].
           apply (Hls k2). right. by left.
        -- exists k1. split; [done|]. apply (Hls k1). by left.
Qed.

Lemma cleanup_months_prune (names : list string) : ∀ removed b,
  package_info_is_file (content b) →
  ∃ removed' b',
    for_accM cleanup_month removed ((λ n, [n]) <$> names) b = (Ret removed', b')
    ∧ pruning (λ p, ∃ n rest, n ∈ names ∧ p = n :: rest) b removed b' removed'
    ∧ ∀ n, n ∈ names → tidy_month (content b') n.
Proof.
  induction names as [|n names IH]; intros removed b Hpkg.
  - exists removed, b. split; [done|]. split; [apply pruning_refl|].
    by intros k ?%elem_of_nil.
  - cbn [fmap list_fmap for_accM].
    destruct (cleanup_month_prunes removed b n Hpkg) as (r1 & b1 & Hrun1 & Hp1 & Ht1).
    destruct (IH r1 b1) as (r2 & b2 & Hrun2 & Hp2 & Ht2).
    { eapply package_info_is_file_subseteq; [|exact Hpkg]. by eapply pruning_subseteq. }
    exists r2, b2. split; [unfold bind; by rewrite Hrun1|]. split.
    + eapply pruning_trans; (eapply pruning_mono; [|eassumption]).
      * intros p [rest ->]. exists n, rest. split; [by left|done].
      * intros p (n' & rest & Hin & ->). exists n', rest. split; [by right|done].
    + intros n' Hin. destruct (decide (n' ∈ names)) as [Hin'|Hout]; [by apply Ht2|].
      apply elem_of_cons in Hin as [->|Hin]; [|done].
      destruct Hp2 as (t2 & -> & Hsub & Hfoot & _). simpl.
      apply (tidy_month_stable (content b1)); [|exact Ht1].
      intros rest. apply Hfoot. intros (n2 & rest2 & Hin2 & E). by simplify_eq.
Qed.

(** [X27] [cleanup_empty_dirs] leaves no empty folder and counts what
    it removes.  On a tree with no directory called
    [package_info.json] in a directory of the root, the cleanup
    returns a number and a tree such that the tree has lost exactly
    that number of directories, and in every month directory that is
    left there is an entry other than [package_info.json], every
    channel directory has an entry, and every category directory of a
    channel directory has an entry. *)
Theorem cleanup_leaves_no_empty_dir (b : bot) :
  package_info_is_file (content b) →
  ∃ removed t',
    cleanup_empty_dirs b = (Ret removed, set_content t' b)
    ∧ dir_count (content b) = dir_count t' + removed
    ∧ ∀ month,
        Text.is_month_name month = true →
        t' !! [month] = Some KDir →
        (∃ n, n ≠ "package_info.json"%string ∧ is_Some (t' !! [month; n]))
        ∧ ∀ ch,
            t' !! [month; ch] = Some KDir →
            (∃ n, is_Some (t' !! [month; ch; n]))
            ∧ ∀ cat,
                t' !! [month; ch; cat] = Some KDir →
                ∃ n, is_Some (t' !! [month; ch; cat; n]).
Proof.
  intros Hpkg. rewrite cleanup_empty_dirs_loops.
  unfold bind at 1, bind at 1, gets at 1, lift at 1, Fs.sorted_iterdir. simpl.
  destruct (cleanup_months_prune (merge_sort String.le (Fs.listdir (content b) [])) 0 b Hpkg)
    as (removed & b' & Hloop & (t' & -> & Hsub & _ & Hcount) & Htidy).
  exists removed, t'. split; [done|]. split; [lia|].
  simpl in Htidy. intros month Hname Hd.
  assert (Hin : month ∈ merge_sort String.le (Fs.listdir (content b) [])).
  { rewrite merge_sort_Permutation. apply (elem_of_listdir _ []). exists KDir.
    by eapply lookup_weaken. }
  destruct (Htidy month Hin Hname Hd) as [Hentry Hchs]. split; [done|].
  intros ch Hch. destruct (Hchs ch) as [Hne Hcats]. split; [by apply Hne|].
  intros cat Hcat. by apply (Hcats Hch cat).
Qed.

Lemma cleanup_leaves_no_empty_dir_witness :
  ∃ removed t',
    cleanup_empty_dirs Demo.bot = (Ret removed, set_content t' Demo.bot)
    ∧ dir_count (content Demo.bot) = dir_count t' + removed.
Proof.
  destruct (cleanup_leaves_no_empty_dir Demo.bot demo_package_info_is_file)
    as (removed & t' & Hrun & Hcount & _).
  exists removed, t'. split; [exact Hrun|exact Hcount].
Defined.

(** ** A second cleanup finds nothing *)

Lemma for_accM_fixed {St A B} (body : B → A → M St B) (acc : B) (s : St) l :
  (∀ x, x ∈ l → body acc x s = (Ret acc, s)) → for_accM body acc l s = (Ret acc, s).
Proof.
  induction l as [|x l IH]; intros Hbody; [done|].
  cbn [for_accM]. unfold bind. rewrite Hbody by by left.
  apply IH. intros ? ?. apply Hbody. by right.
Qed.

Lemma cleanup_category_noop removed b d n :
  not_empty_dir (content b) (d ++ [n]) →
  cleanup_category removed (d ++ [n]) b = (Ret removed, b).
Proof.
  intros Hne. unfold cleanup_category, bind at 1, fs_is_dir, gets.
  destruct (Fs.is_dir (content b) (d ++ [n])) eqn:Hdir; simpl; [|done].
  unfold bind at 1, fs_iterdir, bind, gets, lift. rewrite iterdir_dir by done.
  apply is_dir_child in Hdir. destruct (Hne Hdir) as [m Hm%elem_of_listdir].
  by destruct (Fs.listdir (content b) (d ++ [n])); [apply elem_of_nil in Hm|].
Qed.

Lemma cleanup_channel_noop removed b d n :
  tidy_channel (content b) (d ++ [n]) →
  cleanup_channel removed (d ++ [n]) b = (Ret removed, b).
Proof.
  intros [Hne Hcats]. unfold cleanup_channel, bind at 1, fs_is_dir at 1, gets at 1.
  destruct (Fs.is_dir (content b) (d ++ [n])) eqn:Hdir; cbn [negb]; [|done].
  unfold bind at 1, fs_iterdir at 1, bind at 1, gets at 1, lift at 1.
  rewrite iterdir_dir by done.
  pose proof Hdir as Hd. apply is_dir_child in Hd.
  unfold bind at 1. rewrite for_accM_fixed.
  2:{ intros x (k & -> & _)%list_elem_of_fmap. apply cleanup_category_noop. by apply Hcats. }
  unfold bind at 1, fs_is_dir at 1, gets at 1. rewrite Hdir. cbn [negb].
  unfold bind at 1, fs_iterdir at 1, bind at 1, gets at 1, lift at 1.
  rewrite iterdir_dir by done.
  destruct (Hne Hd) as [m Hm%elem_of_listdir].
  by destruct (Fs.listdir (content b) (d ++ [n])); [apply elem_of_nil in Hm|].
Qed.

Lemma cleanup_month_noop removed b n :
  tidy_month (content b) n → cleanup_month removed [n] b = (Ret removed, b).
Proof.
  intros Htidy. unfold cleanup_month, bind at 1, fs_is_dir at 1, gets at 1.
  change (Fs.name [n]) with n.
  destruct (Fs.is_dir (content b) [n]) eqn:Hdir; cbn [negb orb]; [|done].
  destruct (Text.is_month_name n) eqn:Hname; cbn [negb]; [|done].
  unfold bind at 1, fs_iterdir at 1, bind at 1, gets at 1, lift at 1.
  rewrite iterdir_dir by done.
  pose proof Hdir as Hd. apply (is_dir_child _ []) in Hd. cbn [app] in Hd.
  destruct (Htidy Hname Hd) as [(k & Hk & Hin) Hchs].
  unfold bind at 1. rewrite for_accM_fixed.
  2:{ intros x (ch & -> & _)%list_elem_of_fmap. apply (cleanup_channel_noop _ _ [n]).
      apply Hchs. }
  unfold bind at 1, fs_iterdir at 1, bind at 1, gets at 1, lift at 1.
  rewrite iterdir_dir by done.
  apply (elem_of_listdir _ [n]) in Hin.
  set (ls := Fs.listdir (content b) [n]) in *.
  rewrite (bool_decide_eq_false_2 (_ <$> ls = []))
    by (destruct ls; [by apply elem_of_nil in Hin|done]).
  cbn [orb]. rewrite <- list_fmap_compose.
  rewrite (list_fmap_ext (Fs.name ∘ (λ k, [n] ++ [k])) id ls)
    by (intros; apply (name_child [n])).
  rewrite list_fmap_id.
  rewrite bool_decide_eq_false_2; [done|].
  intros E. rewrite E in Hin. apply list_elem_of_singleton in Hin. done.
Qed.

(** [X28] A second cleanup finds nothing to remove.  On a tree with no
    directory called [package_info.json] in a directory of the root,
    [cleanup_empty_dirs] run again on the state it has left returns 0
    and changes nothing. *)
Theorem cleanup_idempotent (b : bot) :
  package_info_is_file (content b) →
  ∃ removed b',
    cleanup_empty_dirs b = (Ret removed, b')
    ∧ cleanup_empty_dirs b' = (Ret 0, b').
Proof.
  intros Hpkg. rewrite cleanup_empty_dirs_loops.
  unfold bind at 1, bind at 1, gets at 1, lift at 1, Fs.sorted_iterdir. simpl.
  destruct (cleanup_months_prune (merge_sort String.le (Fs.listdir (content b) [])) 0 b Hpkg)
    as (removed & b' & Hloop & Hp & Htidy).
  exists removed, b'. split; [done|].
  unfold bind at 1, bind at 1, gets at 1, lift at 1, Fs.sorted_iterdir. simpl.
  apply for_accM_fixed. intros x (n & -> & Hn)%list_elem_of_fmap.
  apply cleanup_month_noop. apply Htidy.
  rewrite merge_sort_Permutation in Hn |- *.
  apply (elem_of_listdir _ []) in Hn as [k Hk]. apply (elem_of_listdir _ []).
  exists k. eapply lookup_weaken; [exact Hk|by eapply pruning_subseteq].
Qed.

Lemma cleanup_idempotent_witness :
  ∃ removed b',
    cleanup_empty_dirs Demo.bot = (Ret removed, b')
    ∧ cleanup_empty_dirs b' = (Ret 0, b').
Proof. exact (cleanup_idempotent Demo.bot demo_package_info_is_file). Defined.

